(** * local-nekos-best: the intent-gated selection engine of [main/main.cjs]

    A shallow embedding of the module's intent gate ([callNekoIntent]), its
    request normaliser ([parseOptions]), its three sampling strategies and its
    response projector, followed by the properties the specification states
    about them.

    Conventions of the embedding.
    - A JavaScript value is a [JSValue]; an absent option is [JUndefined].
    - A JavaScript number is [NaN], an infinity or a finite rational: every
      finite double is a rational, and the operations the module applies to
      numbers it receives ([===], [<], [Number.isFinite], [Math.floor]) are
      exact on doubles, so a statement over all rationals covers all doubles.
    - A string is a [string] whose characters stand for code units 0..255.
    - The module-level variables ([intentConfig], [intentLocked],
      [rawGifsData], [gifsData]) are the fields of an explicit [State].
    - [throw] is the [Throw] outcome of a small error monad; [Math.random] is
      an explicit tape of draws threaded through the sampling code. *)

From Stdlib Require Import ZArith QArith Qround Ascii String List Lia.
From stdpp Require Import base option list strings gmap.

Local Open Scope string_scope.
Local Set Warnings "-register-all".

(* ========================================================================= *)
(** * JavaScript values                                                      *)
(* ========================================================================= *)

Inductive JSNumber : Type :=
| NaN
| Infinity (negative : bool)
| Finite (q : Q).

Inductive JSValue : Type :=
| JUndefined
| JNull
| JBool (b : bool)
| JNum (n : JSNumber)
| JStr (s : string)
| JArr (elems : list JSValue).

(** [x === k] for a number [x] and an integer literal [k]. *)
Definition numberIs (n : JSNumber) (k : Z) : bool :=
  match n with
  | Finite q => Qeq_bool q (inject_Z k)
  | _ => false
  end.

(** [Number.isFinite(x)] for a value whose [typeof] is ["number"]. *)
Definition isFinite (n : JSNumber) : bool :=
  match n with
  | Finite _ => true
  | _ => false
  end.

(** [x < k] for a number [x] and an integer literal [k]; a comparison with
    [NaN] is false. *)
Definition numberLt (n : JSNumber) (k : Z) : bool :=
  match n with
  | NaN => false
  | Infinity negative => negative
  | Finite q => negb (Qle_bool (inject_Z k) q)
  end.

(** [Boolean(v)]. *)
Definition toBoolean (v : JSValue) : bool :=
  match v with
  | JUndefined | JNull => false
  | JBool b => b
  | JNum NaN => false
  | JNum (Infinity _) => true
  | JNum (Finite q) => negb (Qeq_bool q 0)
  | JStr s => negb (String.eqb s "")
  | JArr _ => true
  end.

(** [Array.isArray(v) ? v : [v]]. *)
Definition asArray (v : JSValue) : list JSValue :=
  match v with
  | JArr elems => elems
  | _ => [v]
  end.

(* ========================================================================= *)
(** * String primitives                                                      *)
(* ========================================================================= *)

(** White space and line terminators of ECMAScript among the code units
    0..255: TAB, LF, VT, FF, CR, SP and NBSP. *)
Definition isWhiteSpace (c : ascii) : bool :=
  let n := N_of_ascii c in
  ((9 <=? n) && (n <=? 13) || (n =? 32) || (n =? 160))%N.

Fixpoint trimStart (s : string) : string :=
  match s with
  | EmptyString => EmptyString
  | String c s' => if isWhiteSpace c then trimStart s' else s
  end.

Fixpoint trimEnd (s : string) : string :=
  match s with
  | EmptyString => EmptyString
  | String c s' =>
      match trimEnd s' with
      | EmptyString => if isWhiteSpace c then EmptyString else String c EmptyString
      | t => String c t
      end
  end.

(** [s.trim()]. *)
Definition trim (s : string) : string := trimEnd (trimStart s).

Definition lowerChar (c : ascii) : ascii :=
  let n := N_of_ascii c in
  if ((65 <=? n) && (n <=? 90) || (192 <=? n) && (n <=? 214)
      || (216 <=? n) && (n <=? 222))%N
  then ascii_of_N (n + 32) else c.

(** [s.toLowerCase()]. *)
Fixpoint toLowerCase (s : string) : string :=
  match s with
  | EmptyString => EmptyString
  | String c s' => String (lowerChar c) (toLowerCase s')
  end.

(** [s.includes(sub)]. *)
Fixpoint includes (s sub : string) : bool :=
  String.prefix sub s
  || match s with
     | EmptyString => false
     | String _ s' => includes s' sub
     end.

(** [arr.includes(x)] on an array of strings. *)
Definition arrayIncludes (arr : list string) (x : string) : bool :=
  bool_decide (x ∈ arr).

(* ========================================================================= *)
(** * Constants                                                              *)
(* ========================================================================= *)

Definition VALID_ACTIONS : list string :=
  [ "angry"; "baka"; "bite"; "blush"; "bored"; "cry"; "cuddle"; "dance";
    "facepalm"; "feed"; "handhold"; "handshake"; "happy"; "highfive"; "hug";
    "husbando"; "kick"; "kiss"; "kitsune"; "laugh"; "lurk"; "neko"; "nod";
    "nom"; "nope"; "pat"; "peck"; "poke"; "pout"; "punch"; "run"; "shoot";
    "shrug"; "slap"; "sleep"; "smile"; "smug"; "stare"; "think"; "thumbsup";
    "tickle"; "waifu"; "wave"; "wink"; "yawn"; "yeet" ].

Definition IMAGE_CATEGORIES : list string :=
  [ "husbando"; "kitsune"; "neko"; "waifu" ].

(** [CONTENT_TYPES]: [IMAGE] is 1, [GIF] is 2, [BOTH] is 3. *)
Inductive ContentType : Type := IMAGE | GIF | BOTH.

Global Instance ContentType_eq_dec : EqDecision ContentType.
Proof. solve_decision. Defined.

(** [MODES]. *)
Inductive Mode : Type := RANDOM | DISTRIBUTED | EACH.

Global Instance Mode_eq_dec : EqDecision Mode.
Proof. solve_decision. Defined.

(** [TYPE_ALIASES] and [MODE_ALIASES] are plain object literals, so a lookup
    [TYPE_ALIASES[x]] that misses the table's own keys continues on
    [Object.prototype]; these are the names found there, each bound to a
    function or object (never to [undefined]). *)
Definition OBJECT_PROTOTYPE_KEYS : list string :=
  [ "constructor"; "__defineGetter__"; "__defineSetter__"; "hasOwnProperty";
    "__lookupGetter__"; "__lookupSetter__"; "isPrototypeOf";
    "propertyIsEnumerable"; "toString"; "valueOf"; "__proto__";
    "toLocaleString" ].

(** What an alias lookup yields: a table entry, an inherited member of
    [Object.prototype], or [undefined]. *)
Inductive Lookup (A : Type) : Type :=
| Own (a : A)
| Inherited (key : string)
| Missing.
Arguments Own {A} a.
Arguments Inherited {A} key.
Arguments Missing {A}.

(** The value [normalizeType] returns: one of the three numbers, or the
    inherited member the alias lookup ran into. *)
Inductive TypeValue : Type :=
| TypeNum (t : ContentType)
| TypeProto (key : string).

Global Instance TypeValue_eq_dec : EqDecision TypeValue.
Proof. solve_decision. Defined.

(** The value [normalizeMode] returns, likewise. *)
Inductive ModeValue : Type :=
| ModeStr (m : Mode)
| ModeProto (key : string).

Global Instance ModeValue_eq_dec : EqDecision ModeValue.
Proof. solve_decision. Defined.

(** The property key a value is converted to when it indexes an alias table.
    [NoKey] stands for a key string that is no key of the tables nor of
    [Object.prototype]: the decimal form of a number other than 1, 2, 3, or
    the comma-joined form of an array of two or more elements. *)
Inductive PropertyKey : Type :=
| Key (s : string)
| NoKey.

Fixpoint toPropertyKey (v : JSValue) : PropertyKey :=
  match v with
  | JUndefined => Key "undefined"
  | JNull => Key "null"
  | JBool true => Key "true"
  | JBool false => Key "false"
  | JNum n =>
      if numberIs n 1 then Key "1"
      else if numberIs n 2 then Key "2"
      else if numberIs n 3 then Key "3"
      else NoKey
  | JStr s => Key s
  | JArr [] => Key ""
  | JArr [JUndefined] | JArr [JNull] => Key ""
  | JArr [x] => toPropertyKey x
  | JArr _ => NoKey
  end.

Definition TYPE_ALIASES (v : JSValue) : Lookup ContentType :=
  match toPropertyKey v with
  | NoKey => Missing
  | Key k =>
      if String.eqb k "1" then Own IMAGE
      else if String.eqb k "2" then Own GIF
      else if String.eqb k "3" then Own BOTH
      else if String.eqb k "image" then Own IMAGE
      else if String.eqb k "images" then Own IMAGE
      else if String.eqb k "gif" then Own GIF
      else if String.eqb k "gifs" then Own GIF
      else if String.eqb k "both" then Own BOTH
      else if arrayIncludes OBJECT_PROTOTYPE_KEYS k then Inherited k
      else Missing
  end.

Definition MODE_ALIASES (v : JSValue) : Lookup Mode :=
  match toPropertyKey v with
  | NoKey => Missing
  | Key k =>
      if String.eqb k "1" then Own RANDOM
      else if String.eqb k "2" then Own DISTRIBUTED
      else if String.eqb k "3" then Own EACH
      else if String.eqb k "random" then Own RANDOM
      else if String.eqb k "distributed" then Own DISTRIBUTED
      else if String.eqb k "each" then Own EACH
      else if arrayIncludes OBJECT_PROTOTYPE_KEYS k then Inherited k
      else Missing
  end.

(** [CONFIG]. *)
Definition MAX_RETRY_ATTEMPTS : nat := 50.
Definition BASE_URL : string := "https://nekos.best/api/v2".

(** [METADATA_FIELDS]. *)
Definition METADATA_FIELDS_IMAGE : list string :=
  [ "artist_href"; "artist_name"; "source_url" ].
Definition METADATA_FIELDS_GIF : list string := [ "anime_name" ].

(* ========================================================================= *)
(** * Catalog, module state and exceptions                                   *)
(* ========================================================================= *)

(** One raw entry of [data.json]. [url] is the stored path suffix; a metadata
    property the entry does not have reads as [undefined], here [None]. *)
Record CatalogRecord : Type := mkRecord {
  url : string;
  artist_href : option string;
  artist_name : option string;
  source_url : option string;
  anime_name : option string;
}.

Global Instance CatalogRecord_eq_dec : EqDecision CatalogRecord.
Proof. solve_decision. Defined.

(** The parsed dataset, category name to records. Reading a category the
    object does not have, or has bound to [undefined], gives [None]. *)
Abbreviation Catalog := (gmap string (list CatalogRecord)).

(** [intentConfig]. [metadata]: [None] is [null] (all fields), [Some []] is
    none, [Some fields] the listed ones. [allowedCategories] is a [Set], kept
    in insertion order. *)
Record IntentConfig : Type := mkIntentConfig {
  active : bool;
  metadata : option (list string);
  type : TypeValue;
  allowedCategories : list string;
}.

(** The module-level mutable variables. [rawGifsData] is [None] once it has
    been set to [null]. *)
Record State : Type := mkState {
  intentConfig : IntentConfig;
  intentLocked : bool;
  rawGifsData : option Catalog;
  gifsData : Catalog;
}.

(** The state right after the module is loaded with dataset [data]. *)
Definition initialState (data : Catalog) : State :=
  {| intentConfig :=
       {| active := false;
          metadata := None;
          type := TypeNum BOTH;
          allowedCategories := VALID_ACTIONS |};
     intentLocked := false;
     rawGifsData := Some data;
     gifsData := data |}.

(** The exceptions of the module, one constructor per [throw] site, carrying
    what the message interpolates; [TypeError] is the exception JavaScript
    itself raises for a property read or method call on [undefined], [null]
    or a value without that method, and [RangeError] the one it raises for
    a call that is given more arguments than the engine accepts. *)
Inductive Exception : Type :=
| IntentAlreadyConfigured
    (* "Intent already configured. callNekoIntent() can only be called once
       per session." *)
| InvalidMetadataFields (invalidFields : list string)
    (* "Invalid metadata fields: ... Valid fields: ..." *)
| InvalidMetadataShape
    (* "metadata must be 0/false (none), 1/true (all), or array of field
       names" *)
| InvalidAmount
    (* "Amount must be a finite number greater than or equal to 1" *)
| InvalidActions (invalidActions : list JSValue)
    (* "Invalid actions: ... Valid actions: ..." *)
| ActionNotInIntent (action : string) (actionType : ContentType)
    (intentType : TypeValue) (allowed : list string)
    (* "Action ... (type: ...) was not specified in intent (type: ...).
       Intent only allows: ..." *)
| NoCategoriesMatch (contentType : TypeValue)
    (* "No categories match content type filter (...). Image categories:
       ..." *)
| TypeError
| RangeError.

(** The error taxonomy of the specification (section 7) over the throw
    sites. *)
Inductive ErrorKind : Type :=
| ConfigurationError
| ValidationError
| IntentViolationError
| RuntimeTypeError
| RuntimeRangeError.

Definition errorKind (e : Exception) : ErrorKind :=
  match e with
  | IntentAlreadyConfigured | InvalidMetadataFields _ | InvalidMetadataShape =>
      ConfigurationError
  | InvalidAmount | InvalidActions _ | NoCategoriesMatch _ => ValidationError
  | ActionNotInIntent _ _ _ _ => IntentViolationError
  | TypeError => RuntimeTypeError
  | RangeError => RuntimeRangeError
  end.

(** How a call ends. *)
Inductive Outcome (A : Type) : Type :=
| Return (a : A)
| Throw (e : Exception).
Arguments Return {A} a.
Arguments Throw {A} e.

Definition obind {A B} (m : Outcome A) (k : A -> Outcome B) : Outcome B :=
  match m with
  | Return a => k a
  | Throw e => Throw e
  end.

Notation "'let!' x ':=' m 'in' k" := (obind m (fun x => k))
  (at level 10, x name, m at level 100, k at level 200,
   format "'[v' 'let!'  x  :=  m  'in' '/' k ']'").

(** [xs.map(f)] for a callback that may throw. *)
Fixpoint mapM {A B} (f : A -> Outcome B) (xs : list A) : Outcome (list B) :=
  match xs with
  | [] => Return []
  | x :: xs' =>
      let! y := f x in
      let! ys := mapM f xs' in
      Return (y :: ys)
  end.

(* ========================================================================= *)
(** * Helper functions used by the intent gate                               *)
(* ========================================================================= *)

Definition getContentType (category : string) : ContentType :=
  if arrayIncludes IMAGE_CATEGORIES category then IMAGE else GIF.

Definition normalizeType (type : JSValue) : TypeValue :=
  match type with
  | JUndefined | JNull => TypeNum BOTH
  | _ =>
      match TYPE_ALIASES type with
      | Own t => TypeNum t
      | Inherited k => TypeProto k
      | Missing =>
          match type with
          | JNum n =>
              if numberIs n 1 then TypeNum IMAGE
              else if numberIs n 2 then TypeNum GIF
              else if numberIs n 3 then TypeNum BOTH
              else TypeNum BOTH
          | _ => TypeNum BOTH
          end
      end
  end.

(* ========================================================================= *)
(** * Intent functions                                                       *)
(* ========================================================================= *)

(** The argument of [callNekoIntent]; an absent property is [JUndefined]. *)
Record IntentOptions : Type := mkIntentOptions {
  io_metadata : JSValue;
  io_type : JSValue;
}.

(** [f.trim()] on an element of the [metadata] array: only a string has the
    method. *)
Definition trimField (f : JSValue) : Outcome string :=
  match f with
  | JStr s => Return (trim s)
  | _ => Throw TypeError
  end.

Definition nonEmpty (s : string) : bool := negb (String.eqb s "").

(** Lines 203-267 of [callNekoIntent]: the [metadataFields] the call
    computes from its [metadata] option and the normalised type. The two
    [metadataFields.push(...)] calls are written as appends: the engine's
    argument limit, which only a [metadata] list of that many valid field
    names exceeds, is left out of this function. *)
Definition intentMetadataFields (metadata : JSValue) (normalizedType : TypeValue)
  : Outcome (option (list string)) :=
  let! metadataFields :=
    match metadata with
    | JUndefined | JNull => Return None
    | JArr elems =>
        let! trimmed := mapM trimField elems in
        let requestedFields := List.filter nonEmpty trimmed in
        let allValidFields := (METADATA_FIELDS_IMAGE ++ METADATA_FIELDS_GIF)%list in
        let invalidFields :=
          List.filter (fun f => negb (arrayIncludes allValidFields f))
            requestedFields in
        if (0 <? length invalidFields)%nat
        then Throw (InvalidMetadataFields invalidFields)
        else
          let gifPart :=
            if bool_decide (normalizedType = TypeNum GIF)
               || bool_decide (normalizedType = TypeNum BOTH)
            then List.filter (arrayIncludes METADATA_FIELDS_GIF) requestedFields
            else [] in
          let imagePart :=
            if bool_decide (normalizedType = TypeNum IMAGE)
               || bool_decide (normalizedType = TypeNum BOTH)
            then List.filter (arrayIncludes METADATA_FIELDS_IMAGE) requestedFields
            else [] in
          Return (Some (gifPart ++ imagePart)%list)
    | JNum n =>
        if numberIs n 0 then Return (Some [])
        else if numberIs n 1 then Return None
        else Throw InvalidMetadataShape
    | JBool false => Return (Some [])
    | JBool true => Return None
    | JStr _ => Throw InvalidMetadataShape
    end in
  match metadataFields with
  | None =>
      if bool_decide (normalizedType = TypeNum IMAGE)
      then Return (Some METADATA_FIELDS_IMAGE)
      else if bool_decide (normalizedType = TypeNum GIF)
      then Return (Some METADATA_FIELDS_GIF)
      else Return None
  | Some fields => Return (Some fields)
  end.

(** The [gifsData] rebuilt at lines 279-282: one assignment
    [gifsData[category] = rawGifsData[category]] per allowed category. A
    category the raw data lacks is assigned [undefined] there, which every
    later read treats like an absent one; the map leaves it out. *)
Definition rebuildData (raw : Catalog) (allowed : list string) : Catalog :=
  foldl (fun acc category =>
           match raw !! category with
           | Some items => <[category := items]> acc
           | None => acc
           end) ∅ allowed.

(** Lines 191-201 of [callNekoIntent]: the [Set] of the valid actions whose
    content type the normalised type admits. *)
Definition intentAllowedCategories (normalizedType : TypeValue) : list string :=
  List.filter
    (fun action =>
       bool_decide (normalizedType = TypeNum BOTH)
       || bool_decide (TypeNum (getContentType action) = normalizedType))
    VALID_ACTIONS.

(** [callNekoIntent(options)]: the outcome of the call and the module state
    it leaves. The [type] option defaults to 3 when it is [undefined]. *)
Definition callNekoIntent (options : IntentOptions) (st : State)
  : Outcome unit * State :=
  if intentLocked st then (Throw IntentAlreadyConfigured, st)
  else
    let type :=
      match io_type options with
      | JUndefined => JNum (Finite 3)
      | t => t
      end in
    let normalizedType := normalizeType type in
    let allowedCategories := intentAllowedCategories normalizedType in
    match intentMetadataFields (io_metadata options) normalizedType with
    | Throw e => (Throw e, st)
    | Return metadataFields =>
        let config :=
          {| active := true;
             metadata := metadataFields;
             type := normalizedType;
             allowedCategories := allowedCategories |} in
        match rawGifsData st with
        | Some raw =>
            (Return tt,
             {| intentConfig := config;
                intentLocked := true;
                rawGifsData := None;
                gifsData := rebuildData raw allowedCategories |})
        | None =>
            (* [rawGifsData] is [null]: the first [rawGifsData[category]]
               of the rebuild loop throws, after the lock was taken *)
            match allowedCategories with
            | [] =>
                (Return tt,
                 {| intentConfig := config;
                    intentLocked := true;
                    rawGifsData := None;
                    gifsData := ∅ |})
            | _ :: _ =>
                (Throw TypeError,
                 {| intentConfig := config;
                    intentLocked := true;
                    rawGifsData := None;
                    gifsData := ∅ |})
            end
        end
    end.

(* ========================================================================= *)
(** * Response projection                                                    *)
(* ========================================================================= *)

Definition constructFullUrl (filename : string) : string :=
  BASE_URL ++ filename.

Definition shouldIncludeMetadataField (cfg : IntentConfig)
    (field category : string) : bool :=
  if negb (active cfg) then true
  else
    match metadata cfg with
    | None =>
        match getContentType category with
        | IMAGE => arrayIncludes METADATA_FIELDS_IMAGE field
        | _ => arrayIncludes METADATA_FIELDS_GIF field
        end
    | Some [] => false
    | Some fields => arrayIncludes fields field
    end.

(** The object [createResponseObject] returns. [resp_metadata] lists, in
    insertion order, the metadata properties the object has; a property whose
    value is [undefined] is listed with [None]. *)
Record ResponseObject : Type := mkResponse {
  resp_url : string;
  resp_action : string;
  resp_type : ContentType;
  resp_metadata : list (string * option string);
}.

Global Instance ResponseObject_eq_dec : EqDecision ResponseObject.
Proof. solve_decision. Defined.

(** [if (shouldIncludeMetadataField(field, category)) fields[field] = value]. *)
Definition assignIfIncluded (cfg : IntentConfig) (field category : string)
    (value : option string) (fields : list (string * option string))
  : list (string * option string) :=
  if shouldIncludeMetadataField cfg field category
  then (fields ++ [(field, value)])%list
  else fields.

Definition createResponseObject (cfg : IntentConfig) (item : CatalogRecord)
    (category : string) : ResponseObject :=
  let fields :=
    if arrayIncludes IMAGE_CATEGORIES category
    then
      assignIfIncluded cfg "source_url" category (source_url item)
        (assignIfIncluded cfg "artist_name" category (artist_name item)
           (assignIfIncluded cfg "artist_href" category (artist_href item) []))
    else assignIfIncluded cfg "anime_name" category (anime_name item) [] in
  {| resp_url := constructFullUrl (url item);
     resp_action := category;
     resp_type := getContentType category;
     resp_metadata := fields |}.

(** [createResponseObject(items[i], category)] where the array read may have
    given [undefined], on which [item.url] throws. *)
Definition createResponseObjectAt (cfg : IntentConfig)
    (item : option CatalogRecord) (category : string)
  : Outcome ResponseObject :=
  match item with
  | Some it => Return (createResponseObject cfg it category)
  | None => Throw TypeError
  end.

(* ========================================================================= *)
(** * Request normalisation                                                  *)
(* ========================================================================= *)

Definition validateIntentAction (cfg : IntentConfig) (action : string)
  : Outcome unit :=
  if active cfg && negb (arrayIncludes (allowedCategories cfg) action)
  then Throw (ActionNotInIntent action (getContentType action) (type cfg)
                (allowedCategories cfg))
  else Return tt.

Definition normalizeMode (mode : JSValue) : ModeValue :=
  match mode with
  | JUndefined | JNull => ModeStr RANDOM
  | _ =>
      match MODE_ALIASES mode with
      | Own m => ModeStr m
      | Inherited k => ModeProto k
      | Missing =>
          match mode with
          | JStr s =>
              if String.eqb s "random" then ModeStr RANDOM
              else if String.eqb s "distributed" then ModeStr DISTRIBUTED
              else if String.eqb s "each" then ModeStr EACH
              else ModeStr RANDOM
          | _ => ModeStr RANDOM
          end
      end
  end.

(** [VALID_ACTIONS.includes(a)]: only a string can be in the array. *)
Definition validActionName (a : JSValue) : option string :=
  match a with
  | JStr s => if arrayIncludes VALID_ACTIONS s then Some s else None
  | _ => None
  end.

Definition normalizeActions (cfg : IntentConfig) (actions : JSValue)
  : Outcome (list string) :=
  match actions with
  | JUndefined | JNull =>
      if active cfg then Return (allowedCategories cfg)
      else Return VALID_ACTIONS
  | _ =>
      let actionArray := asArray actions in
      let invalidActions :=
        List.filter (fun a => negb (bool_decide (is_Some (validActionName a))))
          actionArray in
      if (0 <? length invalidActions)%nat
      then Throw (InvalidActions invalidActions)
      else
        let names := omap validActionName actionArray in
        let! _ := mapM (validateIntentAction cfg) names in
        Return names
  end.

Definition normalizeSearch (search : JSValue) : list string :=
  match search with
  | JUndefined | JNull | JStr EmptyString => []
  | _ =>
      List.filter nonEmpty
        (List.map (fun s => match s with
                            | JStr str => trim str
                            | _ => ""
                            end)
           (asArray search))
  end.

Definition matchesContentType (category : string) (contentType : TypeValue)
  : bool :=
  if bool_decide (contentType = TypeNum BOTH) then true
  else bool_decide (TypeNum (getContentType category) = contentType).

Definition matchesSearch (item : CatalogRecord) (category : string)
    (searchTerms : list string) : bool :=
  if (length searchTerms =? 0)%nat then true
  else
    let searchField :=
      if arrayIncludes IMAGE_CATEGORIES category
      then artist_name item else anime_name item in
    match searchField with
    | None | Some EmptyString => false
    | Some field =>
        let fieldLower := toLowerCase field in
        existsb (fun term => includes fieldLower (toLowerCase term)) searchTerms
    end.

Definition validateAndFilterCategories (categories : list string)
    (contentType : TypeValue) : Outcome (list string) :=
  let filtered :=
    List.filter (fun cat => matchesContentType cat contentType) categories in
  if (length filtered =? 0)%nat then Throw (NoCategoriesMatch contentType)
  else Return filtered.

(** A [Map] keyed by category: entries in insertion order, [set] on a key
    already present replaces its value in place. *)
Abbreviation CategoryMap := (list (string * list CatalogRecord)).

Fixpoint mapSet (m : CategoryMap) (k : string) (v : list CatalogRecord)
  : CategoryMap :=
  match m with
  | [] => [(k, v)]
  | (k', v') :: m' =>
      if String.eqb k' k then (k', v) :: m' else (k', v') :: mapSet m' k v
  end.

Fixpoint mapGet (m : CategoryMap) (k : string) : option (list CatalogRecord) :=
  match m with
  | [] => None
  | (k', v') :: m' => if String.eqb k' k then Some v' else mapGet m' k
  end.

Definition mapKeys (m : CategoryMap) : list string := List.map fst m.

(** The body of the [for] loop of [buildSearchFilteredCategories]. *)
Definition addFilteredCategory (data : Catalog) (searchTerms : list string)
    (filteredMap : CategoryMap) (category : string) : CategoryMap :=
  match data !! category with
  | None => filteredMap
  | Some categoryItems =>
      let filtered :=
        List.filter (fun item => matchesSearch item category searchTerms)
          categoryItems in
      if (0 <? length filtered)%nat
      then mapSet filteredMap category filtered
      else filteredMap
  end.

Definition buildSearchFilteredCategories (data : Catalog)
    (categories : list string) (searchTerms : list string) : CategoryMap :=
  foldl (addFilteredCategory data searchTerms) [] categories.

(* ========================================================================= *)
(** * The random source                                                      *)
(* ========================================================================= *)

(** [Math.random] as an explicit source: [tape] holds the draws still to
    come (an exhausted tape keeps answering 0) and [calls] counts the calls
    made so far. *)
Record RandomSource : Type := mkRandom {
  tape : list nat;
  calls : nat;
}.

(** Code that may call [Math.random] and may throw. *)
Definition Rand (A : Type) : Type := RandomSource -> Outcome (A * RandomSource).

Definition rret {A} (a : A) : Rand A := fun r => Return (a, r).

Definition rthrow {A} (e : Exception) : Rand A := fun _ => Throw e.

Definition rbind {A B} (m : Rand A) (k : A -> Rand B) : Rand B :=
  fun r =>
    match m r with
    | Return (a, r') => k a r'
    | Throw e => Throw e
    end.

Definition rlift {A} (o : Outcome A) : Rand A :=
  fun r =>
    match o with
    | Return a => Return (a, r)
    | Throw e => Throw e
    end.

Notation "'let*' x ':=' m 'in' k" := (rbind m (fun x => k))
  (at level 10, x name, m at level 100, k at level 200,
   format "'[v' 'let*'  x  :=  m  'in' '/' k ']'").

(** [Math.floor(Math.random() * n)]: with [Math.random()] in [0, 1) the
    index ranges over [0 .. n-1] (and is 0 when [n] is 0); the tape supplies
    a natural number and the index is its residue. *)
Definition nextDraw (r : RandomSource) : nat :=
  match tape r with
  | [] => 0
  | u :: _ => u
  end.

Definition advance (r : RandomSource) : RandomSource :=
  {| tape := tl (tape r); calls := S (calls r) |}.

Definition indexBelow (n u : nat) : nat :=
  match n with
  | 0 => 0
  | S _ => u mod n
  end.

Definition randomBelow (n : nat) : Rand nat :=
  fun r => Return (indexBelow n (nextDraw r), advance r).

(* ========================================================================= *)
(** * Selection engine                                                       *)
(* ========================================================================= *)

Section Engine.

(** The number of arguments the engine accepts in one call. The language
    fixes no value: it depends on the engine and on the stack left to it
    (a six-digit number under Node's defaults). *)
Variable argumentLimit : nat.

Variable cfg : IntentConfig.

(** The [allowDuplicates] loop of [getRandomItems]: [n] iterations left. *)
Fixpoint drawWithReplacement (items : list CatalogRecord) (category : string)
    (n : nat) (result : list ResponseObject) : Rand (list ResponseObject) :=
  match n with
  | 0 => rret result
  | S n' =>
      let* r := randomBelow (length items) in
      let* obj := rlift (createResponseObjectAt cfg (items !! r) category) in
      drawWithReplacement items category n' (result ++ [obj])%list
  end.

(** The partial Fisher-Yates loop of [getRandomItems]: iteration [i], with
    [n] iterations left. A read of [indices] out of range gives [undefined],
    and so does the read of [items] at it, on which the projection throws. *)
Fixpoint partialShuffle (items : list CatalogRecord) (category : string)
    (available : nat) (n i : nat) (indices : list nat)
    (result : list ResponseObject) : Rand (list ResponseObject) :=
  match n with
  | 0 => rret result
  | S n' =>
      let* r := randomBelow (available - i) in
      let randomIndex := i + r in
      match indices !! randomIndex, indices !! i with
      | Some a, Some b =>
          let indices' := <[randomIndex := b]> (<[i := a]> indices) in
          let* obj :=
            rlift (createResponseObjectAt cfg
                     (j ← indices' !! i; items !! j) category) in
          partialShuffle items category available n' (S i) indices'
            (result ++ [obj])%list
      | _, _ => rthrow TypeError
      end
  end.

Definition getRandomItems (items : list CatalogRecord) (count : Z)
    (category : string) (allowDuplicates : bool) : Rand (list ResponseObject) :=
  let available := length items in
  if (available =? 0)%nat then rret []
  else if negb allowDuplicates && (Z.of_nat available <=? count)%Z
  then rret (List.map (fun item => createResponseObject cfg item category) items)
  else if allowDuplicates
  then drawWithReplacement items category (Z.to_nat count) []
  else
    let indices := seq 0 available in
    let actualCount := Z.min count (Z.of_nat available) in
    partialShuffle items category available (Z.to_nat actualCount) 0 indices [].

(** [getRandomItems(filteredMap.get(cat), ...)]: on [undefined] the read of
    [items.length] throws. *)
Definition getRandomItemsOf (filteredMap : CategoryMap) (cat : string)
    (count : Z) (allowDuplicates : bool) : Rand (list ResponseObject) :=
  match mapGet filteredMap cat with
  | Some items => getRandomItems items count cat allowDuplicates
  | None => rthrow TypeError
  end.

(** The [while] loop of [selectRandomMode]: [attemptsLeft] is
    [MAX_RETRY_ATTEMPTS - attempts]. It leaves the loop with the item found
    and its URL, or with nothing when the attempts ran out. *)
Fixpoint drawUnique (categoryItems : list CatalogRecord)
    (randomCategory : string) (usedUrls : gset string) (attemptsLeft : nat)
  : Rand (option (ResponseObject * string)) :=
  match attemptsLeft with
  | 0 => rret None
  | S k =>
      let* r := randomBelow (length categoryItems) in
      match categoryItems !! r with
      | None => rthrow TypeError
      | Some randomItem =>
          let url := constructFullUrl (url randomItem) in
          if bool_decide (url ∈ usedUrls)
          then drawUnique categoryItems randomCategory usedUrls k
          else rret (Some (createResponseObject cfg randomItem randomCategory,
                           url))
      end
  end.

(** The [for] loop of [selectRandomMode]: [n] iterations left. *)
Fixpoint randomLoop (filteredMap : CategoryMap)
    (availableCategories : list string) (allowDuplicates : bool) (n : nat)
    (result : list ResponseObject) (usedUrls : gset string)
  : Rand (list ResponseObject) :=
  match n with
  | 0 => rret result
  | S n' =>
      let* c := randomBelow (length availableCategories) in
      match availableCategories !! c with
      | None => rthrow TypeError
      | Some randomCategory =>
          match mapGet filteredMap randomCategory with
          | None => rthrow TypeError
          | Some categoryItems =>
              if allowDuplicates
              then
                let* r := randomBelow (length categoryItems) in
                let* obj :=
                  rlift (createResponseObjectAt cfg (categoryItems !! r)
                           randomCategory) in
                randomLoop filteredMap availableCategories allowDuplicates n'
                  (result ++ [obj])%list usedUrls
              else
                let* found :=
                  drawUnique categoryItems randomCategory usedUrls
                    MAX_RETRY_ATTEMPTS in
                match found with
                | Some (obj, url) =>
                    randomLoop filteredMap availableCategories allowDuplicates
                      n' (result ++ [obj])%list ({[url]} ∪ usedUrls)
                | None => rret result
                end
          end
      end
  end.

Variable data : Catalog.

Definition selectRandomMode (amount : Z) (categories : list string)
    (searchTerms : list string) (allowDuplicates : bool)
  : Rand (list ResponseObject) :=
  let filteredMap := buildSearchFilteredCategories data categories searchTerms in
  let availableCategories := mapKeys filteredMap in
  match availableCategories with
  | [] => rret []
  | [category] => getRandomItemsOf filteredMap category amount allowDuplicates
  | _ =>
      randomLoop filteredMap availableCategories allowDuplicates
        (Z.to_nat amount) [] ∅
  end.

(** [result.push(...items)]: the elements of [items] become the arguments
    of one call of [push], which the engine refuses with a [RangeError]
    when there are more of them than it accepts. *)
Definition pushSpread (result items : list ResponseObject)
  : Rand (list ResponseObject) :=
  if (length items <=? argumentLimit)%nat then rret (result ++ items)%list
  else rthrow RangeError.

(** The [forEach] of [selectDistributedMode] from position [index] on. *)
Fixpoint distributeLoop (filteredMap : CategoryMap) (baseAmount remainder : Z)
    (allowDuplicates : bool) (cats : list string) (index : nat)
    (result : list ResponseObject) : Rand (list ResponseObject) :=
  match cats with
  | [] => rret result
  | cat :: cats' =>
      let categoryAmount :=
        if (Z.of_nat index <? remainder)%Z then (baseAmount + 1)%Z
        else baseAmount in
      let* items :=
        getRandomItemsOf filteredMap cat categoryAmount allowDuplicates in
      let* result' := pushSpread result items in
      distributeLoop filteredMap baseAmount remainder allowDuplicates cats'
        (S index) result'
  end.

Definition selectDistributedMode (amount : Z) (categories : list string)
    (searchTerms : list string) (allowDuplicates : bool)
  : Rand (list ResponseObject) :=
  let filteredMap := buildSearchFilteredCategories data categories searchTerms in
  let availableCategories := mapKeys filteredMap in
  match availableCategories with
  | [] => rret []
  | _ =>
      let n := Z.of_nat (length availableCategories) in
      let baseAmount := (amount / n)%Z in
      let remainder := Z.rem amount n in
      distributeLoop filteredMap baseAmount remainder allowDuplicates
        availableCategories 0 []
  end.

(** The [forEach] of [selectEachMode]. *)
Fixpoint eachLoop (filteredMap : CategoryMap) (amount : Z)
    (allowDuplicates : bool) (cats : list string)
    (result : list ResponseObject) : Rand (list ResponseObject) :=
  match cats with
  | [] => rret result
  | cat :: cats' =>
      let* items := getRandomItemsOf filteredMap cat amount allowDuplicates in
      let* result' := pushSpread result items in
      eachLoop filteredMap amount allowDuplicates cats' result'
  end.

Definition selectEachMode (amount : Z) (categories : list string)
    (searchTerms : list string) (allowDuplicates : bool)
  : Rand (list ResponseObject) :=
  let filteredMap := buildSearchFilteredCategories data categories searchTerms in
  let availableCategories := mapKeys filteredMap in
  match availableCategories with
  | [] => rret []
  | _ => eachLoop filteredMap amount allowDuplicates availableCategories []
  end.

End Engine.

(* ========================================================================= *)
(** * Query facade                                                           *)
(* ========================================================================= *)

(** The argument of [callNeko]; an absent property is [JUndefined]. *)
Record Options : Type := mkOptions {
  o_amount : JSValue;
  o_actions : JSValue;
  o_search : JSValue;
  o_type : JSValue;
  o_mode : JSValue;
  o_dupe : JSValue;
}.

(** [callNeko()] and [callNeko({})]. *)
Definition noOptions : Options :=
  {| o_amount := JUndefined; o_actions := JUndefined; o_search := JUndefined;
     o_type := JUndefined; o_mode := JUndefined; o_dupe := JUndefined |}.

(** The object [parseOptions] returns. *)
Record Params : Type := mkParams {
  p_amount : Z;
  p_actions : list string;
  p_search : list string;
  p_type : TypeValue;
  p_mode : ModeValue;
  p_dupe : bool;
}.

(** The destructuring default [amount = 1]. *)
Definition amountOrDefault (options : Options) : JSValue :=
  match o_amount options with
  | JUndefined => JNum (Finite 1)
  | a => a
  end.

(** The amount check of [parseOptions]: the number that passed, or the
    exception. *)
Definition validateAmount (amount : JSValue) : Outcome Q :=
  match amount with
  | JNum n =>
      if negb (isFinite n) || numberLt n 1 then Throw InvalidAmount
      else match n with
           | Finite q => Return q
           | _ => Throw InvalidAmount
           end
  | _ => Throw InvalidAmount
  end.

Definition parseOptions (cfg : IntentConfig) (options : Options)
  : Outcome Params :=
  let amount := amountOrDefault options in
  let dupe :=
    match o_dupe options with
    | JUndefined => JBool false
    | d => d
    end in
  let! q := validateAmount amount in
  let! normalizedActions := normalizeActions cfg (o_actions options) in
  let normalizedSearch := normalizeSearch (o_search options) in
  let normalizedType := normalizeType (o_type options) in
  let normalizedMode := normalizeMode (o_mode options) in
  let! validActions :=
    validateAndFilterCategories normalizedActions normalizedType in
  Return {| p_amount := Qfloor q;
            p_actions := validActions;
            p_search := normalizedSearch;
            p_type := normalizedType;
            p_mode := normalizedMode;
            p_dupe := toBoolean dupe |}.

(** The [switch] of [callNeko]: the sequence the engine produces for the
    normalised request. A mode that matches no [case] leaves [result] at its
    initial [[]]. *)
Definition runMode (argumentLimit : nat) (st : State) (params : Params)
  : Rand (list ResponseObject) :=
  match p_mode params with
  | ModeStr RANDOM =>
      selectRandomMode (intentConfig st) (gifsData st) (p_amount params)
        (p_actions params) (p_search params) (p_dupe params)
  | ModeStr DISTRIBUTED =>
      selectDistributedMode argumentLimit (intentConfig st) (gifsData st)
        (p_amount params) (p_actions params) (p_search params) (p_dupe params)
  | ModeStr EACH =>
      selectEachMode argumentLimit (intentConfig st) (gifsData st)
        (p_amount params) (p_actions params) (p_search params) (p_dupe params)
  | ModeProto _ => rret []
  end.

(** What [callNeko] returns: one object, or an array of them. *)
Inductive Response : Type :=
| Single (item : ResponseObject)
| Many (items : list ResponseObject).

Definition callNeko (argumentLimit : nat) (options : Options) (st : State)
  : Rand Response :=
  let* params := rlift (parseOptions (intentConfig st) options) in
  let* result := runMode argumentLimit st params in
  rret (if (p_amount params =? 1)%Z && (length result =? 1)%nat
        then match result with
             | item :: _ => Single item
             | [] => Many result (* not reached: the length is 1 *)
             end
        else Many result).

(** [callNekoActions()]. *)
Definition callNekoActions (st : State) : list string :=
  if active (intentConfig st) then allowedCategories (intentConfig st)
  else VALID_ACTIONS.

(* ========================================================================= *)
(** * Bulk and introspection operations                                      *)
(* ========================================================================= *)

(** A plain object built by assignments [obj[key] = value]: the properties in
    insertion order, an assignment to a property the object has replacing
    its value in place. The keys here are category names, none of them an
    array index, so the object enumerates them in this order. *)
Fixpoint objectSet {V} (obj : list (string * V)) (key : string) (value : V)
  : list (string * V) :=
  match obj with
  | [] => [(key, value)]
  | (k, v) :: obj' =>
      if String.eqb k key then (k, value) :: obj'
      else (k, v) :: objectSet obj' key value
  end.

(** [obj[key]]. *)
Fixpoint objectGet {V} (obj : list (string * V)) (key : string) : option V :=
  match obj with
  | [] => None
  | (k, v) :: obj' => if String.eqb k key then Some v else objectGet obj' key
  end.

(** The categories [callNekoLoad] and [callNekoCount] walk through. *)
Definition visibleCategories (st : State) : list string :=
  if active (intentConfig st) then allowedCategories (intentConfig st)
  else VALID_ACTIONS.

(** The body of the [for] loop of [callNekoLoad]. An array, empty or not, is
    truthy. *)
Definition loadCategory (st : State)
    (result : list (string * list ResponseObject)) (category : string)
  : list (string * list ResponseObject) :=
  match gifsData st !! category with
  | Some items =>
      objectSet result category
        (List.map (fun item => createResponseObject (intentConfig st) item category)
           items)
  | None => result
  end.

(** [callNekoLoad()]. *)
Definition callNekoLoad (st : State) : list (string * list ResponseObject) :=
  foldl (loadCategory st) [] (visibleCategories st).

(** What [callNekoCount] returns. *)
Record Stats : Type := mkStats {
  total : nat;
  categories : list (string * nat);
}.

(** The body of the [forEach] of [callNekoCount]. *)
Definition countCategory (st : State) (stats : Stats) (action : string) : Stats :=
  match gifsData st !! action with
  | Some items =>
      let count := length items in
      {| total := total stats + count;
         categories := objectSet (categories stats) action count |}
  | None => stats
  end.

(** One step of a stable sort with the comparator [([, a], [, b]) => b - a]:
    the entry goes in front of the first one whose count is not greater. *)
Fixpoint insertByCount (entry : string * nat) (sorted : list (string * nat))
  : list (string * nat) :=
  match sorted with
  | [] => [entry]
  | e :: sorted' =>
      if (snd entry <? snd e)%nat then e :: insertByCount entry sorted'
      else entry :: e :: sorted'
  end.

(** [entries.sort(([, a], [, b]) => b - a)]: the sort is stable, so its
    result is the one of this insertion sort. *)
Fixpoint sortByCountDescending (entries : list (string * nat))
  : list (string * nat) :=
  match entries with
  | [] => []
  | e :: entries' => insertByCount e (sortByCountDescending entries')
  end.

(** [callNekoCount()]. *)
Definition callNekoCount (st : State) : Stats :=
  let stats :=
    foldl (countCategory st) {| total := 0; categories := [] |}
      (visibleCategories st) in
  {| total := total stats;
     categories :=
       foldl (fun obj entry => objectSet obj (fst entry) (snd entry)) []
         (sortByCountDescending (categories stats)) |}.

(* ========================================================================= *)
(** * Definitions used to state the properties                               *)
(* ========================================================================= *)

(** A sequence of [callNekoIntent] calls, made one after the other on the
    module state: the outcome of each and the state left at the end. *)
Fixpoint runIntentCalls (calls : list IntentOptions) (st : State)
  : list (Outcome unit) * State :=
  match calls with
  | [] => ([], st)
  | options :: rest =>
      let (r, st') := callNekoIntent options st in
      let (rs, st'') := runIntentCalls rest st' in
      (r :: rs, st'')
  end.

(** The [type] option of [callNekoIntent] after its default. *)
Definition intentType (options : IntentOptions) : TypeValue :=
  normalizeType match io_type options with
                | JUndefined => JNum (Finite 3)
                | t => t
                end.

(** A small dataset for concrete runs: two animated records under [hug] (one
    without its [anime_name]) and two image records under [waifu]. *)
Definition sampleCatalog : Catalog :=
  <[ "hug" := [ mkRecord "/hug/001.gif" None None None (Some "Naruto");
                mkRecord "/hug/002.gif" None None None None ] ]>
  (<[ "waifu" := [ mkRecord "/waifu/001.png" (Some "https://x.example/a")
                     (Some "Alice") (Some "https://src.example/1") None;
                   mkRecord "/waifu/002.png" None (Some "Bob") None None ] ]>
   ∅).

(** [callNekoIntent({ metadata: 0, type: 1 })]. *)
Definition imagesOnlyNoMetadata : IntentOptions :=
  {| io_metadata := JNum (Finite 0); io_type := JNum (Finite 1) |}.

(** [callNekoIntent({ metadata: ["anime_name"], type: 2 })]. *)
Definition gifsWithAnimeName : IntentOptions :=
  {| io_metadata := JArr [JStr "anime_name"]; io_type := JNum (Finite 2) |}.

(** [callNekoIntent()]. *)
Definition noIntentOptions : IntentOptions :=
  {| io_metadata := JUndefined; io_type := JUndefined |}.

Definition lockedSample : State :=
  snd (callNekoIntent imagesOnlyNoMetadata (initialState sampleCatalog)).

(** [metadata === 0 || metadata === false]. *)
Definition isZeroOrFalse (v : JSValue) : bool :=
  match v with
  | JNum n => numberIs n 0
  | JBool b => negb b
  | _ => false
  end.

(** [metadata === 1 || metadata === true]. *)
Definition isOneOrTrue (v : JSValue) : bool :=
  match v with
  | JNum n => numberIs n 1
  | JBool b => b
  | _ => false
  end.

(** A value that is neither [undefined], [null] nor an array. *)
Definition isScalar (v : JSValue) : bool :=
  match v with
  | JBool _ | JNum _ | JStr _ => true
  | _ => false
  end.

(** The policy "all", as the gate stores it for a normalised type: the
    field set of the kind when the type is IMAGE or GIF, [null] otherwise. *)
Definition allFieldsFor (normalizedType : TypeValue) : option (list string) :=
  match normalizedType with
  | TypeNum IMAGE => Some METADATA_FIELDS_IMAGE
  | TypeNum GIF => Some METADATA_FIELDS_GIF
  | _ => None
  end.

(** The metadata fields valid for a kind. *)
Definition kindFields (kind : ContentType) : list string :=
  match kind with
  | IMAGE => METADATA_FIELDS_IMAGE
  | _ => METADATA_FIELDS_GIF
  end.

(** The specification's [projectedFields(kind)] (section 4.1), written from
    its words over the gate's configuration: an unconfigured gate and the
    policy All emit every field of the kind, None emits nothing, and
    [Fields(s)] emits [s] intersected with the kind's field set. *)
Definition spec_projectedFields (cfg : IntentConfig) (kind : ContentType)
  : list string :=
  if active cfg
  then match metadata cfg with
       | None => kindFields kind
       | Some s => List.filter (fun f => bool_decide (f ∈ s)) (kindFields kind)
       end
  else kindFields kind.

(** [item[field]] for a metadata field name. *)
Definition recordField (item : CatalogRecord) (field : string) : option string :=
  if String.eqb field "artist_href" then artist_href item
  else if String.eqb field "artist_name" then artist_name item
  else if String.eqb field "source_url" then source_url item
  else if String.eqb field "anime_name" then anime_name item
  else None.

(** The names of the metadata properties a response object has. *)
Definition metadataKeys (r : ResponseObject) : list string :=
  List.map fst (resp_metadata r).

(** A string made of white space only (the empty string included). *)
Fixpoint isBlank (s : string) : bool :=
  match s with
  | EmptyString => true
  | String c s' => isWhiteSpace c && isBlank s'
  end.



(** Truncation of a rational toward zero. *)
Definition truncate (q : Q) : Z := Z.quot (Qnum q) (Z.pos (Qden q)).

(** An amount [parseOptions] accepts: a finite number that is at least 1. *)
Definition acceptableAmount (v : JSValue) : Prop :=
  exists q, v = JNum (Finite q) /\ (1 <= q)%Q.

(** The value [callNeko] returns for the normalised request and the sequence
    the engine produced. *)
Definition wrapResult (params : Params) (result : list ResponseObject)
  : Response :=
  if (p_amount params =? 1)%Z && (length result =? 1)%nat
  then match result with
       | item :: _ => Single item
       | [] => Many result
       end
  else Many result.

(** An argument limit of the order Node shows with its default stack. *)
Definition sampleArgumentLimit : nat := Z.to_nat 125000.

(** [callNeko({ amount: 1, actions: "hug" })]. *)
Definition oneHug : Options :=
  {| o_amount := JNum (Finite 1); o_actions := JStr "hug";
     o_search := JUndefined; o_type := JUndefined; o_mode := JUndefined;
     o_dupe := JUndefined |}.

(** [callNeko({ amount: 2.5, actions: "hug" })]. *)
Definition twoAndAHalfHugs : Options :=
  {| o_amount := JNum (Finite (5 # 2)); o_actions := JStr "hug";
     o_search := JUndefined; o_type := JUndefined; o_mode := JUndefined;
     o_dupe := JUndefined |}.

(** The items of a response, unwrapped or not. *)
Definition itemsOf (resp : Response) : list ResponseObject :=
  match resp with
  | Single item => [item]
  | Many items => items
  end.

(** How many objects a request that allows duplicates gets back for the
    amount [amount] when [n] categories survive: the amount in Random and
    Distributed mode, the amount for each surviving category in Each mode,
    nothing when no category survives or the mode matches no [case]. *)
Definition expectedWithDuplicates (mode : ModeValue) (amount : Z) (n : nat)
  : nat :=
  match mode with
  | ModeStr RANDOM | ModeStr DISTRIBUTED =>
      if (n =? 0)%nat then 0 else Z.to_nat amount
  | ModeStr EACH => Z.to_nat amount * n
  | ModeProto _ => 0
  end.

(** [callNeko({ amount: 2.5, actions: "hug", dupe: true })]. *)
Definition twoAndAHalfHugsWithDuplicates : Options :=
  {| o_amount := JNum (Finite (5 # 2)); o_actions := JStr "hug";
     o_search := JUndefined; o_type := JUndefined; o_mode := JUndefined;
     o_dupe := JBool true |}.

(** A random source whose draws are all 0. *)
Definition zeroSource : RandomSource := {| tape := []; calls := 0 |}.

(** An object projected from a record of [pool] under [category]. *)
Definition fromPool (cfg : IntentConfig) (pool : list CatalogRecord)
    (category : string) (obj : ResponseObject) : Prop :=
  exists item, item ∈ pool /\ obj = createResponseObject cfg item category.

(** How many items the sampling primitive yields from a non-empty pool for
    a count: the count itself when duplicates are allowed, else the count
    capped by the pool size. *)
Definition contribution (pool : list CatalogRecord) (count : Z)
    (allowDuplicates : bool) : nat :=
  if allowDuplicates then Z.to_nat count
  else Nat.min (Z.to_nat count) (length pool).

(** The pool of a category for one call (specification, section 4.3, step
    1): its records that match the search terms, when there is one. A
    category with no such record does not survive. *)
Definition filteredPool (data : Catalog) (searchTerms : list string)
    (category : string) : option (list CatalogRecord) :=
  match data !! category with
  | None => None
  | Some items =>
      match List.filter (fun item => matchesSearch item category searchTerms)
              items with
      | [] => None
      | pool => Some pool
      end
  end.

(** The entries of [l] that are not in [seen], each at its first occurrence
    only: the order in which a [Map] holds keys inserted in the order of
    [l]. *)
Fixpoint firstOccurrences (seen l : list string) : list string :=
  match l with
  | [] => []
  | x :: l' =>
      if bool_decide (x ∈ seen) then firstOccurrences seen l'
      else x :: firstOccurrences (x :: seen) l'
  end.

(** The surviving categories of a request, in insertion order. *)
Definition survivingCategories (data : Catalog) (searchTerms : list string)
    (categories : list string) : list string :=
  firstOccurrences []
    (List.filter (fun c => bool_decide (is_Some (filteredPool data searchTerms c)))
       categories).

(** A category map whose entries are the filtered pools of distinct
    categories. *)
Definition poolsOf (data : Catalog) (searchTerms : list string)
    (m : CategoryMap) : Prop :=
  NoDup (mapKeys m)
  /\ Forall (fun entry => filteredPool data searchTerms entry.1 = Some entry.2) m.

(** The sub-amount of the category at position [index] when the base share
    is [base] and the first [remainder] categories receive one more. *)
Definition shareAt (base remainder : Z) (index : nat) : Z :=
  if (Z.of_nat index <? remainder)%Z then (base + 1)%Z else base.

(** The specification's Distributed shares (section 4.3): with [n]
    surviving categories, [base = floor(amount / n)] and
    [remainder = amount mod n]. *)
Definition categoryShare (amount : Z) (n : nat) (index : nat) : Z :=
  shareAt (amount / Z.of_nat n)%Z (amount mod Z.of_nat n)%Z index.

(** The sum of the shares of [len] consecutive positions from [index]. *)
Fixpoint sharesSum (base remainder : Z) (index len : nat) : Z :=
  match len with
  | 0 => 0%Z
  | S len' =>
      (shareAt base remainder index + sharesSum base remainder (S index) len')%Z
  end.

(** [callNekoIntent()] done on the sample dataset: both kinds, all fields. *)
Definition sampleConfig : IntentConfig :=
  intentConfig (initialState sampleCatalog).

(** Attempt [j] of a draw that starts with the random source [r1] picks from
    [pool] a record whose URL is already among [urls]. *)
Definition attemptHits (pool : list CatalogRecord) (urls : list string)
    (r1 : RandomSource) (j : nat) : Prop :=
  exists item,
    pool !! indexBelow (length pool) (nextDraw (Nat.iter j advance r1))
    = Some item
    /\ constructFullUrl (url item) ∈ urls.

(** The run of Random mode that starts with the random source [r] and ends
    with [r'] ended in a draw that spent all its attempts: after [k] calls
    of [Math.random] the run picked a category of the map, each of the
    [MAX_RETRY_ATTEMPTS] calls that followed picked from that category's
    pool a record whose URL is among [urls], and no call was made after
    them. *)
Definition lastDrawExhausted (filteredMap : CategoryMap) (urls : list string)
    (r r' : RandomSource) : Prop :=
  exists k category pool,
    mapKeys filteredMap
      !! indexBelow (length (mapKeys filteredMap))
           (nextDraw (Nat.iter k advance r))
    = Some category
    /\ mapGet filteredMap category = Some pool
    /\ (forall j, j < MAX_RETRY_ATTEMPTS ->
          attemptHits pool urls (Nat.iter (S k) advance r) j)
    /\ r' = Nat.iter (S k + MAX_RETRY_ATTEMPTS) advance r.

(** An object projected from a record of some pool of the map. *)
Definition fromMap (cfg : IntentConfig) (filteredMap : CategoryMap)
    (obj : ResponseObject) : Prop :=
  exists category pool,
    (category, pool) ∈ filteredMap /\ fromPool cfg pool category obj.

(** What holds of the module state however it was reached: the active flag
    follows the lock, the allowed categories are distinct valid actions, an
    unlocked module still holds the raw dataset it serves and allows every
    action, and a locked one has dropped it and holds no category outside
    the allowed ones. *)
Definition consistent (st : State) : Prop :=
  active (intentConfig st) = intentLocked st
  /\ NoDup (allowedCategories (intentConfig st))
  /\ (forall c, c ∈ allowedCategories (intentConfig st) -> c ∈ VALID_ACTIONS)
  /\ (if intentLocked st
      then rawGifsData st = None
           /\ forall c, c ∉ allowedCategories (intentConfig st) ->
                        gifsData st !! c = None
      else rawGifsData st = Some (gifsData st)
           /\ allowedCategories (intentConfig st) = VALID_ACTIONS).

(** [callNekoIntent({ type: "images" })]. *)
Definition imagesOnly : IntentOptions :=
  {| io_metadata := JUndefined; io_type := JStr "images" |}.

(** [callNekoIntent({ metadata: [7] })]. *)
Definition fieldListWithNumber : IntentOptions :=
  {| io_metadata := JArr [JStr "anime_name"; JNum (Finite 7)];
     io_type := JUndefined |}.


(** A value that is no string. *)
Definition notAString (v : JSValue) : Prop :=
  match v with
  | JStr _ => False
  | _ => True
  end.

(** The action names a request resolves to before the type filter: the
    visible categories when [actions] is absent, else the entries given. *)
Definition requestedActions (cfg : IntentConfig) (actions : JSValue)
  : list string :=
  match actions with
  | JUndefined | JNull =>
      if active cfg then allowedCategories cfg else VALID_ACTIONS
  | _ => omap validActionName (asArray actions)
  end.

(** [callNeko({ amount: 2, actions: ["hug", "Hug", 3, "waifu"] })]. *)
Definition withUnknownActions : Options :=
  {| o_amount := JNum (Finite 2);
     o_actions := JArr [JStr "hug"; JStr "Hug"; JNum (Finite 3); JStr "waifu"];
     o_search := JUndefined; o_type := JUndefined; o_mode := JUndefined;
     o_dupe := JUndefined |}.

(** [callNeko({ actions: "hug", type: "images" })]. *)
Definition hugAsImage : Options :=
  {| o_amount := JUndefined; o_actions := JStr "hug";
     o_search := JUndefined; o_type := JStr "images"; o_mode := JUndefined;
     o_dupe := JUndefined |}.

(** The entries of an [actions] array that are no valid action. *)
Definition invalidActionsOf (arr : list JSValue) : list JSValue :=
  List.filter (fun a => negb (bool_decide (is_Some (validActionName a)))) arr.

(** An [actions] option that was given. *)
Definition given (v : JSValue) : Prop := v <> JUndefined /\ v <> JNull.

(** The field of a record that a search looks at: the artist name under an
    image category, the anime name under any other. *)
Definition searchFieldOf (item : CatalogRecord) (category : string)
  : option string :=
  if arrayIncludes IMAGE_CATEGORIES category
  then artist_name item else anime_name item.

(** Two strings that differ at most in the case of their letters. *)
Definition sameUpToCase (s t : string) : Prop := toLowerCase s = toLowerCase t.

(** Two optional fields, both absent or equal up to case. *)
Definition sameFieldUpToCase (f g : option string) : Prop :=
  match f, g with
  | Some s, Some t => sameUpToCase s t
  | None, None => True
  | _, _ => False
  end.

(** [out] is the projection, in order, of the pool records at [positions]. *)
Definition projectedAt (cfg : IntentConfig) (items : list CatalogRecord)
    (category : string) (positions : list nat) (out : list ResponseObject)
  : Prop :=
  Forall2 (fun j obj =>
             exists item,
               items !! j = Some item
               /\ obj = createResponseObject cfg item category)
    positions out.

(** [callNeko({ search: "no such name" })]. *)
Definition searchWithoutMatch : Options :=
  {| o_amount := JUndefined; o_actions := JUndefined;
     o_search := JStr "no such name"; o_type := JUndefined;
     o_mode := JUndefined; o_dupe := JUndefined |}.

(** An exception [parseOptions] raises on a bad request. *)
Definition requestError (e : Exception) : Prop :=
  match e with
  | InvalidAmount | InvalidActions _ | ActionNotInIntent _ _ _ _
  | NoCategoriesMatch _ => True
  | _ => False
  end.

(** A response object was projected from a record of the served data that
    the request asks for: [category] is a valid and visible action, one of
    the [actions] given when the option is given, of the requested type;
    [record] is one of its records and matches the search. *)
Definition answersRequest (st : State) (options : Options)
    (obj : ResponseObject) : Prop :=
  exists category items record,
    category ∈ VALID_ACTIONS
    /\ category ∈ callNekoActions st
    /\ (given (o_actions options) ->
        JStr category ∈ asArray (o_actions options))
    /\ matchesContentType category (normalizeType (o_type options)) = true
    /\ gifsData st !! category = Some items
    /\ record ∈ items
    /\ matchesSearch record category (normalizeSearch (o_search options)) = true
    /\ obj = createResponseObject (intentConfig st) record category.

(** [callNeko({ amount: 4, search: "ALICE" })]. *)
Definition fourOfAlice : Options :=
  {| o_amount := JNum (Finite 4); o_actions := JUndefined;
     o_search := JStr "ALICE"; o_type := JUndefined; o_mode := JUndefined;
     o_dupe := JUndefined |}.

(** The visible categories the served data has, each with its record count,
    in the order [callNekoCount] meets them. *)
Definition visibleCounts (st : State) : list (string * nat) :=
  omap (fun c => (fun items => (c, length items)) <$> gifsData st !! c)
    (visibleCategories st).

(** A list of counted categories in which no entry is followed by one with
    a greater count. *)
Fixpoint descending (entries : list (string * nat)) : Prop :=
  match entries with
  | [] => True
  | e :: entries' =>
      Forall (fun e' => snd e' <= snd e) entries' /\ descending entries'
  end.

(** The entries whose count is [k], in the order of the list. *)
Definition withCount (k : nat) (entries : list (string * nat))
  : list (string * nat) :=
  List.filter (fun e => (snd e =? k)%nat) entries.

(** The visible categories the served data has, each with its projected
    records. *)
Definition visibleLoad (st : State) : list (string * list ResponseObject) :=
  omap (fun c =>
          (fun items =>
             (c, List.map (fun item =>
                             createResponseObject (intentConfig st) item c)
                   items))
          <$> gifsData st !! c)
    (visibleCategories st).

(** [callNeko({ amount: 2, actions: "hug", mode: "constructor" })]. *)
Definition modeNamedConstructor : Options :=
  {| o_amount := JNum (Finite 2); o_actions := JStr "hug";
     o_search := JUndefined; o_type := JUndefined;
     o_mode := JStr "constructor"; o_dupe := JUndefined |}.

(* ========================================================================= *)
(** * Properties of the intent gate                                          *)
(* ========================================================================= *)

Lemma elem_of_List_filter {A} (P : A -> bool) (l : list A) (x : A) :
  x ∈ List.filter P l <-> x ∈ l /\ P x = true.
Proof.
  split.
  - intros H. apply list_elem_of_In, List.filter_In in H as [H1 H2].
    split; [apply list_elem_of_In; exact H1|exact H2].
  - intros [H1 H2]. apply list_elem_of_In, List.filter_In.
    split; [apply list_elem_of_In; exact H1|exact H2].
Qed.

Lemma callNekoIntent_locked options st :
  intentLocked st = true ->
  callNekoIntent options st = (Throw IntentAlreadyConfigured, st).
Proof. intros H. unfold callNekoIntent. rewrite H. reflexivity. Qed.

Lemma callNekoIntent_transition options st :
  snd (callNekoIntent options st) = st
  \/ (intentLocked st = false
      /\ intentLocked (snd (callNekoIntent options st)) = true).
Proof.
  unfold callNekoIntent.
  destruct (intentLocked st) eqn:Hl; [left; reflexivity|].
  destruct (intentMetadataFields _ _); [|left; reflexivity].
  right. split; [reflexivity|].
  destruct (rawGifsData st); [reflexivity|].
  destruct (intentAllowedCategories _); reflexivity.
Qed.

Lemma callNekoIntent_Return options st st' :
  callNekoIntent options st = (Return tt, st') ->
  intentLocked st = false /\ intentLocked st' = true
  /\ active (intentConfig st') = true.
Proof.
  unfold callNekoIntent.
  destruct (intentLocked st) eqn:Hl; [intros [=]|].
  generalize (intentAllowedCategories
                (normalizeType match io_type options with
                               | JUndefined => JNum (Finite 3)
                               | t => t
                               end)).
  intros allowed.
  destruct (intentMetadataFields _ _); [|intros [=]].
  destruct (rawGifsData st).
  - intros [= <-]. repeat split.
  - destruct allowed; intros [= <-]; repeat split.
Qed.

Lemma runIntentCalls_locked calls st :
  intentLocked st = true ->
  runIntentCalls calls st
  = (List.map (fun _ => Throw IntentAlreadyConfigured) calls, st).
Proof.
  intros H. induction calls as [|o rest IH]; [reflexivity|].
  simpl. rewrite (callNekoIntent_locked o st H), IH. reflexivity.
Qed.

(** What an unlocked gate holding the dataset does on a call: it throws what
    the metadata normalisation throws and stays as it is, or it locks. *)
Lemma callNekoIntent_unlocked options st raw :
  intentLocked st = false ->
  rawGifsData st = Some raw ->
  callNekoIntent options st
  = match intentMetadataFields (io_metadata options) (intentType options) with
    | Throw e => (Throw e, st)
    | Return fields =>
        let allowed := intentAllowedCategories (intentType options) in
        (Return tt,
         {| intentConfig :=
              {| active := true; metadata := fields;
                 type := intentType options; allowedCategories := allowed |};
            intentLocked := true;
            rawGifsData := None;
            gifsData := rebuildData raw allowed |})
    end.
Proof.
  intros Hl Hr. unfold callNekoIntent, intentType. rewrite Hl, Hr.
  destruct (intentMetadataFields _ _); reflexivity.
Qed.

(** C1. The gate locks exactly once. Whenever a [callNekoIntent] call has
    returned, the gate was unconfigured before it and is locked after it, and
    every call of any further sequence of [callNekoIntent] calls throws the
    already-configured exception, a ConfigurationError, and leaves the whole
    module state (the intent configuration with its active flag, metadata
    policy, type and allowed categories, and the pruned catalog) exactly as
    it was. Moreover a call made in any state either leaves the state
    unchanged or takes an unlocked gate to a locked one: no other transition
    exists. *)
Theorem intent_gate_locks_exactly_once
    (st : State) (first : IntentOptions) (st1 : State)
    (later : list IntentOptions) :
  callNekoIntent first st = (Return tt, st1) ->
  intentLocked st = false
  /\ intentLocked st1 = true
  /\ active (intentConfig st1) = true
  /\ Forall (fun r => r = Throw IntentAlreadyConfigured
                      /\ forall e, r = Throw e -> errorKind e = ConfigurationError)
       (fst (runIntentCalls later st1))
  /\ length (fst (runIntentCalls later st1)) = length later
  /\ snd (runIntentCalls later st1) = st1
  /\ (forall options s,
        snd (callNekoIntent options s) = s
        \/ (intentLocked s = false
            /\ intentLocked (snd (callNekoIntent options s)) = true)).
Proof.
  intros H. destruct (callNekoIntent_Return _ _ _ H) as (H0 & H1 & Ha).
  rewrite (runIntentCalls_locked later st1 H1). simpl.
  split; [exact H0|]. split; [exact H1|]. split; [exact Ha|].
  split; [|split; [apply length_map|split; [reflexivity|]]].
  - apply List.Forall_forall. intros r Hr.
    apply List.in_map_iff in Hr as (o & <- & _).
    split; [reflexivity|]. intros e [= <-]. reflexivity.
  - intros options s. apply callNekoIntent_transition.
Qed.

Lemma intent_gate_locks_exactly_once_witness :
  callNekoIntent imagesOnlyNoMetadata (initialState sampleCatalog)
  = (Return tt, lockedSample)
  /\ fst (runIntentCalls [gifsWithAnimeName; noIntentOptions] lockedSample)
     = [Throw IntentAlreadyConfigured; Throw IntentAlreadyConfigured]
  /\ snd (runIntentCalls [gifsWithAnimeName; noIntentOptions] lockedSample)
     = lockedSample.
Proof.
  assert (H : callNekoIntent imagesOnlyNoMetadata (initialState sampleCatalog)
              = (Return tt, lockedSample)) by (vm_compute; reflexivity).
  split; [exact H|].
  destruct (intent_gate_locks_exactly_once _ _ _
              [gifsWithAnimeName; noIntentOptions] H)
    as (_ & _ & _ & _ & _ & Hs & _).
  split; [vm_compute; reflexivity | exact Hs].
Defined.

(** ** The [metadata] option *)

Lemma numberIs_one_not_zero n : numberIs n 1 = true -> numberIs n 0 = false.
Proof.
  destruct n as [| |q]; simpl; try discriminate.
  intros H1. apply Qeq_bool_iff in H1.
  destruct (Qeq_bool q (inject_Z 0)) eqn:H0; [|reflexivity].
  apply Qeq_bool_iff in H0. rewrite H1 in H0. discriminate H0.
Qed.

Lemma narrow_all normalizedType :
  match @None (list string) with
  | None =>
      if bool_decide (normalizedType = TypeNum IMAGE)
      then Return (Some METADATA_FIELDS_IMAGE)
      else if bool_decide (normalizedType = TypeNum GIF)
      then Return (Some METADATA_FIELDS_GIF)
      else Return None
  | Some fields => Return (Some fields)
  end = Return (allFieldsFor normalizedType).
Proof.
  destruct normalizedType as [[| |]|k]; reflexivity.
Qed.

Lemma intentMetadataFields_scalar metadata normalizedType :
  isScalar metadata = true ->
  intentMetadataFields metadata normalizedType
  = if isZeroOrFalse metadata then Return (Some [])
    else if isOneOrTrue metadata then Return (allFieldsFor normalizedType)
    else Throw InvalidMetadataShape.
Proof.
  destruct metadata as [| |b|n|s|l]; try discriminate; intros _.
  - destruct b; simpl; [apply narrow_all|reflexivity].
  - unfold intentMetadataFields, isZeroOrFalse, isOneOrTrue.
    destruct (numberIs n 0); [reflexivity|].
    destruct (numberIs n 1); [apply narrow_all|reflexivity].
  - reflexivity.
Qed.

Lemma intentAllowedCategories_kind normalizedType category :
  category ∈ intentAllowedCategories normalizedType ->
  normalizedType = TypeNum BOTH
  \/ normalizedType = TypeNum (getContentType category).
Proof.
  unfold intentAllowedCategories. intros H.
  apply elem_of_List_filter in H as [_ H].
  apply orb_true_iff in H as [H|H]; apply bool_decide_eq_true in H; auto.
Qed.

(** Under the policy "all" stored for a normalised type, a category the gate
    allows projects the whole field set of its kind. *)
Lemma allowed_projects_whole_kind normalizedType category :
  category ∈ intentAllowedCategories normalizedType ->
  spec_projectedFields
    {| active := true; metadata := allFieldsFor normalizedType;
       type := normalizedType;
       allowedCategories := intentAllowedCategories normalizedType |}
    (getContentType category)
  = kindFields (getContentType category).
Proof.
  intros H. apply intentAllowedCategories_kind in H as [->| ->];
    [reflexivity|].
  destruct (getContentType category); reflexivity.
Qed.

(** C6, amended. For a [metadata] argument [value] that is neither absent, [null]
    nor a list, on an unconfigured gate: exactly the values [0] and [false]
    resolve the policy to none (the empty field list); exactly the values
    [1] and [true] resolve it to all, stored as the kind's field set when
    the normalised type is IMAGE or GIF and as [null] otherwise; both lock
    the gate without an error. Every other such value, falsy (the empty
    string, NaN) or truthy (2, a non-empty string), makes the call throw the
    malformed-metadata exception, a ConfigurationError, and leaves the
    module state as it was. *)
Theorem intent_metadata_scalar_policy
    (value type : JSValue) (st : State) (raw : Catalog) :
  intentLocked st = false ->
  rawGifsData st = Some raw ->
  isScalar value = true ->
  (isZeroOrFalse value = true ->
   exists st',
     callNekoIntent {| io_metadata := value; io_type := type |} st
     = (Return tt, st')
     /\ metadata (intentConfig st') = Some []
     /\ forall kind, spec_projectedFields (intentConfig st') kind = [])
  /\ (isOneOrTrue value = true ->
      exists st',
        callNekoIntent {| io_metadata := value; io_type := type |} st
        = (Return tt, st')
        /\ metadata (intentConfig st')
           = allFieldsFor
               (intentType {| io_metadata := value; io_type := type |})
        /\ forall category,
             category ∈ allowedCategories (intentConfig st') ->
             spec_projectedFields (intentConfig st') (getContentType category)
             = kindFields (getContentType category))
  /\ (isZeroOrFalse value = false ->
      isOneOrTrue value = false ->
      callNekoIntent {| io_metadata := value; io_type := type |} st
      = (Throw InvalidMetadataShape, st)
      /\ errorKind InvalidMetadataShape = ConfigurationError).
Proof.
  intros Hl Hr Hs.
  rewrite (callNekoIntent_unlocked _ st raw Hl Hr).
  cbn [io_metadata].
  rewrite (intentMetadataFields_scalar _ _ Hs).
  split; [|split].
  - intros ->. eexists. split; [reflexivity|]. split; [reflexivity|].
    intros [| |]; reflexivity.
  - intros H1.
    assert (isZeroOrFalse value = false) as ->.
    { destruct value as [| |b|n|s|l]; try discriminate.
      - now destruct b.
      - now apply numberIs_one_not_zero. }
    rewrite H1. eexists. split; [reflexivity|]. split; [reflexivity|].
    cbn [intentConfig allowedCategories]. intros category Hc.
    apply allowed_projects_whole_kind. exact Hc.
  - intros -> ->. split; reflexivity.
Qed.

Lemma intent_metadata_scalar_policy_witness :
  (intentLocked (initialState sampleCatalog) = false
   /\ rawGifsData (initialState sampleCatalog) = Some sampleCatalog
   /\ isScalar (JNum (Finite 0)) = true)
  /\ exists st',
       callNekoIntent imagesOnlyNoMetadata (initialState sampleCatalog)
       = (Return tt, st')
       /\ metadata (intentConfig st') = Some []
       /\ forall kind, spec_projectedFields (intentConfig st') kind = [].
Proof.
  split; [repeat split|].
  apply (intent_metadata_scalar_policy (JNum (Finite 0)) (JNum (Finite 1))
           (initialState sampleCatalog) sampleCatalog);
    reflexivity.
Defined.

(** C6 as stated fails: the empty string is falsy and the number 2 is truthy
    and no list, yet [callNekoIntent] throws on both and configures
    nothing. *)
Lemma intent_metadata_falsy_truthy_counterexample :
  toBoolean (JStr "") = false
  /\ toBoolean (JNum (Finite 2)) = true
  /\ callNekoIntent {| io_metadata := JStr ""; io_type := JUndefined |}
       (initialState sampleCatalog)
     = (Throw InvalidMetadataShape, initialState sampleCatalog)
  /\ callNekoIntent {| io_metadata := JNum (Finite 2); io_type := JUndefined |}
       (initialState sampleCatalog)
     = (Throw InvalidMetadataShape, initialState sampleCatalog).
Proof. repeat split. Qed.

(* ========================================================================= *)
(** * Properties of the response projection                                  *)
(* ========================================================================= *)

Lemma getContentType_image category :
  arrayIncludes IMAGE_CATEGORIES category = true ->
  getContentType category = IMAGE.
Proof. unfold getContentType. intros ->. reflexivity. Qed.

Lemma getContentType_gif category :
  arrayIncludes IMAGE_CATEGORIES category = false ->
  getContentType category = GIF.
Proof. unfold getContentType. intros ->. reflexivity. Qed.

(** [shouldIncludeMetadataField] by the gate's policy. *)
Lemma shouldIncludeMetadataField_policy cfg field category :
  shouldIncludeMetadataField cfg field category
  = if active cfg
    then match metadata cfg with
         | None => bool_decide (field ∈ kindFields (getContentType category))
         | Some s => bool_decide (field ∈ s)
         end
    else true.
Proof.
  unfold shouldIncludeMetadataField.
  destruct (active cfg); simpl; [|reflexivity].
  destruct (metadata cfg) as [s|].
  - destruct s; [|reflexivity].
    symmetry. apply bool_decide_eq_false. apply not_elem_of_nil.
  - unfold arrayIncludes. destruct (getContentType category); reflexivity.
Qed.

Lemma filter_projected cfg kind category :
  kind = getContentType category ->
  List.filter (fun f => shouldIncludeMetadataField cfg f category)
    (kindFields kind)
  = spec_projectedFields cfg kind.
Proof.
  intros ->. unfold spec_projectedFields.
  rewrite (List.filter_ext _ _ (fun f => shouldIncludeMetadataField_policy cfg f category)).
  destruct (active cfg); [destruct (metadata cfg) as [s|]|].
  - reflexivity.
  - apply forallb_filter_id. apply List.forallb_forall. intros f Hf.
    apply bool_decide_eq_true. apply list_elem_of_In. exact Hf.
  - apply forallb_filter_id. apply List.forallb_forall. intros f Hf.
    reflexivity.
Qed.

Lemma createResponseObject_metadata cfg item category :
  resp_metadata (createResponseObject cfg item category)
  = List.map (fun f => (f, recordField item f))
      (List.filter (fun f => shouldIncludeMetadataField cfg f category)
         (kindFields (getContentType category))).
Proof.
  unfold createResponseObject, getContentType, assignIfIncluded. simpl.
  destruct (arrayIncludes IMAGE_CATEGORIES category); simpl.
  - destruct (shouldIncludeMetadataField cfg "artist_href" category),
      (shouldIncludeMetadataField cfg "artist_name" category),
      (shouldIncludeMetadataField cfg "source_url" category); reflexivity.
  - destruct (shouldIncludeMetadataField cfg "anime_name" category);
      reflexivity.
Qed.

(** C4, amended. For every response object the projector builds, the
    metadata property names on it are exactly the projected field set of
    the category's kind under the gate's policy, hence a subset of the
    fields valid for that kind intersected with the policy (each name is a
    field of the kind and, under a locked field list, on that list); each such
    property holds what the record holds under that name; and a field of
    that set which the record lacks is still a property of the object, with
    the value [undefined] (it is not omitted, and it is never [null]). *)
Theorem response_metadata_is_projected_field_set
    (cfg : IntentConfig) (item : CatalogRecord) (category : string) :
  metadataKeys (createResponseObject cfg item category)
  = spec_projectedFields cfg (getContentType category)
  /\ (forall f, f ∈ metadataKeys (createResponseObject cfg item category) ->
        f ∈ kindFields (getContentType category)
        /\ f ∈ spec_projectedFields cfg (getContentType category)
        /\ forall fields,
             active cfg = true -> metadata cfg = Some fields -> f ∈ fields)
  /\ (forall f v,
        (f, v) ∈ resp_metadata (createResponseObject cfg item category) ->
        v = recordField item f)
  /\ (forall f,
        f ∈ spec_projectedFields cfg (getContentType category) ->
        recordField item f = None ->
        (f, None) ∈ resp_metadata (createResponseObject cfg item category)).
Proof.
  assert (Hkeys : metadataKeys (createResponseObject cfg item category)
                  = spec_projectedFields cfg (getContentType category)).
  { unfold metadataKeys. rewrite createResponseObject_metadata.
    rewrite List.map_map. simpl. rewrite List.map_id.
    apply filter_projected. reflexivity. }
  split; [exact Hkeys|]. split; [|split].
  - intros f Hf. rewrite Hkeys in Hf. split; [|split; [exact Hf|]].
    + unfold spec_projectedFields in Hf.
      destruct (active cfg); [destruct (metadata cfg)|]; try exact Hf.
      apply elem_of_List_filter in Hf. tauto.
    + intros fields Hact Hmeta. unfold spec_projectedFields in Hf.
      rewrite Hact, Hmeta in Hf. apply elem_of_List_filter in Hf as [_ Hf].
      apply bool_decide_eq_true in Hf. exact Hf.
  - intros f v Hfv. rewrite createResponseObject_metadata in Hfv.
    apply list_elem_of_In, List.in_map_iff in Hfv as (f' & [= <- <-] & _).
    reflexivity.
  - intros f Hf Hnone. rewrite createResponseObject_metadata.
    rewrite <- (filter_projected cfg _ category eq_refl) in Hf.
    apply list_elem_of_In, List.in_map_iff. exists f.
    split; [rewrite Hnone; reflexivity|apply list_elem_of_In; exact Hf].
Qed.

Lemma response_metadata_is_projected_field_set_witness :
  metadataKeys
    (createResponseObject (intentConfig lockedSample)
       (mkRecord "/waifu/002.png" None (Some "Bob") None None) "waifu")
  = []
  /\ metadataKeys
       (createResponseObject sampleConfig
          (mkRecord "/waifu/002.png" None (Some "Bob") None None) "waifu")
     = ["artist_href"; "artist_name"; "source_url"].
Proof.
  split.
  - destruct (response_metadata_is_projected_field_set
                (intentConfig lockedSample)
                (mkRecord "/waifu/002.png" None (Some "Bob") None None) "waifu")
      as (Hkeys & _).
    rewrite Hkeys. reflexivity.
  - destruct (response_metadata_is_projected_field_set sampleConfig
                (mkRecord "/waifu/002.png" None (Some "Bob") None None) "waifu")
      as (Hkeys & _).
    rewrite Hkeys. reflexivity.
Defined.

(** C4 as stated fails in its last part: the second [hug] record has no
    [anime_name], and the object built for it on an unconfigured gate has
    the property [anime_name], holding [undefined]. *)
Lemma response_absent_field_counterexample :
  anime_name (mkRecord "/hug/002.gif" None None None None) = None
  /\ resp_metadata
       (createResponseObject (intentConfig (initialState sampleCatalog))
          (mkRecord "/hug/002.gif" None None None None) "hug")
     = [("anime_name", None)]
  /\ "anime_name"
     ∈ metadataKeys
         (createResponseObject (intentConfig (initialState sampleCatalog))
            (mkRecord "/hug/002.gif" None None None None) "hug").
Proof. split; [reflexivity|]. split; [reflexivity|]. left. Qed.

(* ========================================================================= *)
(** * Properties of the metadata field list                                  *)
(* ========================================================================= *)

Lemma trimStart_blank s : isBlank s = true -> trimStart s = "".
Proof.
  induction s as [|c s IH]; [reflexivity|]. simpl.
  intros H. apply andb_true_iff in H as [Hc Hs]. rewrite Hc. exact (IH Hs).
Qed.

Lemma trim_blank s : isBlank s = true -> trim s = "".
Proof. intros H. unfold trim. rewrite (trimStart_blank s H). reflexivity. Qed.

Lemma trimEnd_empty s : trimEnd s = "" -> isBlank s = true.
Proof.
  induction s as [|c s IH]; [reflexivity|]. simpl.
  destruct (trimEnd s) eqn:Ht; [|discriminate].
  destruct (isWhiteSpace c); [|discriminate].
  intros _. exact (IH eq_refl).
Qed.

Lemma trimStart_empty s : trimStart s = "" -> isBlank s = true.
Proof.
  induction s as [|c s IH]; [reflexivity|]. simpl.
  destruct (isWhiteSpace c); [exact IH|discriminate].
Qed.

Lemma trimStart_head s c t : trimStart s = String c t -> isWhiteSpace c = false.
Proof.
  induction s as [|c' s IH]; [discriminate|]. simpl.
  destruct (isWhiteSpace c') eqn:Hc; [exact IH|].
  intros [= <- <-]. exact Hc.
Qed.

(** [trim] gives the empty string exactly on the blank strings. *)
Lemma trim_empty_iff s : trim s = "" <-> isBlank s = true.
Proof.
  split; [|apply trim_blank]. unfold trim. intros H.
  destruct (trimStart s) as [|c t] eqn:Hs; [exact (trimStart_empty s Hs)|].
  apply trimEnd_empty in H. simpl in H.
  rewrite (trimStart_head s c t Hs) in H. discriminate.
Qed.






(* ========================================================================= *)
(** * Properties of the query facade                                         *)
(* ========================================================================= *)

Lemma validateAmount_acceptable q :
  (1 <= q)%Q -> validateAmount (JNum (Finite q)) = Return q.
Proof.
  intros H. unfold validateAmount, numberLt, isFinite.
  change (inject_Z 1) with 1%Q.
  apply Qle_bool_iff in H. rewrite H. reflexivity.
Qed.

Lemma validateAmount_refuses v :
  ~ acceptableAmount v -> validateAmount v = Throw InvalidAmount.
Proof.
  intros H. destruct v as [| |b|n|s|l]; try reflexivity.
  destruct n as [| |q]; try reflexivity.
  unfold validateAmount, numberLt, isFinite.
  change (inject_Z 1) with 1%Q.
  destruct (Qle_bool 1 q) eqn:Hq; [|reflexivity].
  exfalso. apply H. exists q. split; [reflexivity|].
  apply Qle_bool_iff. exact Hq.
Qed.

Lemma validateAmount_Return v q :
  validateAmount v = Return q -> v = JNum (Finite q) /\ (1 <= q)%Q.
Proof.
  destruct v as [| |b|n|s|l]; try discriminate.
  destruct n as [| |q']; try discriminate.
  unfold validateAmount, numberLt, isFinite.
  change (inject_Z 1) with 1%Q.
  destruct (Qle_bool 1 q') eqn:Hq; [|discriminate].
  intros [= ->]. split; [reflexivity|]. apply Qle_bool_iff. exact Hq.
Qed.

(** [Math.floor] agrees with truncation toward zero from 1 on. *)
Lemma Qfloor_truncate q : (1 <= q)%Q -> Qfloor q = truncate q /\ (1 <= Qfloor q)%Z.
Proof.
  destruct q as [n d]. unfold Qle, truncate. simpl. intros H.
  assert (Hn : (Z.pos d <= n)%Z) by lia.
  split.
  - symmetry. apply Z.quot_div_nonneg; lia.
  - apply Z.div_le_lower_bound; lia.
Qed.

Lemma parseOptions_amount cfg options params :
  parseOptions cfg options = Return params ->
  exists q, amountOrDefault options = JNum (Finite q) /\ (1 <= q)%Q
            /\ p_amount params = Qfloor q.
Proof.
  unfold parseOptions.
  destruct (validateAmount (amountOrDefault options)) as [q|] eqn:Hv;
    [|discriminate].
  apply validateAmount_Return in Hv as [Hv Hq]. cbn [obind].
  destruct (normalizeActions cfg (o_actions options)); [|discriminate].
  cbn [obind].
  destruct (validateAndFilterCategories _ _); [|discriminate].
  cbn [obind]. intros [= <-]. exists q. cbn [p_amount]. auto.
Qed.

Lemma callNeko_parsed (argumentLimit : nat) options st params r :
  parseOptions (intentConfig st) options = Return params ->
  callNeko argumentLimit options st r
  = match runMode argumentLimit st params r with
    | Return (result, r') => Return (wrapResult params result, r')
    | Throw e => Throw e
    end.
Proof.
  intros H. unfold callNeko, rbind, rlift, rret, wrapResult. rewrite H.
  destruct (runMode argumentLimit st params r) as [[result r']|]; reflexivity.
Qed.

Lemma callNeko_parse_throws (argumentLimit : nat) options st e r :
  parseOptions (intentConfig st) options = Throw e ->
  callNeko argumentLimit options st r = Throw e.
Proof. intros H. unfold callNeko, rbind, rlift. rewrite H. reflexivity. Qed.

Lemma callNeko_Return (argumentLimit : nat) options st r resp r' :
  callNeko argumentLimit options st r = Return (resp, r') ->
  exists params result,
    parseOptions (intentConfig st) options = Return params
    /\ runMode argumentLimit st params r = Return (result, r')
    /\ resp = wrapResult params result.
Proof.
  intros H.
  destruct (parseOptions (intentConfig st) options) as [params|e] eqn:Hp.
  - rewrite (callNeko_parsed _ _ _ _ _ Hp) in H.
    destruct (runMode argumentLimit st params r) as [[result r'']|] eqn:Hm; [|discriminate].
    injection H as <- <-. exists params, result. auto.
  - rewrite (callNeko_parse_throws _ _ _ _ _ Hp) in H. discriminate.
Qed.

Lemma wrapResult_Single params result item :
  wrapResult params result = Single item
  <-> p_amount params = 1%Z /\ result = [item].
Proof.
  unfold wrapResult. split.
  - destruct (p_amount params =? 1)%Z eqn:Ha; [|discriminate].
    apply Z.eqb_eq in Ha.
    destruct result as [|x [|y l]]; simpl; try discriminate.
    intros [= ->]. auto.
  - intros [-> ->]. reflexivity.
Qed.

Lemma wrapResult_Many params result :
  ~ (p_amount params = 1%Z /\ length result = 1) ->
  wrapResult params result = Many result.
Proof.
  unfold wrapResult. intros H.
  destruct (p_amount params =? 1)%Z eqn:Ha; [|reflexivity].
  destruct (length result =? 1)%nat eqn:Hl; [|reflexivity].
  exfalso. apply H. split; [apply Z.eqb_eq; exact Ha|].
  apply Nat.eqb_eq. exact Hl.
Qed.

(** C8. Whenever [callNeko] returns, the request was normalised to some
    parameters and the engine produced some sequence for them, and the value
    returned is the single item unwrapped if and only if the validated
    amount is 1 and the sequence has exactly one item; in every other case,
    an empty or a shorter-than-requested sequence included, it is the whole
    sequence. *)
Theorem fetch_unwraps_exactly_single_item (argumentLimit : nat)
    (options : Options) (st : State) (r r' : RandomSource) (resp : Response) :
  callNeko argumentLimit options st r = Return (resp, r') ->
  exists params result,
    parseOptions (intentConfig st) options = Return params
    /\ runMode argumentLimit st params r = Return (result, r')
    /\ (forall item,
          resp = Single item <-> p_amount params = 1%Z /\ result = [item])
    /\ (p_amount params = 1%Z /\ length result = 1 ->
        exists item, result = [item] /\ resp = Single item)
    /\ (~ (p_amount params = 1%Z /\ length result = 1) ->
        resp = Many result).
Proof.
  intros H. apply callNeko_Return in H as (params & result & Hp & Hm & ->).
  exists params, result. split; [exact Hp|]. split; [exact Hm|].
  split; [|split].
  - intros item. apply wrapResult_Single.
  - intros [Ha Hl]. destruct result as [|item [|y l]]; try discriminate.
    exists item. split; [reflexivity|]. apply wrapResult_Single. auto.
  - apply wrapResult_Many.
Qed.

Lemma fetch_unwraps_exactly_single_item_witness :
  callNeko sampleArgumentLimit oneHug (initialState sampleCatalog) zeroSource
  = Return
      (Single
         {| resp_url := "https://nekos.best/api/v2/hug/001.gif";
            resp_action := "hug"; resp_type := GIF;
            resp_metadata := [("anime_name", Some "Naruto")] |},
       {| tape := []; calls := 1 |})
  /\ exists params result,
       parseOptions (intentConfig (initialState sampleCatalog)) oneHug
       = Return params
       /\ runMode sampleArgumentLimit (initialState sampleCatalog) params zeroSource
          = Return (result, {| tape := []; calls := 1 |})
       /\ p_amount params = 1%Z /\ length result = 1.
Proof.
  assert (H : callNeko sampleArgumentLimit oneHug (initialState sampleCatalog) zeroSource
              = Return
                  (Single
                     {| resp_url := "https://nekos.best/api/v2/hug/001.gif";
                        resp_action := "hug"; resp_type := GIF;
                        resp_metadata := [("anime_name", Some "Naruto")] |},
                   {| tape := []; calls := 1 |}))
    by (vm_compute; reflexivity).
  split; [exact H|].
  destruct (fetch_unwraps_exactly_single_item _ _ _ _ _ _ H)
    as (params & result & Hp & Hm & Hs & _ & _).
  exists params, result. split; [exact Hp|]. split; [exact Hm|].
  destruct (proj1 (Hs _) eq_refl) as [Ha ->]. split; [exact Ha|reflexivity].
Defined.

(** C9. When the [amount] option is absent, the amount [parseOptions] hands
    on is 1; so a call without it, the bare [callNeko()] in particular, for
    which the engine produces exactly one item returns that item unwrapped
    and not a one-element sequence. *)
Theorem absent_amount_defaults_to_one (argumentLimit : nat)
    (options : Options) (st : State) (params : Params) :
  o_amount options = JUndefined ->
  parseOptions (intentConfig st) options = Return params ->
  p_amount params = 1%Z
  /\ forall r item r',
       runMode argumentLimit st params r = Return ([item], r') ->
       callNeko argumentLimit options st r = Return (Single item, r').
Proof.
  intros Ha Hp.
  assert (H1 : p_amount params = 1%Z).
  { destruct (parseOptions_amount _ _ _ Hp) as (q & Hq & _ & ->).
    unfold amountOrDefault in Hq. rewrite Ha in Hq. injection Hq as <-.
    reflexivity. }
  split; [exact H1|].
  intros r item r' Hm. rewrite (callNeko_parsed _ _ _ _ _ Hp), Hm.
  f_equal. f_equal. apply wrapResult_Single. auto.
Qed.

Lemma absent_amount_defaults_to_one_witness :
  o_amount noOptions = JUndefined
  /\ (exists params,
        parseOptions (intentConfig (initialState sampleCatalog)) noOptions
        = Return params
        /\ p_amount params = 1%Z)
  /\ callNeko sampleArgumentLimit noOptions (initialState sampleCatalog) zeroSource
     = Return
         (Single
            {| resp_url := "https://nekos.best/api/v2/hug/001.gif";
               resp_action := "hug"; resp_type := GIF;
               resp_metadata := [("anime_name", Some "Naruto")] |},
          {| tape := []; calls := 2 |}).
Proof.
  split; [reflexivity|].
  destruct (parseOptions (intentConfig (initialState sampleCatalog)) noOptions)
    as [params|e] eqn:Hp; [|vm_compute in Hp; discriminate Hp].
  destruct (absent_amount_defaults_to_one sampleArgumentLimit noOptions
              (initialState sampleCatalog) params eq_refl Hp) as [H1 Hs].
  split; [exists params; split; [reflexivity|exact H1]|].
  apply Hs. vm_compute in Hp. injection Hp as <-. vm_compute. reflexivity.
Defined.

(* ========================================================================= *)
(** * Properties of the sampling primitive                                   *)
(* ========================================================================= *)

Lemma indexBelow_lt n u : 0 < n -> indexBelow n u < n.
Proof.
  destruct n as [|n]; [lia|]. intros _. unfold indexBelow.
  apply Nat.mod_upper_bound. lia.
Qed.

Lemma rbind_run {A B} (m : Rand A) (k : A -> Rand B) r :
  rbind m k r
  = match m r with
    | Return (a, r') => k a r'
    | Throw e => Throw e
    end.
Proof. reflexivity. Qed.

Lemma rbind_randomBelow {B} n (k : nat -> Rand B) r :
  rbind (randomBelow n) k r = k (indexBelow n (nextDraw r)) (advance r).
Proof. reflexivity. Qed.

Lemma rbind_rlift_Return {A B} (a : A) (k : A -> Rand B) r :
  rbind (rlift (Return a)) k r = k a r.
Proof. reflexivity. Qed.

Lemma fromPool_lookup cfg pool category i item :
  pool !! i = Some item ->
  fromPool cfg pool category (createResponseObject cfg item category).
Proof.
  intros H. exists item. split; [|reflexivity].
  apply list_elem_of_lookup. exists i. exact H.
Qed.

(** The loop with replacement appends [n] projected pool items and calls
    [Math.random] [n] times; it never throws on a non-empty pool. *)
Lemma drawWithReplacement_ok cfg items category n :
  items <> [] ->
  forall result r,
  exists out r',
    drawWithReplacement cfg items category n result r
    = Return ((result ++ out)%list, r')
    /\ length out = n
    /\ Forall (fromPool cfg items category) out
    /\ calls r' = calls r + n.
Proof.
  intros Hne. induction n as [|n IH]; intros result r.
  - exists [], r. rewrite app_nil_r. repeat split; [constructor|lia].
  - cbn [drawWithReplacement]. rewrite rbind_randomBelow.
    assert (Hlt : indexBelow (length items) (nextDraw r) < length items).
    { apply indexBelow_lt. destruct items; [congruence|simpl; lia]. }
    destruct (lookup_lt_is_Some_2 items _ Hlt) as [item Hitem].
    rewrite Hitem. cbn [createResponseObjectAt].
    rewrite rbind_rlift_Return.
    destruct (IH (result ++ [createResponseObject cfg item category])%list
                (advance r)) as (out & r' & Hrun & Hlen & Hall & Hc).
    exists (createResponseObject cfg item category :: out), r'.
    rewrite Hrun, <- app_assoc. simpl.
    split; [reflexivity|]. split; [lia|].
    split; [constructor; [eapply fromPool_lookup; exact Hitem|exact Hall]|].
    rewrite Hc. simpl. lia.
Qed.

(** The partial Fisher-Yates loop, started at position [i] with [n]
    iterations left inside the pool, appends [n] projected pool items and
    calls [Math.random] [n] times; it never throws. *)
Lemma partialShuffle_ok cfg items category n :
  forall i indices result r,
    i + n <= length items ->
    length indices = length items ->
    Forall (fun j => j < length items) indices ->
    exists out r',
      partialShuffle cfg items category (length items) n i indices result r
      = Return ((result ++ out)%list, r')
      /\ length out = n
      /\ Forall (fromPool cfg items category) out
      /\ calls r' = calls r + n.
Proof.
  induction n as [|n IH]; intros i indices result r Hin Hlen Hall.
  - exists [], r. rewrite app_nil_r. repeat split; [constructor|lia].
  - cbn [partialShuffle]. rewrite rbind_randomBelow.
    set (ri := i + indexBelow (length items - i) (nextDraw r)).
    assert (Hri : ri < length items).
    { unfold ri.
      assert (indexBelow (length items - i) (nextDraw r) < length items - i)
        by (apply indexBelow_lt; lia).
      lia. }
    assert (Hi : i < length indices) by lia.
    assert (Hri' : ri < length indices) by lia.
    destruct (lookup_lt_is_Some_2 indices _ Hri') as [a Ha].
    destruct (lookup_lt_is_Some_2 indices _ Hi) as [b Hb].
    rewrite Ha, Hb.
    set (indices' := <[ri := b]> (<[i := a]> indices)).
    assert (Hlen' : length indices' = length items).
    { unfold indices'. rewrite !length_insert. exact Hlen. }
    assert (Hall' : Forall (fun j => j < length items) indices').
    { unfold indices'. apply Forall_insert; [apply Forall_insert|].
      - exact Hall.
      - eapply Forall_lookup_1 in Ha; [exact Ha|exact Hall].
      - eapply Forall_lookup_1 in Hb; [exact Hb|exact Hall]. }
    assert (Hi' : i < length indices') by lia.
    destruct (lookup_lt_is_Some_2 indices' _ Hi') as [j Hj].
    rewrite Hj. cbn [mbind option_bind].
    assert (Hjlt : j < length items).
    { eapply Forall_lookup_1 in Hj; [exact Hj|exact Hall']. }
    destruct (lookup_lt_is_Some_2 items _ Hjlt) as [item Hitem].
    rewrite Hitem. cbn [createResponseObjectAt].
    rewrite rbind_rlift_Return.
    destruct (IH (S i) indices'
                (result ++ [createResponseObject cfg item category])%list
                (advance r)) as (out & r' & Hrun & Hlo & Hfp & Hc);
      [lia|exact Hlen'|exact Hall'|].
    exists (createResponseObject cfg item category :: out), r'.
    rewrite Hrun, <- app_assoc. simpl.
    split; [reflexivity|]. split; [lia|].
    split; [constructor; [eapply fromPool_lookup; exact Hitem|exact Hfp]|].
    rewrite Hc. simpl. lia.
Qed.

Lemma length_zero_eqb {A} (l : list A) : l <> [] -> (length l =? 0)%nat = false.
Proof. destruct l; [congruence|reflexivity]. Qed.

(** With duplicates disallowed and a count of at least the pool size, the
    primitive returns the projection of the pool as it stands and leaves the
    random source alone. *)
Lemma getRandomItems_whole_pool_eq cfg items count category r :
  items <> [] ->
  (Z.of_nat (length items) <= count)%Z ->
  getRandomItems cfg items count category false r
  = Return (List.map (fun item => createResponseObject cfg item category) items,
            r).
Proof.
  intros Hne Hc. unfold getRandomItems.
  rewrite (length_zero_eqb items Hne). cbn [negb andb].
  apply Z.leb_le in Hc. rewrite Hc. reflexivity.
Qed.

(** On a non-empty pool the primitive never throws; it yields projected pool
    items, as many as [contribution] says. *)
Lemma getRandomItems_ok cfg items count category allowDuplicates r :
  items <> [] ->
  exists out r',
    getRandomItems cfg items count category allowDuplicates r
    = Return (out, r')
    /\ length out = contribution items count allowDuplicates
    /\ Forall (fromPool cfg items category) out
    /\ calls r <= calls r'.
Proof.
  intros Hne. unfold contribution.
  destruct allowDuplicates.
  - unfold getRandomItems. rewrite (length_zero_eqb items Hne).
    cbn [negb andb].
    destruct (drawWithReplacement_ok cfg items category (Z.to_nat count) Hne
                [] r) as (out & r' & Hrun & Hlen & Hall & Hc).
    exists out, r'. rewrite Hrun. repeat split; [exact Hlen|exact Hall|lia].
  - destruct (Z.leb_spec (Z.of_nat (length items)) count) as [Hc|Hc].
    + rewrite (getRandomItems_whole_pool_eq _ _ _ _ _ Hne Hc).
      eexists _, r. split; [reflexivity|]. split; [rewrite length_map; lia|].
      split; [|lia].
      apply List.Forall_forall. intros obj Hobj.
      apply List.in_map_iff in Hobj as (item & <- & Hin).
      exists item. split; [apply list_elem_of_In; exact Hin|reflexivity].
    + unfold getRandomItems. rewrite (length_zero_eqb items Hne).
      cbn [negb andb].
      apply Z.leb_gt in Hc. rewrite Hc.
      apply Z.leb_gt in Hc.
      destruct (partialShuffle_ok cfg items category
                  (Z.to_nat (Z.min count (Z.of_nat (length items))))
                  0 (seq 0 (length items)) [] r)
        as (out & r' & Hrun & Hlen & Hall & Hcalls).
      * lia.
      * apply length_seq.
      * apply List.Forall_forall. intros j Hj. apply in_seq in Hj. lia.
      * exists out, r'. rewrite Hrun.
        repeat split; [lia|exact Hall|lia].
Qed.

(** C3, amended. For every non-empty pool and every count that is at least
    the pool size, with duplicates disallowed, the sampling primitive
    returns every item of the pool exactly once, projected, in the order the
    pool has them (position by position, not in a randomised order); it
    makes no call to [Math.random], and it throws no exception for the
    request of more than is available. *)
Theorem whole_pool_returned_in_pool_order
    (cfg : IntentConfig) (items : list CatalogRecord) (count : Z)
    (category : string) (r : RandomSource) :
  items <> [] ->
  (Z.of_nat (length items) <= count)%Z ->
  exists result,
    getRandomItems cfg items count category false r = Return (result, r)
    /\ length result = length items
    /\ forall i,
         result !! i
         = (fun item => createResponseObject cfg item category) <$> items !! i.
Proof.
  intros Hne Hc.
  exists (List.map (fun item => createResponseObject cfg item category) items).
  split; [apply getRandomItems_whole_pool_eq; assumption|].
  split; [apply length_map|].
  intros i. apply list_lookup_fmap.
Qed.

Lemma whole_pool_returned_in_pool_order_witness :
  ([ mkRecord "/hug/001.gif" None None None (Some "Naruto");
     mkRecord "/hug/002.gif" None None None None ] <> []
   /\ (Z.of_nat 2 <= 5)%Z)
  /\ exists result,
       getRandomItems (intentConfig (initialState sampleCatalog))
         [ mkRecord "/hug/001.gif" None None None (Some "Naruto");
           mkRecord "/hug/002.gif" None None None None ] 5 "hug" false
         {| tape := [1; 1; 1]; calls := 0 |}
       = Return (result, {| tape := [1; 1; 1]; calls := 0 |})
       /\ List.map resp_url result
          = [ "https://nekos.best/api/v2/hug/001.gif";
              "https://nekos.best/api/v2/hug/002.gif" ].
Proof.
  assert (Hne : [ mkRecord "/hug/001.gif" None None None (Some "Naruto");
                  mkRecord "/hug/002.gif" None None None None ] <> [])
    by discriminate.
  assert (Hc : (Z.of_nat 2 <= 5)%Z) by (apply Z.leb_le; reflexivity).
  split; [split; [exact Hne|exact Hc]|].
  destruct (whole_pool_returned_in_pool_order
              (intentConfig (initialState sampleCatalog)) _ 5 "hug"
              {| tape := [1; 1; 1]; calls := 0 |} Hne Hc)
    as (result & Hrun & _ & _).
  exists result. split; [exact Hrun|].
  vm_compute in Hrun. injection Hrun as <-. reflexivity.
Defined.

(** C3 as stated fails in its "randomized order": for the two [hug] records
    and a count of 2, no random source makes the primitive return the second
    record before the first. *)
Lemma whole_pool_order_counterexample :
  ~ exists r r',
      getRandomItems (intentConfig (initialState sampleCatalog))
        [ mkRecord "/hug/001.gif" None None None (Some "Naruto");
          mkRecord "/hug/002.gif" None None None None ] 2 "hug" false r
      = Return
          ([ createResponseObject (intentConfig (initialState sampleCatalog))
               (mkRecord "/hug/002.gif" None None None None) "hug";
             createResponseObject (intentConfig (initialState sampleCatalog))
               (mkRecord "/hug/001.gif" None None None (Some "Naruto")) "hug" ],
           r').
Proof.
  intros (r & r' & H).
  rewrite getRandomItems_whole_pool_eq in H;
    [|discriminate|apply Z.leb_le; reflexivity].
  discriminate H.
Qed.

(* ========================================================================= *)
(** * Properties of the search-filtered category map                         *)
(* ========================================================================= *)

Lemma filteredPool_nonempty data searchTerms category pool :
  filteredPool data searchTerms category = Some pool -> pool <> [].
Proof.
  unfold filteredPool. destruct (data !! category); [|discriminate].
  destruct (List.filter _ _); [discriminate|]. intros [= <-]. discriminate.
Qed.

Lemma addFilteredCategory_pool data searchTerms m category :
  addFilteredCategory data searchTerms m category
  = match filteredPool data searchTerms category with
    | Some pool => mapSet m category pool
    | None => m
    end.
Proof.
  unfold addFilteredCategory, filteredPool.
  destruct (data !! category); [|reflexivity].
  destruct (List.filter _ _); reflexivity.
Qed.

Lemma mapKeys_mapSet m k v :
  mapKeys (mapSet m k v)
  = if bool_decide (k ∈ mapKeys m) then mapKeys m else (mapKeys m ++ [k])%list.
Proof.
  unfold mapKeys. induction m as [|[k' v'] m IH]; [reflexivity|].
  cbn [mapSet]. destruct (String.eqb_spec k' k) as [->|Hne].
  - cbn [List.map fst]. rewrite bool_decide_eq_true_2; [reflexivity|left].
  - cbn [List.map fst]. rewrite IH.
    destruct (bool_decide (k ∈ List.map fst m)) eqn:Hk.
    + rewrite bool_decide_eq_true_2; [reflexivity|].
      right. apply bool_decide_eq_true in Hk. exact Hk.
    + rewrite bool_decide_eq_false_2; [reflexivity|].
      apply bool_decide_eq_false in Hk. rewrite elem_of_cons.
      intros [->|H]; [congruence|contradiction].
Qed.

Lemma mapSet_entries m k v entry :
  entry ∈ mapSet m k v -> entry ∈ m \/ entry = (k, v).
Proof.
  induction m as [|[k' v'] m IH]; cbn [mapSet].
  - intros H. apply list_elem_of_singleton in H. auto.
  - destruct (String.eqb_spec k' k) as [->|Hne]; rewrite !elem_of_cons.
    + intros [->|H]; auto.
    + intros [->|H]; [auto|]. destruct (IH H); auto.
Qed.

Lemma poolsOf_mapSet data searchTerms m category pool :
  poolsOf data searchTerms m ->
  filteredPool data searchTerms category = Some pool ->
  poolsOf data searchTerms (mapSet m category pool).
Proof.
  intros [Hnd Hall] Hp. split.
  - rewrite mapKeys_mapSet. destruct (bool_decide _) eqn:Hk; [exact Hnd|].
    apply bool_decide_eq_false in Hk.
    apply NoDup_app. split; [exact Hnd|]. split.
    + intros x Hx Hx'. apply list_elem_of_singleton in Hx'. congruence.
    + apply NoDup_singleton.
  - apply Forall_forall. intros entry He.
    destruct (mapSet_entries _ _ _ _ He) as [H| ->]; [|exact Hp].
    rewrite Forall_forall in Hall. apply Hall. exact H.
Qed.

Lemma poolsOf_fold data searchTerms categories :
  forall m,
    poolsOf data searchTerms m ->
    poolsOf data searchTerms
      (foldl (addFilteredCategory data searchTerms) m categories).
Proof.
  induction categories as [|c cs IH]; intros m Hm; [exact Hm|].
  cbn [foldl]. apply IH. rewrite addFilteredCategory_pool.
  destruct (filteredPool data searchTerms c) eqn:Hp; [|exact Hm].
  apply poolsOf_mapSet; assumption.
Qed.

(** The map [buildSearchFilteredCategories] builds holds distinct categories,
    each with its non-empty filtered pool. *)
Lemma buildSearchFilteredCategories_pools data categories searchTerms :
  poolsOf data searchTerms
    (buildSearchFilteredCategories data categories searchTerms).
Proof.
  apply poolsOf_fold. split; [apply NoDup_nil_2|apply Forall_nil_2].
Qed.

Lemma mapGet_entry m category pool :
  NoDup (mapKeys m) -> (category, pool) ∈ m -> mapGet m category = Some pool.
Proof.
  induction m as [|[k v] m IH]; intros Hnd Hin; [inversion Hin|].
  cbn [mapKeys List.map fst] in Hnd. apply NoDup_cons in Hnd as [Hk Hnd].
  cbn [mapGet]. apply elem_of_cons in Hin as [[= <- <-]|Hin].
  - rewrite String.eqb_refl. reflexivity.
  - destruct (String.eqb_spec k category) as [->|Hne].
    + exfalso. apply Hk. apply list_elem_of_fmap. exists (category, pool). auto.
    + apply IH; assumption.
Qed.

Lemma firstOccurrences_ext seen1 seen2 l :
  (forall x, x ∈ seen1 <-> x ∈ seen2) ->
  firstOccurrences seen1 l = firstOccurrences seen2 l.
Proof.
  revert seen1 seen2. induction l as [|x l IH]; intros seen1 seen2 H;
    [reflexivity|].
  cbn [firstOccurrences]. rewrite (bool_decide_ext _ _ (H x)).
  destruct (bool_decide (x ∈ seen2)); [apply IH; exact H|].
  f_equal. apply IH. intros y. rewrite !elem_of_cons, H. tauto.
Qed.

Lemma mapKeys_fold data searchTerms categories :
  forall m,
    mapKeys (foldl (addFilteredCategory data searchTerms) m categories)
    = (mapKeys m
       ++ firstOccurrences (mapKeys m)
            (List.filter
               (fun c => bool_decide (is_Some (filteredPool data searchTerms c)))
               categories))%list.
Proof.
  induction categories as [|c cs IH]; intros m.
  - simpl. rewrite app_nil_r. reflexivity.
  - cbn [foldl List.filter]. rewrite IH, addFilteredCategory_pool.
    destruct (filteredPool data searchTerms c) as [pool|] eqn:Hp.
    + rewrite bool_decide_eq_true_2; [|eexists; reflexivity].
      cbn [firstOccurrences]. rewrite mapKeys_mapSet.
      destruct (bool_decide (c ∈ mapKeys m)); [reflexivity|].
      rewrite <- app_assoc. cbn [app]. do 2 f_equal.
      apply firstOccurrences_ext. intros x.
      rewrite elem_of_app, list_elem_of_singleton, elem_of_cons. tauto.
    + rewrite bool_decide_eq_false_2; [reflexivity|].
      intros [? [=]].
Qed.

(** The keys of the map are the surviving categories of the request, in the
    order of their first occurrence in it. *)
Lemma buildSearchFilteredCategories_keys data categories searchTerms :
  mapKeys (buildSearchFilteredCategories data categories searchTerms)
  = survivingCategories data searchTerms categories.
Proof. apply mapKeys_fold. Qed.

(* ========================================================================= *)
(** * Properties of Distributed mode                                         *)
(* ========================================================================= *)

Lemma sharesSum_closed base remainder len :
  forall index,
    sharesSum base remainder index len
    = (Z.of_nat len * base
       + Z.max 0 (Z.min (Z.of_nat (index + len)) remainder - Z.of_nat index))%Z.
Proof.
  induction len as [|len IH]; intros index.
  - simpl. lia.
  - cbn [sharesSum]. rewrite IH. unfold shareAt.
    destruct (Z.ltb_spec (Z.of_nat index) remainder); lia.
Qed.

(** The shares of the [n] categories add up to the amount. *)
Lemma sharesSum_amount amount n :
  (0 <= amount)%Z -> 0 < n ->
  sharesSum (amount / Z.of_nat n) (amount mod Z.of_nat n) 0 n = amount.
Proof.
  intros Ha Hn. rewrite sharesSum_closed.
  pose proof (Z.mod_pos_bound amount (Z.of_nat n) ltac:(lia)) as Hm.
  pose proof (Z.div_mod amount (Z.of_nat n) ltac:(lia)) as Hd.
  simpl. lia.
Qed.

Lemma contribution_le pool count allowDuplicates :
  (0 <= count)%Z ->
  (Z.of_nat (contribution pool count allowDuplicates) <= count)%Z.
Proof. unfold contribution. destruct allowDuplicates; lia. Qed.

Lemma contribution_full pool count allowDuplicates :
  (0 <= count)%Z ->
  allowDuplicates = true \/ (count <= Z.of_nat (length pool))%Z ->
  Z.of_nat (contribution pool count allowDuplicates) = count.
Proof.
  unfold contribution. intros H0 [->|H]; [lia|].
  destruct allowDuplicates; lia.
Qed.

Lemma shareAt_nonneg base remainder index :
  (0 <= base)%Z -> (0 <= shareAt base remainder index)%Z.
Proof. unfold shareAt. destruct (_ <? _)%Z; lia. Qed.

Lemma mapGet_key data searchTerms m category :
  poolsOf data searchTerms m ->
  category ∈ mapKeys m ->
  exists pool,
    mapGet m category = Some pool
    /\ filteredPool data searchTerms category = Some pool
    /\ pool <> [].
Proof.
  intros [Hnd Hall] Hk. unfold mapKeys in Hk.
  apply list_elem_of_fmap in Hk as ([c pool] & -> & Hin).
  exists pool. rewrite Forall_forall in Hall.
  pose proof (Hall _ Hin) as Hp. cbn [fst snd] in *.
  split; [apply mapGet_entry; assumption|]. split; [exact Hp|].
  eapply filteredPool_nonempty. exact Hp.
Qed.

Lemma pushSpread_fits argumentLimit (result items : list ResponseObject) r :
  length items <= argumentLimit ->
  pushSpread argumentLimit result items r = Return ((result ++ items)%list, r).
Proof.
  intros H. unfold pushSpread.
  rewrite (proj2 (Nat.leb_le _ _) H). reflexivity.
Qed.

Lemma pushSpread_overflow argumentLimit (result items : list ResponseObject) r :
  argumentLimit < length items ->
  pushSpread argumentLimit result items r = Throw RangeError.
Proof.
  intros H. unfold pushSpread.
  rewrite (proj2 (Nat.leb_gt _ _) H). reflexivity.
Qed.

Lemma fromPool_fromMap cfg data searchTerms filteredMap cat pool obj :
  poolsOf data searchTerms filteredMap ->
  cat ∈ mapKeys filteredMap ->
  mapGet filteredMap cat = Some pool ->
  fromPool cfg pool cat obj ->
  fromMap cfg filteredMap obj.
Proof.
  intros Hpools Hk Hget Hobj. exists cat, pool. split; [|exact Hobj].
  unfold mapKeys in Hk. apply list_elem_of_fmap in Hk as ([c p] & -> & Hin).
  cbn [fst] in *.
  rewrite (mapGet_entry _ _ _ (proj1 Hpools) Hin) in Hget.
  injection Hget as <-. exact Hin.
Qed.

(** The [forEach] of Distributed mode over categories of the filtered map.
    Either every chunk fits the argument limit, and the loop appends one
    chunk per category, in order, the chunk of the category at position
    [index + j] drawn from its pool with the share of that position; or
    some chunk has more objects than the engine accepts as arguments, and
    the loop throws a [RangeError]. *)
Lemma distributeLoop_run (argumentLimit : nat) cfg data searchTerms filteredMap
    base remainder allowDuplicates :
  poolsOf data searchTerms filteredMap ->
  (0 <= base)%Z ->
  forall cats index result r,
    (forall cat, cat ∈ cats -> cat ∈ mapKeys filteredMap) ->
    (exists chunks r',
        distributeLoop argumentLimit cfg filteredMap base remainder
          allowDuplicates cats index result r
        = Return ((result ++ concat chunks)%list, r')
        /\ length chunks = length cats
        /\ (forall j cat,
              cats !! j = Some cat ->
              exists pool chunk,
                mapGet filteredMap cat = Some pool
                /\ chunks !! j = Some chunk
                /\ length chunk
                   = contribution pool (shareAt base remainder (index + j))
                       allowDuplicates
                /\ length chunk <= argumentLimit
                /\ Forall (fromPool cfg pool cat) chunk)
        /\ (Z.of_nat (length (concat chunks))
            <= sharesSum base remainder index (length cats))%Z
        /\ (allowDuplicates = true
            \/ (forall j cat pool,
                  cats !! j = Some cat ->
                  mapGet filteredMap cat = Some pool ->
                  (shareAt base remainder (index + j)
                   <= Z.of_nat (length pool))%Z) ->
            Z.of_nat (length (concat chunks))
            = sharesSum base remainder index (length cats))
        /\ Forall (fromMap cfg filteredMap) (concat chunks))
    \/ (distributeLoop argumentLimit cfg filteredMap base remainder
          allowDuplicates cats index result r
        = Throw RangeError
        /\ exists j cat pool,
             cats !! j = Some cat
             /\ mapGet filteredMap cat = Some pool
             /\ argumentLimit
                < contribution pool (shareAt base remainder (index + j))
                    allowDuplicates).
Proof.
  intros Hpools Hbase. induction cats as [|cat cats IH];
    intros index result r Hkeys.
  - left. exists [], r. cbn [distributeLoop concat]. rewrite app_nil_r.
    split; [reflexivity|]. split; [reflexivity|].
    split; [intros j c Hj; inversion Hj|].
    split; [simpl; lia|]. split; [intros _; reflexivity|constructor].
  - cbn [distributeLoop]. rewrite rbind_run. unfold getRandomItemsOf.
    destruct (mapGet_key _ _ _ cat Hpools (Hkeys cat ltac:(left)))
      as (pool & Hget & _ & Hne).
    rewrite Hget.
    fold (shareAt base remainder index).
    destruct (getRandomItems_ok cfg pool (shareAt base remainder index) cat
                allowDuplicates r Hne)
      as (chunk & r1 & Hrun & Hlen & Hall & _).
    rewrite Hrun. rewrite rbind_run.
    destruct (Nat.le_gt_cases (length chunk) argumentLimit) as [Hfit|Hbig].
    2:{ right. rewrite (pushSpread_overflow _ _ _ _ Hbig).
        split; [reflexivity|]. exists 0, cat, pool. rewrite Nat.add_0_r.
        split; [reflexivity|]. split; [exact Hget|]. rewrite <- Hlen.
        exact Hbig. }
    rewrite (pushSpread_fits _ _ _ _ Hfit).
    destruct (IH (S index) (result ++ chunk)%list r1) as
      [(chunks & r' & Hloop & Hlc & Hper & Hle & Heq & Hfm)
      |(Hloop & j & c & p & Hj & Hp & Hover)].
    { intros c Hc. apply Hkeys. right. exact Hc. }
    2:{ right. split; [exact Hloop|]. exists (S j), c, p.
        rewrite <- Nat.add_succ_comm. auto. }
    left. exists (chunk :: chunks), r'. rewrite Hloop.
    cbn [concat length sharesSum]. rewrite <- app_assoc.
    split; [reflexivity|]. split; [rewrite Hlc; reflexivity|].
    pose proof (contribution_le pool (shareAt base remainder index)
                  allowDuplicates (shareAt_nonneg _ _ _ Hbase)) as Hcl.
    split; [|split; [|split]].
    + intros [|j] c Hj.
      * injection Hj as <-. exists pool, chunk. rewrite Nat.add_0_r.
        repeat split; assumption.
      * destruct (Hper j c Hj) as (p & ch & H1 & H2 & H3 & H4 & H5).
        exists p, ch. rewrite <- Nat.add_succ_comm. repeat split; assumption.
    + rewrite length_app. lia.
    + intros Hfull. rewrite length_app, Nat2Z.inj_add.
      rewrite Heq.
      * f_equal. rewrite Hlen. apply contribution_full.
        -- apply shareAt_nonneg. exact Hbase.
        -- destruct Hfull as [->|Hfull]; [left; reflexivity|right].
           specialize (Hfull 0 cat pool eq_refl Hget).
           rewrite Nat.add_0_r in Hfull. exact Hfull.
      * destruct Hfull as [->|Hfull]; [left; reflexivity|right].
        intros j c p Hj Hp. specialize (Hfull (S j) c p Hj Hp).
        rewrite <- Nat.add_succ_comm in Hfull. exact Hfull.
    + apply Forall_app. split; [|exact Hfm].
      eapply Forall_impl; [exact Hall|]. intros obj Hobj.
      eapply fromPool_fromMap;
        [exact Hpools|exact (Hkeys cat ltac:(left))|exact Hget|exact Hobj].
Qed.

(** When every chunk fits the argument limit the [forEach] of Distributed
    mode returns. *)
Lemma distributeLoop_ok (argumentLimit : nat) cfg data searchTerms filteredMap base remainder
    allowDuplicates :
  poolsOf data searchTerms filteredMap ->
  (0 <= base)%Z ->
  forall cats index result r,
    (forall cat, cat ∈ cats -> cat ∈ mapKeys filteredMap) ->
    (forall j cat pool,
        cats !! j = Some cat ->
        mapGet filteredMap cat = Some pool ->
        contribution pool (shareAt base remainder (index + j)) allowDuplicates
        <= argumentLimit) ->
    exists chunks r',
      distributeLoop argumentLimit cfg filteredMap base remainder allowDuplicates cats index
        result r
      = Return ((result ++ concat chunks)%list, r')
      /\ length chunks = length cats
      /\ (forall j cat,
            cats !! j = Some cat ->
            exists pool chunk,
              mapGet filteredMap cat = Some pool
              /\ chunks !! j = Some chunk
              /\ length chunk
                 = contribution pool (shareAt base remainder (index + j))
                     allowDuplicates
              /\ Forall (fromPool cfg pool cat) chunk)
      /\ (Z.of_nat (length (concat chunks))
          <= sharesSum base remainder index (length cats))%Z
      /\ (allowDuplicates = true
          \/ (forall j cat pool,
                cats !! j = Some cat ->
                mapGet filteredMap cat = Some pool ->
                (shareAt base remainder (index + j)
                 <= Z.of_nat (length pool))%Z) ->
          Z.of_nat (length (concat chunks))
          = sharesSum base remainder index (length cats)).
Proof.
  intros Hpools Hbase cats index result r Hkeys Hfit.
  destruct (distributeLoop_run argumentLimit cfg data searchTerms filteredMap
              base remainder allowDuplicates Hpools Hbase cats index result r
              Hkeys)
    as [(chunks & r' & Hloop & Hlc & Hper & Hle & Heq & _)
       |(_ & j & c & p & Hj & Hp & Hover)].
  - exists chunks, r'. split; [exact Hloop|]. split; [exact Hlc|].
    split; [|split; assumption].
    intros j c Hj. destruct (Hper j c Hj) as (p & ch & H1 & H2 & H3 & _ & H5).
    exists p, ch. repeat split; assumption.
  - specialize (Hfit j c p Hj Hp). lia.
Qed.

(** The [forEach] of Distributed mode throws a [RangeError] when some
    category's chunk has more objects than the engine accepts as
    arguments. *)
Lemma distributeLoop_overflow (argumentLimit : nat) cfg data searchTerms filteredMap base
    remainder allowDuplicates :
  poolsOf data searchTerms filteredMap ->
  (0 <= base)%Z ->
  forall cats index result r,
    (forall cat, cat ∈ cats -> cat ∈ mapKeys filteredMap) ->
    (exists j cat pool,
        cats !! j = Some cat
        /\ mapGet filteredMap cat = Some pool
        /\ argumentLimit
           < contribution pool (shareAt base remainder (index + j))
               allowDuplicates) ->
    distributeLoop argumentLimit cfg filteredMap base remainder allowDuplicates cats index
      result r
    = Throw RangeError.
Proof.
  intros Hpools Hbase cats index result r Hkeys (j & c & p & Hj & Hp & Hover).
  destruct (distributeLoop_run argumentLimit cfg data searchTerms filteredMap
              base remainder allowDuplicates Hpools Hbase cats index result r
              Hkeys)
    as [(chunks & r' & _ & _ & Hper & _)|[Hloop _]]; [|exact Hloop].
  destruct (Hper j c Hj) as (p' & ch & H1 & _ & H3 & H4 & _).
  rewrite Hp in H1. injection H1 as <-. lia.
Qed.

Lemma lookup_mapKeys (m : CategoryMap) j cat :
  mapKeys m !! j = Some cat -> exists pool, m !! j = Some (cat, pool).
Proof.
  unfold mapKeys. rewrite list_lookup_fmap.
  destruct (m !! j) as [[c pool]|]; [|discriminate].
  intros [= <-]. exists pool. reflexivity.
Qed.

Lemma selectDistributedMode_nonempty (argumentLimit : nat) cfg data amount categories searchTerms
    allowDuplicates :
  mapKeys (buildSearchFilteredCategories data categories searchTerms) <> [] ->
  selectDistributedMode argumentLimit cfg data amount categories searchTerms allowDuplicates
  = distributeLoop argumentLimit cfg
      (buildSearchFilteredCategories data categories searchTerms)
      (amount
       / Z.of_nat
           (length
              (mapKeys
                 (buildSearchFilteredCategories data categories searchTerms))))
      (Z.rem amount
         (Z.of_nat
            (length
               (mapKeys
                  (buildSearchFilteredCategories data categories searchTerms)))))
      allowDuplicates
      (mapKeys (buildSearchFilteredCategories data categories searchTerms))
      0 [].
Proof.
  intros H. unfold selectDistributedMode.
  destruct (mapKeys (buildSearchFilteredCategories data categories searchTerms));
    [congruence|reflexivity].
Qed.

Lemma categoryShare_fits argumentLimit pool amount n j allowDuplicates :
  (1 <= amount)%Z -> 0 < n ->
  Z.to_nat amount <= argumentLimit ->
  contribution pool (categoryShare amount n j) allowDuplicates <= argumentLimit.
Proof.
  intros Ha Hn Hfit.
  assert (Hb : (0 <= amount / Z.of_nat n)%Z) by (apply Z.div_pos; lia).
  pose proof (contribution_le pool (categoryShare amount n j) allowDuplicates
                (shareAt_nonneg _ _ _ Hb)) as Hc.
  assert (Hs : (categoryShare amount n j <= amount)%Z).
  { unfold categoryShare, shareAt.
    pose proof (Z.mod_pos_bound amount (Z.of_nat n) ltac:(lia)) as Hm.
    pose proof (Z.div_mod amount (Z.of_nat n) ltac:(lia)) as Hd.
    destruct (Z.ltb_spec (Z.of_nat j) (amount mod Z.of_nat n)); nia. }
  lia.
Qed.

(** X28. Distributed mode on a request whose chunks all fit the engine's
    argument limit. For an amount of at least 1 and [n >= 1] surviving
    categories the engine returns one chunk per surviving category,
    taken in their insertion order (the order of first occurrence in the
    request): the chunk at position [j] is drawn by the sampling primitive
    from that category's filtered pool with the sub-amount
    [floor(amount / n) + 1] when [j < amount mod n] and [floor(amount / n)]
    otherwise, so it has that many items when duplicates are allowed and
    that many capped by the pool size when not. The total length is at most
    the amount, and equals it when duplicates are allowed or no pool is
    smaller than its share. An amount within the limit is enough for every
    chunk to fit. *)
Theorem distributed_mode_shares (argumentLimit : nat)
    (cfg : IntentConfig) (data : Catalog) (amount : Z)
    (categories searchTerms : list string) (allowDuplicates : bool)
    (r : RandomSource) (filteredMap : CategoryMap) :
  filteredMap = buildSearchFilteredCategories data categories searchTerms ->
  (1 <= amount)%Z ->
  1 <= length filteredMap ->
  (Z.to_nat amount <= argumentLimit
   \/ forall j cat pool,
        filteredMap !! j = Some (cat, pool) ->
        contribution pool (categoryShare amount (length filteredMap) j)
          allowDuplicates
        <= argumentLimit) ->
  exists chunks r',
    selectDistributedMode argumentLimit cfg data amount categories searchTerms
      allowDuplicates r
    = Return (concat chunks, r')
    /\ mapKeys filteredMap = survivingCategories data searchTerms categories
    /\ length chunks = length filteredMap
    /\ (forall j cat pool,
          filteredMap !! j = Some (cat, pool) ->
          filteredPool data searchTerms cat = Some pool
          /\ exists chunk,
               chunks !! j = Some chunk
               /\ length chunk
                  = contribution pool
                      (categoryShare amount (length filteredMap) j)
                      allowDuplicates
               /\ Forall (fromPool cfg pool cat) chunk)
    /\ (Z.of_nat (length (concat chunks)) <= amount)%Z
    /\ (allowDuplicates = true
        \/ (forall j cat pool,
              filteredMap !! j = Some (cat, pool) ->
              (categoryShare amount (length filteredMap) j
               <= Z.of_nat (length pool))%Z) ->
        Z.of_nat (length (concat chunks)) = amount).
Proof.
  intros Hm Ha Hn Hfit.
  pose proof (buildSearchFilteredCategories_pools data categories searchTerms)
    as Hpools.
  rewrite <- Hm in Hpools.
  assert (Hlen : length (mapKeys filteredMap) = length filteredMap)
    by apply length_map.
  assert (Hrem : Z.rem amount (Z.of_nat (length (mapKeys filteredMap)))
                 = (amount mod Z.of_nat (length filteredMap))%Z).
  { rewrite Hlen. apply Z.rem_mod_nonneg; lia. }
  assert (Hbase : (0 <= amount / Z.of_nat (length filteredMap))%Z)
    by (apply Z.div_pos; lia).
  assert (Hentry : forall j cat pool,
             mapKeys filteredMap !! j = Some cat ->
             mapGet filteredMap cat = Some pool ->
             filteredMap !! j = Some (cat, pool)).
  { intros j cat pool Hj Hget.
    destruct (lookup_mapKeys _ _ _ Hj) as [pool' Hj'].
    assert (Hget' : mapGet filteredMap cat = Some pool').
    { apply mapGet_entry; [apply Hpools|].
      apply list_elem_of_lookup. exists j. exact Hj'. }
    rewrite Hget' in Hget. injection Hget as <-. exact Hj'. }
  destruct (distributeLoop_ok argumentLimit cfg data searchTerms filteredMap
              (amount / Z.of_nat (length filteredMap))
              (amount mod Z.of_nat (length filteredMap)) allowDuplicates
              Hpools Hbase (mapKeys filteredMap) 0 [] r (fun _ H => H))
    as (chunks & r' & Hrun & Hlc & Hper & Hle & Heq).
  { intros j cat pool Hj Hget. cbn [Nat.add].
    destruct Hfit as [Hfit|Hfit].
    - apply categoryShare_fits; [exact Ha|lia|exact Hfit].
    - exact (Hfit j cat pool (Hentry j cat pool Hj Hget)). }
  rewrite Hlen, sharesSum_amount in Hle, Heq by lia.
  exists chunks, r'.
  split.
  { rewrite selectDistributedMode_nonempty, <- Hm;
      [|rewrite <- Hm; destruct filteredMap; [simpl in Hn; lia|discriminate]].
    rewrite Hrem, Hlen. exact Hrun. }
  split; [rewrite Hm; apply buildSearchFilteredCategories_keys|].
  split; [lia|]. split; [|split; [exact Hle|]].
  - intros j cat pool Hj.
    assert (Hkj : mapKeys filteredMap !! j = Some cat).
    { unfold mapKeys. rewrite list_lookup_fmap, Hj. reflexivity. }
    destruct (Hper j cat Hkj) as (pool' & chunk & Hget & Hc & Hl & Hf).
    assert (Hget' : mapGet filteredMap cat = Some pool).
    { apply mapGet_entry; [apply Hpools|].
      apply list_elem_of_lookup. exists j. exact Hj. }
    rewrite Hget' in Hget. injection Hget as <-.
    split.
    + destruct Hpools as [_ Hall]. rewrite Forall_forall in Hall.
      apply (Hall (cat, pool)). apply list_elem_of_lookup. exists j. exact Hj.
    + exists chunk. repeat split; assumption.
  - intros Hfull. apply Heq. destruct Hfull as [->|Hfull]; [left; reflexivity|].
    right. intros j cat pool Hj Hget.
    exact (Hfull j cat pool (Hentry j cat pool Hj Hget)).
Qed.

Lemma distributed_mode_shares_witness :
  ((1 <= 3)%Z
   /\ 1 <= length (buildSearchFilteredCategories sampleCatalog
                     ["hug"; "waifu"] [])
   /\ Z.to_nat 3 <= sampleArgumentLimit)
  /\ exists chunks r',
       selectDistributedMode sampleArgumentLimit sampleConfig sampleCatalog 3
         ["hug"; "waifu"] [] false zeroSource
       = Return (concat chunks, r')
       /\ List.map resp_action (concat chunks) = ["hug"; "hug"; "waifu"].
Proof.
  assert (H1 : (1 <= 3)%Z) by (apply Z.leb_le; reflexivity).
  assert (H2 : 1 <= length (buildSearchFilteredCategories sampleCatalog
                              ["hug"; "waifu"] []))
    by (vm_compute; repeat constructor).
  assert (H3 : Z.to_nat 3 <= sampleArgumentLimit)
    by (unfold sampleArgumentLimit; lia).
  split; [split; [exact H1|split; [exact H2|exact H3]]|].
  destruct (distributed_mode_shares sampleArgumentLimit sampleConfig
              sampleCatalog 3 ["hug"; "waifu"] [] false zeroSource _ eq_refl
              H1 H2 (or_introl H3))
    as (chunks & r' & Hrun & _).
  exists chunks, r'. split; [exact Hrun|].
  let v := eval vm_compute in
             (selectDistributedMode sampleArgumentLimit sampleConfig sampleCatalog 3
                ["hug"; "waifu"] [] false zeroSource) in
  assert (E : selectDistributedMode sampleArgumentLimit sampleConfig sampleCatalog 3
                ["hug"; "waifu"] [] false zeroSource = v)
    by (vm_compute; reflexivity).
  rewrite E in Hrun. injection Hrun as <- _. reflexivity.
Defined.

(** C5. Distributed mode does not serve every validated request. With
    duplicates allowed, [n >= 1] surviving categories and an amount above
    [n] times the number of arguments the engine accepts in one call, the
    share of the first category is above that number, its chunk has as many
    objects, and [result.push(...items)] throws a [RangeError]: the call ends
    in that exception instead of returning [amount] objects. *)
Theorem distributed_mode_overflows_argument_limit (argumentLimit : nat)
    (cfg : IntentConfig) (data : Catalog) (amount : Z)
    (categories searchTerms : list string) (r : RandomSource)
    (filteredMap : CategoryMap) :
  filteredMap = buildSearchFilteredCategories data categories searchTerms ->
  1 <= length filteredMap ->
  (Z.of_nat argumentLimit * Z.of_nat (length filteredMap) < amount)%Z ->
  selectDistributedMode argumentLimit cfg data amount categories searchTerms
    true r
  = Throw RangeError.
Proof.
  intros Hm Hn Hbig.
  pose proof (buildSearchFilteredCategories_pools data categories searchTerms)
    as Hpools.
  rewrite <- Hm in Hpools.
  assert (Hlen : length (mapKeys filteredMap) = length filteredMap)
    by apply length_map.
  rewrite selectDistributedMode_nonempty, <- Hm;
    [|rewrite <- Hm; destruct filteredMap; [simpl in Hn; lia|discriminate]].
  assert (Hnpos : (0 < Z.of_nat (length filteredMap))%Z) by lia.
  assert (Hamount : (0 <= amount)%Z) by lia.
  assert (Hbase : (0 <= amount / Z.of_nat (length (mapKeys filteredMap)))%Z)
    by (rewrite Hlen; apply Z.div_pos; lia).
  apply (distributeLoop_overflow argumentLimit cfg data searchTerms filteredMap
           _ _ true Hpools Hbase (mapKeys filteredMap) 0 [] r (fun _ H => H)).
  clear Hbase.
  destruct filteredMap as [|[cat pool] rest] eqn:Hfm; [simpl in Hn; lia|].
  rewrite <- Hfm in *.
  assert (H0 : filteredMap !! 0 = Some (cat, pool)) by (rewrite Hfm; reflexivity).
  exists 0, cat, pool.
  split; [unfold mapKeys; rewrite list_lookup_fmap, H0; reflexivity|].
  split.
  { apply mapGet_entry; [apply Hpools|].
    apply list_elem_of_lookup. exists 0. exact H0. }
  rewrite Hlen. unfold contribution, shareAt. cbn [Nat.add].
  set (n := Z.of_nat (length filteredMap)) in *.
  rewrite Z.rem_mod_nonneg by lia.
  pose proof (Z.mod_pos_bound amount n Hnpos) as Hmod.
  pose proof (Z.div_mod amount n ltac:(lia)) as Hd.
  destruct (Z.ltb_spec (Z.of_nat 0) (amount mod n)) as [Hlt|Hge]; nia.
Qed.

Lemma distributed_mode_overflows_argument_limit_witness :
  (1 <= length (buildSearchFilteredCategories sampleCatalog ["hug"] [])
   /\ (Z.of_nat sampleArgumentLimit
       * Z.of_nat (length (buildSearchFilteredCategories sampleCatalog
                             ["hug"] []))
       < 500000)%Z)
  /\ selectDistributedMode sampleArgumentLimit sampleConfig sampleCatalog
       500000 ["hug"] [] true zeroSource
     = Throw RangeError.
Proof.
  assert (H1 : 1 <= length (buildSearchFilteredCategories sampleCatalog
                              ["hug"] []))
    by (vm_compute; repeat constructor).
  assert (H2 : (Z.of_nat sampleArgumentLimit
                * Z.of_nat (length (buildSearchFilteredCategories sampleCatalog
                                      ["hug"] []))
                < 500000)%Z).
  { assert (E : length (buildSearchFilteredCategories sampleCatalog ["hug"] [])
                = 1) by (vm_compute; reflexivity).
    rewrite E. unfold sampleArgumentLimit. lia. }
  split; [split; [exact H1|exact H2]|].
  exact (distributed_mode_overflows_argument_limit sampleArgumentLimit
           sampleConfig sampleCatalog 500000 ["hug"] [] zeroSource _ eq_refl
           H1 H2).
Defined.

(* ========================================================================= *)
(** * Properties of Random mode                                              *)
(* ========================================================================= *)


(** The retry loop never throws on a non-empty pool and calls [Math.random]
    once per attempt made. It ends with an object whose URL is not yet
    used, or with nothing after every attempt hit a used URL. *)
Lemma drawUnique_ok cfg pool category (usedUrls : gset string) :
  pool <> [] ->
  forall k r,
  exists found a,
    drawUnique cfg pool category usedUrls k r
    = Return (found, Nat.iter a advance r)
    /\ a <= k
    /\ match found with
       | Some (obj, u) =>
           (u ∉ usedUrls)
           /\ resp_url obj = u /\ fromPool cfg pool category obj
       | None =>
           a = k
           /\ forall j, j < k ->
                exists item,
                  pool !! indexBelow (length pool)
                            (nextDraw (Nat.iter j advance r))
                  = Some item
                  /\ constructFullUrl (url item) ∈ usedUrls
       end.
Proof.
  intros Hne. induction k as [|k IH]; intros r.
  - exists None, 0. cbn [drawUnique Nat.iter]. split; [reflexivity|].
    split; [lia|]. split; [reflexivity|]. intros j Hj. lia.
  - cbn [drawUnique]. rewrite rbind_randomBelow.
    assert (Hlt : indexBelow (length pool) (nextDraw r) < length pool).
    { apply indexBelow_lt. destruct pool; [congruence|simpl; lia]. }
    destruct (lookup_lt_is_Some_2 pool _ Hlt) as [item Hitem].
    rewrite Hitem.
    destruct (bool_decide (constructFullUrl (url item) ∈ usedUrls)) eqn:Hu.
    + apply bool_decide_eq_true in Hu.
      destruct (IH (advance r)) as (found & a & Hrun & Ha & Hf).
      exists found, (S a). rewrite Nat.iter_succ_r.
      split; [exact Hrun|]. split; [lia|].
      destruct found as [[obj u]|]; [exact Hf|].
      destruct Hf as [-> Hhits]. split; [reflexivity|].
      intros [|j] Hj.
      * exists item. split; [exact Hitem|exact Hu].
      * rewrite Nat.iter_succ_r. apply Hhits. lia.
    + apply bool_decide_eq_false in Hu.
      exists (Some (createResponseObject cfg item category,
                    constructFullUrl (url item))), 1.
      split; [reflexivity|]. split; [lia|].
      split; [exact Hu|]. split; [reflexivity|].
      eapply fromPool_lookup. exact Hitem.
Qed.

(** The [for] loop of Random mode with duplicates disallowed, over the
    categories of a filtered map: it never throws, appends at most one
    object per iteration, keeps the URLs of the result pairwise distinct,
    and stops short only when its last draw exhausted its attempts. *)
Lemma randomLoop_unique_ok cfg data searchTerms filteredMap :
  poolsOf data searchTerms filteredMap ->
  mapKeys filteredMap <> [] ->
  forall n result (usedUrls : gset string) r,
    (forall u, u ∈ usedUrls <-> u ∈ List.map resp_url result) ->
    NoDup (List.map resp_url result) ->
    exists out r',
      randomLoop cfg filteredMap (mapKeys filteredMap) false n result usedUrls r
      = Return ((result ++ out)%list, r')
      /\ length out <= n
      /\ NoDup (List.map resp_url (result ++ out))
      /\ (exists m, r' = Nat.iter m advance r /\ m <= n * S MAX_RETRY_ATTEMPTS)
      /\ Forall (fromMap cfg filteredMap) out
      /\ (length out < n ->
          lastDrawExhausted filteredMap (List.map resp_url (result ++ out))
            r r').
Proof.
  intros Hpools Hkeys. induction n as [|n IH]; intros result usedUrls r Hused Hnd.
  - exists [], r. cbn [randomLoop]. rewrite app_nil_r.
    split; [reflexivity|]. split; [simpl; lia|]. split; [exact Hnd|].
    split; [exists 0; split; [reflexivity|lia]|].
    split; [constructor|]. simpl. lia.
  - cbn [randomLoop]. rewrite rbind_randomBelow.
    set (c := indexBelow (length (mapKeys filteredMap)) (nextDraw r)).
    assert (Hc : c < length (mapKeys filteredMap)).
    { apply indexBelow_lt. destruct (mapKeys filteredMap); [congruence|].
      simpl. lia. }
    destruct (lookup_lt_is_Some_2 (mapKeys filteredMap) _ Hc) as [cat Hcat].
    rewrite Hcat.
    assert (Hin : cat ∈ mapKeys filteredMap).
    { apply list_elem_of_lookup. exists c. exact Hcat. }
    destruct (mapGet_key _ _ _ cat Hpools Hin) as (pool & Hget & _ & Hne).
    rewrite Hget. cbn [negb]. rewrite rbind_run.
    destruct (drawUnique_ok cfg pool cat usedUrls Hne MAX_RETRY_ATTEMPTS
                (advance r)) as (found & a & Hrun & Ha & Hfound).
    rewrite Hrun. rewrite <- Nat.iter_succ_r. destruct found as [[obj u]|].
    + destruct Hfound as (Hu & Hurl & Hfp).
      destruct (IH (result ++ [obj])%list ({[u]} ∪ usedUrls)
                  (Nat.iter (S a) advance r))
        as (out & r' & Hloop & Hlen & Hnd' & (m & Hr' & Hm) & Hall & Htrunc).
      { intros x. rewrite List.map_app, elem_of_app, elem_of_union,
          elem_of_singleton, Hused. simpl.
        rewrite list_elem_of_singleton, Hurl. tauto. }
      { rewrite List.map_app. apply NoDup_app. split; [exact Hnd|].
        split; [|apply NoDup_singleton]. simpl.
        intros x Hx Hx'. apply list_elem_of_singleton in Hx'. subst x.
        apply Hu. apply Hused. rewrite <- Hurl. exact Hx. }
      exists (obj :: out), r'. rewrite Hloop, <- app_assoc. cbn [app].
      split; [reflexivity|]. split; [simpl; lia|].
      rewrite <- app_assoc in Hnd'. split; [exact Hnd'|].
      split.
      { exists (m + S a). rewrite Nat.iter_add.
        split; [exact Hr'|unfold MAX_RETRY_ATTEMPTS in *; lia]. }
      split; [constructor; [exists cat, pool; split; [|exact Hfp]|exact Hall]|].
      { destruct (lookup_mapKeys _ _ _ Hcat) as [pool' Hj].
        assert (mapGet filteredMap cat = Some pool') as Hget'.
        { apply mapGet_entry; [apply Hpools|].
          apply list_elem_of_lookup. exists c. exact Hj. }
        rewrite Hget' in Hget. injection Hget as <-.
        apply list_elem_of_lookup. exists c. exact Hj. }
      intros Hlt. rewrite <- app_assoc in Htrunc.
      destruct Htrunc as (k & cat' & pool' & Hk & Hg & Hhits & Hend);
        [simpl in Hlt; lia|].
      exists (k + S a), cat', pool'.
      rewrite <- Nat.iter_add in Hk.
      split; [exact Hk|]. split; [exact Hg|]. split.
      * intros j Hj. specialize (Hhits j Hj).
        rewrite <- Nat.iter_add in Hhits. exact Hhits.
      * rewrite <- Nat.iter_add in Hend. rewrite Hend. f_equal. lia.
    + destruct Hfound as [-> Hhits].
      exists [], (Nat.iter (S MAX_RETRY_ATTEMPTS) advance r). rewrite app_nil_r.
      split; [reflexivity|]. split; [simpl; lia|]. split; [exact Hnd|].
      split; [exists (S MAX_RETRY_ATTEMPTS); split; [reflexivity|lia]|].
      split; [constructor|]. intros _.
      exists 0, cat, pool. split; [exact Hcat|]. split; [exact Hget|].
      split; [|reflexivity].
      intros j Hj. destruct (Hhits j Hj) as (item & Hitem & Huse).
      exists item. split; [exact Hitem|]. apply Hused. exact Huse.
Qed.



(* ========================================================================= *)
(** * The amount through the three modes                                     *)
(* ========================================================================= *)

(** The sampling primitive on a category of the filtered map. *)
Lemma getRandomItemsOf_ok cfg data searchTerms filteredMap cat count
    allowDuplicates r :
  poolsOf data searchTerms filteredMap ->
  cat ∈ mapKeys filteredMap ->
  exists pool out r',
    (mapGet filteredMap cat = Some pool
     /\ filteredPool data searchTerms cat = Some pool)
    /\ getRandomItemsOf cfg filteredMap cat count allowDuplicates r
       = Return (out, r')
    /\ length out = contribution pool count allowDuplicates
    /\ Forall (fromPool cfg pool cat) out
    /\ Forall (fromMap cfg filteredMap) out.
Proof.
  intros Hpools Hk.
  destruct (mapGet_key _ _ _ cat Hpools Hk) as (pool & Hget & Hfp & Hne).
  destruct (getRandomItems_ok cfg pool count cat allowDuplicates r Hne)
    as (out & r' & Hrun & Hlen & Hall & _).
  exists pool, out, r'. unfold getRandomItemsOf. rewrite Hget.
  split; [split; [reflexivity|exact Hfp]|]. split; [exact Hrun|].
  split; [exact Hlen|].
  split; [exact Hall|].
  eapply Forall_impl; [exact Hall|]. intros obj Hobj.
  eapply fromPool_fromMap; eassumption.
Qed.

(** The [for] loop of Random mode with duplicates allowed: one object per
    iteration, after two calls of [Math.random]. *)
Lemma randomLoop_duplicates_ok cfg data searchTerms filteredMap :
  poolsOf data searchTerms filteredMap ->
  mapKeys filteredMap <> [] ->
  forall n result (usedUrls : gset string) r,
    exists out r',
      randomLoop cfg filteredMap (mapKeys filteredMap) true n result usedUrls r
      = Return ((result ++ out)%list, r')
      /\ length out = n
      /\ Forall (fromMap cfg filteredMap) out
      /\ calls r' = calls r + 2 * n.
Proof.
  intros Hpools Hkeys. induction n as [|n IH]; intros result usedUrls r.
  - exists [], r. cbn [randomLoop]. rewrite app_nil_r.
    split; [reflexivity|]. split; [reflexivity|]. split; [constructor|lia].
  - cbn [randomLoop]. rewrite rbind_randomBelow.
    set (c := indexBelow (length (mapKeys filteredMap)) (nextDraw r)).
    assert (Hc : c < length (mapKeys filteredMap)).
    { apply indexBelow_lt. destruct (mapKeys filteredMap); [congruence|].
      simpl. lia. }
    destruct (lookup_lt_is_Some_2 (mapKeys filteredMap) _ Hc) as [cat Hcat].
    rewrite Hcat.
    assert (Hin : cat ∈ mapKeys filteredMap).
    { apply list_elem_of_lookup. exists c. exact Hcat. }
    destruct (mapGet_key _ _ _ cat Hpools Hin) as (pool & Hget & _ & Hne).
    rewrite Hget. rewrite rbind_randomBelow.
    assert (Hlt : indexBelow (length pool) (nextDraw (advance r)) < length pool).
    { apply indexBelow_lt. destruct pool; [congruence|simpl; lia]. }
    destruct (lookup_lt_is_Some_2 pool _ Hlt) as [item Hitem].
    rewrite Hitem. cbn [createResponseObjectAt]. rewrite rbind_rlift_Return.
    destruct (IH (result ++ [createResponseObject cfg item cat])%list usedUrls
                (advance (advance r))) as (out & r' & Hloop & Hlen & Hall & Hcalls).
    exists (createResponseObject cfg item cat :: out), r'.
    rewrite Hloop, <- app_assoc. split; [reflexivity|].
    split; [simpl; lia|]. split; [|rewrite Hcalls; simpl; lia].
    constructor; [|exact Hall].
    eapply fromPool_fromMap; [exact Hpools|exact Hin|exact Hget|].
    eapply fromPool_lookup. exact Hitem.
Qed.

Lemma itemsOf_wrapResult params result :
  itemsOf (wrapResult params result) = result.
Proof.
  unfold wrapResult. destruct (p_amount params =? 1)%Z; [|reflexivity].
  destruct result as [|x [|y l]]; reflexivity.
Qed.

(** The [forEach] of Each mode over categories of the filtered map. Either
    every chunk fits the argument limit, and the loop appends one chunk per
    category, drawn from its pool with the whole amount; or some chunk has
    more objects than the engine accepts as arguments, and the loop throws
    a [RangeError]. *)
Lemma eachLoop_run (argumentLimit : nat) cfg data searchTerms filteredMap amount
    allowDuplicates :
  poolsOf data searchTerms filteredMap ->
  forall cats result r,
    (forall cat, cat ∈ cats -> cat ∈ mapKeys filteredMap) ->
    (exists chunks r',
        eachLoop argumentLimit cfg filteredMap amount allowDuplicates cats
          result r
        = Return ((result ++ concat chunks)%list, r')
        /\ Forall2 (fun cat chunk =>
                      exists pool,
                        filteredPool data searchTerms cat = Some pool
                        /\ mapGet filteredMap cat = Some pool
                        /\ length chunk
                           = contribution pool amount allowDuplicates
                        /\ length chunk <= argumentLimit
                        /\ Forall (fromPool cfg pool cat) chunk)
             cats chunks
        /\ Forall (fromMap cfg filteredMap) (concat chunks))
    \/ (eachLoop argumentLimit cfg filteredMap amount allowDuplicates cats
          result r
        = Throw RangeError
        /\ exists cat pool,
             cat ∈ cats
             /\ mapGet filteredMap cat = Some pool
             /\ argumentLimit < contribution pool amount allowDuplicates).
Proof.
  intros Hpools. induction cats as [|cat cats IH]; intros result r Hkeys.
  - left. exists [], r. cbn [eachLoop concat]. rewrite app_nil_r.
    split; [reflexivity|]. split; constructor.
  - cbn [eachLoop]. rewrite rbind_run.
    destruct (getRandomItemsOf_ok cfg data searchTerms filteredMap cat amount
                allowDuplicates r Hpools (Hkeys cat ltac:(left)))
      as (pool & chunk & r1 & [Hget Hfp] & Hrun & Hlen & Hall & Hfm).
    rewrite Hrun. rewrite rbind_run.
    destruct (Nat.le_gt_cases (length chunk) argumentLimit) as [Hfit|Hbig].
    2:{ right. rewrite (pushSpread_overflow _ _ _ _ Hbig).
        split; [reflexivity|]. exists cat, pool.
        split; [left|]. split; [exact Hget|]. rewrite <- Hlen. exact Hbig. }
    rewrite (pushSpread_fits _ _ _ _ Hfit).
    destruct (IH (result ++ chunk)%list r1)
      as [(chunks & r' & Hloop & Hper & Hout)|(Hloop & c & p & Hc & Hp & Hover)].
    { intros c Hc. apply Hkeys. right. exact Hc. }
    2:{ right. split; [exact Hloop|]. exists c, p.
        split; [right; exact Hc|]. auto. }
    left. exists (chunk :: chunks), r'. rewrite Hloop. cbn [concat].
    rewrite <- app_assoc. split; [reflexivity|].
    split; [constructor; [exists pool; auto|exact Hper]|].
    apply Forall_app. split; assumption.
Qed.

(** When every chunk fits the argument limit the [forEach] of Each mode
    returns: one chunk per category, drawn from its pool with the whole
    amount. *)
Lemma eachLoop_ok (argumentLimit : nat) cfg data searchTerms filteredMap amount
    allowDuplicates :
  poolsOf data searchTerms filteredMap ->
  forall cats result r,
    (forall cat, cat ∈ cats -> cat ∈ mapKeys filteredMap) ->
    (forall cat pool,
        cat ∈ cats ->
        mapGet filteredMap cat = Some pool ->
        contribution pool amount allowDuplicates <= argumentLimit) ->
    exists chunks r',
      eachLoop argumentLimit cfg filteredMap amount allowDuplicates cats result r
      = Return ((result ++ concat chunks)%list, r')
      /\ Forall2 (fun cat chunk =>
                    exists pool,
                      filteredPool data searchTerms cat = Some pool
                      /\ length chunk = contribution pool amount allowDuplicates
                      /\ Forall (fromPool cfg pool cat) chunk)
           cats chunks
      /\ Forall (fromMap cfg filteredMap) (concat chunks).
Proof.
  intros Hpools cats result r Hkeys Hfit.
  destruct (eachLoop_run argumentLimit cfg data searchTerms filteredMap amount
              allowDuplicates Hpools cats result r Hkeys)
    as [(chunks & r' & Hloop & Hper & Hout)|(_ & c & p & Hc & Hp & Hover)].
  - exists chunks, r'. split; [exact Hloop|]. split; [|exact Hout].
    eapply Forall2_impl; [exact Hper|].
    intros cat chunk (pool & H1 & _ & H3 & _ & H5). exists pool. auto.
  - specialize (Hfit c p Hc Hp). lia.
Qed.

(** The [forEach] of Each mode throws a [RangeError] when some category's
    chunk has more objects than the engine accepts as arguments. *)
Lemma eachLoop_overflow (argumentLimit : nat) cfg data searchTerms filteredMap amount
    allowDuplicates :
  poolsOf data searchTerms filteredMap ->
  forall cats result r,
    (forall cat, cat ∈ cats -> cat ∈ mapKeys filteredMap) ->
    (exists cat pool,
        cat ∈ cats
        /\ mapGet filteredMap cat = Some pool
        /\ argumentLimit < contribution pool amount allowDuplicates) ->
    eachLoop argumentLimit cfg filteredMap amount allowDuplicates cats result r
    = Throw RangeError.
Proof.
  intros Hpools cats result r Hkeys (c & p & Hc & Hp & Hover).
  destruct (eachLoop_run argumentLimit cfg data searchTerms filteredMap amount
              allowDuplicates Hpools cats result r Hkeys)
    as [(chunks & r' & _ & Hper & _)|[Hloop _]]; [|exact Hloop].
  exfalso. clear -Hper Hc Hp Hover.
  induction Hper as [|cat chunk cats chunks (pool & _ & Hg & Hl & Hf & _) _ IH].
  - inversion Hc.
  - apply elem_of_cons in Hc as [->|Hc]; [|exact (IH Hc)].
    rewrite Hp in Hg. injection Hg as <-. lia.
Qed.

Lemma selectRandomMode_duplicates_length cfg data amount categories
    searchTerms r out r' :
  selectRandomMode cfg data amount categories searchTerms true r
  = Return (out, r') ->
  length out
  = expectedWithDuplicates (ModeStr RANDOM) amount
      (length (buildSearchFilteredCategories data categories searchTerms)).
Proof.
  intros H.
  pose proof (buildSearchFilteredCategories_pools data categories searchTerms)
    as Hpools.
  unfold selectRandomMode in H.
  destruct (buildSearchFilteredCategories data categories searchTerms)
    as [|[c1 p1] [|e2 m]] eqn:Hm.
  - injection H as <- _. reflexivity.
  - destruct (getRandomItemsOf_ok cfg _ _ _ c1 amount true r Hpools
                ltac:(left))
      as (pool & out' & r1 & _ & Hrun & Hlen & _).
    change (getRandomItemsOf cfg [(c1, p1)] c1 amount true r
            = Return (out, r')) in H.
    rewrite Hrun in H. injection H as <- _. exact Hlen.
  - destruct (randomLoop_duplicates_ok cfg _ _ _ Hpools ltac:(discriminate)
                (Z.to_nat amount) [] ∅ r)
      as (out' & r1 & Hrun & Hlen & _).
    change (randomLoop cfg ((c1, p1) :: e2 :: m)
              (mapKeys ((c1, p1) :: e2 :: m)) true (Z.to_nat amount) [] ∅ r
            = Return (out, r')) in H.
    rewrite Hrun in H. injection H as <- _. exact Hlen.
Qed.

Lemma selectDistributedMode_duplicates_length argumentLimit cfg data amount
    categories searchTerms r out r' :
  (1 <= amount)%Z ->
  selectDistributedMode argumentLimit cfg data amount categories searchTerms
    true r
  = Return (out, r') ->
  length out
  = expectedWithDuplicates (ModeStr DISTRIBUTED) amount
      (length (buildSearchFilteredCategories data categories searchTerms)).
Proof.
  intros Ha H.
  pose proof (buildSearchFilteredCategories_pools data categories searchTerms)
    as Hpools.
  set (filteredMap := buildSearchFilteredCategories data categories searchTerms)
    in *.
  assert (Hlen : length (mapKeys filteredMap) = length filteredMap)
    by apply length_map.
  destruct (length filteredMap) as [|n] eqn:Hn.
  - unfold selectDistributedMode in H. fold filteredMap in H.
    destruct filteredMap; [|discriminate Hn].
    injection H as <- _. reflexivity.
  - rewrite selectDistributedMode_nonempty in H
      by (fold filteredMap; destruct filteredMap; [discriminate Hn|discriminate]).
    fold filteredMap in H. rewrite Hlen in H.
    assert (Hbase : (0 <= amount / Z.of_nat (S n))%Z) by (apply Z.div_pos; lia).
    destruct (distributeLoop_run argumentLimit cfg data searchTerms filteredMap
                (amount / Z.of_nat (S n)) (Z.rem amount (Z.of_nat (S n))) true
                Hpools Hbase (mapKeys filteredMap) 0 [] r (fun _ Hx => Hx))
      as [(chunks & r1 & Hloop & _ & _ & _ & Heq & _)|[Hloop _]];
      [|rewrite Hloop in H; discriminate H].
    rewrite Hloop in H. injection H as <- _.
    specialize (Heq (or_introl eq_refl)).
    rewrite Hlen, Z.rem_mod_nonneg, sharesSum_amount in Heq by lia.
    cbn [expectedWithDuplicates Nat.eqb app]. lia.
Qed.

Lemma selectEachMode_duplicates_length argumentLimit cfg data amount
    categories searchTerms r out r' :
  selectEachMode argumentLimit cfg data amount categories searchTerms true r
  = Return (out, r') ->
  length out
  = expectedWithDuplicates (ModeStr EACH) amount
      (length (buildSearchFilteredCategories data categories searchTerms)).
Proof.
  intros H.
  pose proof (buildSearchFilteredCategories_pools data categories searchTerms)
    as Hpools.
  set (filteredMap := buildSearchFilteredCategories data categories searchTerms)
    in *.
  assert (Hlen : length (mapKeys filteredMap) = length filteredMap)
    by apply length_map.
  assert (Hrun : eachLoop argumentLimit cfg filteredMap amount true
                   (mapKeys filteredMap) [] r
                 = Return (out, r')).
  { unfold selectEachMode in H. fold filteredMap in H.
    destruct (mapKeys filteredMap) eqn:Hk; exact H. }
  destruct (eachLoop_run argumentLimit cfg data searchTerms filteredMap amount
              true Hpools (mapKeys filteredMap) [] r (fun _ Hx => Hx))
    as [(chunks & r1 & Hloop & Hper & _)|[Hloop _]];
    [|rewrite Hloop in Hrun; discriminate Hrun].
  rewrite Hloop in Hrun. injection Hrun as <- _.
  cbn [expectedWithDuplicates app]. rewrite <- Hlen.
  clear -Hper. induction Hper as [|cat chunk cats chunks (pool & _ & _ & Hl & _) _ IH].
  - simpl. lia.
  - cbn [concat length]. rewrite length_app, IH, Hl. unfold contribution. lia.
Qed.

(** C7. The amount is validated before any selection runs. When the amount
    of the request (1 when the option is absent) is not a finite number that
    is at least 1, [callNeko] throws the amount exception, a ValidationError,
    whatever the other options, the module state and the random source are.
    Otherwise the amount [parseOptions] hands on is the number truncated
    toward zero, an integer that is at least 1, and it is that integer the
    selection runs with: [callNeko] ends as the mode's function does when it
    is called with the truncated amount and the normalised actions, search
    terms and duplicates flag; and with duplicates allowed a call that
    returns hands back exactly the truncated amount of objects in Random and
    Distributed mode, and that many for each surviving category in Each
    mode. *)
Theorem amount_validated_before_selection (argumentLimit : nat)
    (options : Options) (st : State) (r : RandomSource) :
  (~ acceptableAmount (amountOrDefault options) ->
   callNeko argumentLimit options st r = Throw InvalidAmount
   /\ errorKind InvalidAmount = ValidationError)
  /\ (forall q params,
        amountOrDefault options = JNum (Finite q) ->
        (1 <= q)%Q ->
        parseOptions (intentConfig st) options = Return params ->
        p_amount params = truncate q
        /\ (1 <= p_amount params)%Z
        /\ callNeko argumentLimit options st r
           = match
               match p_mode params with
               | ModeStr RANDOM =>
                   selectRandomMode (intentConfig st) (gifsData st)
                     (truncate q) (p_actions params) (p_search params)
                     (p_dupe params) r
               | ModeStr DISTRIBUTED =>
                   selectDistributedMode argumentLimit (intentConfig st)
                     (gifsData st) (truncate q) (p_actions params)
                     (p_search params) (p_dupe params) r
               | ModeStr EACH =>
                   selectEachMode argumentLimit (intentConfig st)
                     (gifsData st) (truncate q) (p_actions params)
                     (p_search params) (p_dupe params) r
               | ModeProto _ => Return ([], r)
               end
             with
             | Return (result, r') => Return (wrapResult params result, r')
             | Throw e => Throw e
             end
        /\ (p_dupe params = true ->
            forall resp r',
              callNeko argumentLimit options st r = Return (resp, r') ->
              length (itemsOf resp)
              = expectedWithDuplicates (p_mode params) (truncate q)
                  (length (buildSearchFilteredCategories (gifsData st)
                             (p_actions params) (p_search params))))).
Proof.
  split.
  - intros H. split; [|reflexivity].
    apply callNeko_parse_throws. unfold parseOptions.
    rewrite (validateAmount_refuses _ H). reflexivity.
  - intros q params Hq H1 Hp.
    destruct (parseOptions_amount _ _ _ Hp) as (q' & Hq' & _ & Ha).
    rewrite Hq in Hq'. injection Hq' as <-.
    destruct (Qfloor_truncate q H1) as [Ht Hge].
    rewrite <- Ht, <- Ha.
    split; [reflexivity|]. split; [rewrite Ha; exact Hge|].
    split.
    + rewrite (callNeko_parsed argumentLimit options st params r Hp).
      unfold runMode. destruct (p_mode params) as [[| |]|k]; reflexivity.
    + intros Hd resp r' Hret.
      destruct (callNeko_Return _ _ _ _ _ _ Hret)
        as (params' & result & Hp' & Hrun & ->).
      rewrite Hp in Hp'. injection Hp' as <-.
      rewrite itemsOf_wrapResult. unfold runMode in Hrun. rewrite Hd in Hrun.
      destruct (p_mode params) as [[| |]|k].
      * eapply selectRandomMode_duplicates_length. exact Hrun.
      * eapply selectDistributedMode_duplicates_length; [|exact Hrun].
        rewrite Ha. exact Hge.
      * eapply selectEachMode_duplicates_length. exact Hrun.
      * injection Hrun as <- _. reflexivity.
Qed.

Lemma amount_validated_before_selection_witness :
  (~ acceptableAmount (JNum NaN)
   /\ callNeko sampleArgumentLimit
        {| o_amount := JNum NaN; o_actions := JStr "hug";
           o_search := JUndefined; o_type := JUndefined;
           o_mode := JUndefined; o_dupe := JUndefined |}
        (initialState sampleCatalog) zeroSource
      = Throw InvalidAmount)
  /\ (exists params resp r',
        parseOptions (intentConfig (initialState sampleCatalog))
          twoAndAHalfHugsWithDuplicates
        = Return params
        /\ p_amount params = 2%Z
        /\ callNeko sampleArgumentLimit twoAndAHalfHugsWithDuplicates
             (initialState sampleCatalog) zeroSource
           = Return (resp, r')
        /\ length (itemsOf resp) = 2).
Proof.
  assert (Hn : ~ acceptableAmount (JNum NaN)).
  { intros (q & [=] & _). }
  split.
  - split; [exact Hn|].
    apply (amount_validated_before_selection sampleArgumentLimit
             {| o_amount := JNum NaN; o_actions := JStr "hug";
                o_search := JUndefined; o_type := JUndefined;
                o_mode := JUndefined; o_dupe := JUndefined |}
             (initialState sampleCatalog) zeroSource).
    exact Hn.
  - assert (Hp : parseOptions (intentConfig (initialState sampleCatalog))
                   twoAndAHalfHugsWithDuplicates
                 = Return {| p_amount := 2; p_actions := ["hug"];
                             p_search := []; p_type := TypeNum BOTH;
                             p_mode := ModeStr RANDOM; p_dupe := true |})
      by (vm_compute; reflexivity).
    assert (H1 : (1 <= 5 # 2)%Q) by (vm_compute; discriminate).
    destruct (proj2 (amount_validated_before_selection sampleArgumentLimit
                       twoAndAHalfHugsWithDuplicates
                       (initialState sampleCatalog) zeroSource)
                (5 # 2) _ eq_refl H1 Hp) as (Ha & _ & Hcall & Hlen).
    specialize (Hlen eq_refl).
    let v := eval vm_compute in
               (callNeko sampleArgumentLimit twoAndAHalfHugsWithDuplicates
                  (initialState sampleCatalog) zeroSource) in
    match v with
    | Return (?resp, ?r') =>
        assert (E : callNeko sampleArgumentLimit twoAndAHalfHugsWithDuplicates
                      (initialState sampleCatalog) zeroSource
                    = Return (resp, r'))
          by (vm_compute; reflexivity);
        exists {| p_amount := 2; p_actions := ["hug"];
                  p_search := []; p_type := TypeNum BOTH;
                  p_mode := ModeStr RANDOM; p_dupe := true |}, resp, r';
        split; [exact Hp|]; split; [reflexivity|]; split; [exact E|];
        rewrite (Hlen resp r' E); vm_compute; reflexivity
    end.
Defined.

(* ========================================================================= *)
(** * Further properties of the intent gate                                  *)
(* ========================================================================= *)

Lemma NoDup_VALID_ACTIONS : NoDup VALID_ACTIONS.
Proof. apply (bool_decide_unpack _). vm_compute. exact I. Qed.

Lemma NoDup_List_filter {A} (P : A -> bool) (l : list A) :
  NoDup l -> NoDup (List.filter P l).
Proof.
  intros H. apply NoDup_ListNoDup. apply List.NoDup_filter.
  apply NoDup_ListNoDup. exact H.
Qed.

Lemma intentAllowedCategories_valid normalizedType c :
  c ∈ intentAllowedCategories normalizedType -> c ∈ VALID_ACTIONS.
Proof.
  unfold intentAllowedCategories. intros H.
  apply elem_of_List_filter in H as [H _]. exact H.
Qed.

Lemma intentAllowedCategories_NoDup normalizedType :
  NoDup (intentAllowedCategories normalizedType).
Proof. apply NoDup_List_filter. apply NoDup_VALID_ACTIONS. Qed.

(** What the rebuilt catalog holds: the raw entry of an allowed category,
    nothing for any other. *)
Lemma rebuildData_lookup raw allowed c :
  rebuildData raw allowed !! c
  = if bool_decide (c ∈ allowed) then raw !! c else None.
Proof.
  unfold rebuildData.
  assert (H : forall acc : Catalog,
             foldl (fun acc category =>
                      match raw !! category with
                      | Some items => <[category := items]> acc
                      | None => acc
                      end) acc allowed !! c
             = if bool_decide (c ∈ allowed)
               then match raw !! c with
                    | Some v => Some v
                    | None => acc !! c
                    end
               else acc !! c).
  { induction allowed as [|a l IH]; intros acc; [reflexivity|].
    cbn [foldl]. rewrite IH.
    destruct (decide (c = a)) as [->|Hne].
    - rewrite (bool_decide_eq_true_2 (a ∈ a :: l)) by left.
      destruct (raw !! a) as [v|] eqn:Ha.
      + rewrite lookup_insert_eq. destruct (bool_decide (a ∈ l)); reflexivity.
      + destruct (bool_decide (a ∈ l)); reflexivity.
    - rewrite (bool_decide_ext (c ∈ a :: l) (c ∈ l)).
      2:{ rewrite elem_of_cons. tauto. }
      destruct (raw !! a) as [v|]; [|reflexivity].
      rewrite lookup_insert_ne by congruence. reflexivity. }
  rewrite H, lookup_empty.
  destruct (bool_decide (c ∈ allowed)); [|reflexivity].
  destruct (raw !! c); reflexivity.
Qed.

(** The configuration a returning [callNekoIntent] leaves. *)
Lemma callNekoIntent_Return_config options st st' :
  callNekoIntent options st = (Return tt, st') ->
  exists fields,
    intentMetadataFields (io_metadata options) (intentType options)
    = Return fields
    /\ intentConfig st'
       = {| active := true; metadata := fields; type := intentType options;
            allowedCategories :=
              intentAllowedCategories (intentType options) |}
    /\ intentLocked st' = true
    /\ rawGifsData st' = None
    /\ forall c,
         gifsData st' !! c
         = match rawGifsData st with
           | Some raw =>
               if bool_decide
                    (c ∈ intentAllowedCategories (intentType options))
               then raw !! c else None
           | None => None
           end.
Proof.
  unfold callNekoIntent, intentType.
  destruct (intentLocked st) eqn:Hl; [intros [=]|].
  generalize (normalizeType match io_type options with
                            | JUndefined => JNum (Finite 3)
                            | t => t
                            end).
  intros nt.
  assert (Hrb := fun raw c => rebuildData_lookup raw (intentAllowedCategories nt) c).
  revert Hrb. generalize (intentAllowedCategories nt). intros allowed Hrb.
  destruct (intentMetadataFields (io_metadata options) nt) as [fields|];
    [|intros [=]].
  destruct (rawGifsData st) as [raw|].
  - intros [= <-]. exists fields.
    cbn [intentConfig intentLocked rawGifsData gifsData].
    split; [reflexivity|]. split; [reflexivity|]. split; [reflexivity|].
    split; [reflexivity|]. intros c. apply Hrb.
  - destruct allowed; intros [= <-]; exists fields;
      cbn [intentConfig intentLocked rawGifsData gifsData].
    split; [reflexivity|]. split; [reflexivity|]. split; [reflexivity|].
    split; [reflexivity|]. intros c. apply lookup_empty.
Qed.

Lemma callNekoIntent_Throw_state options st e st' :
  intentLocked st = true \/ rawGifsData st <> None ->
  callNekoIntent options st = (Throw e, st') ->
  st' = st.
Proof.
  unfold callNekoIntent. intros Hc.
  destruct (intentLocked st) eqn:Hl; [intros [= _ <-]; reflexivity|].
  destruct Hc as [Hc|Hc]; [discriminate Hc|].
  generalize (intentAllowedCategories
                (normalizeType match io_type options with
                               | JUndefined => JNum (Finite 3)
                               | t => t
                               end)).
  intros allowed.
  destruct (intentMetadataFields _ _); [|intros [= _ <-]; reflexivity].
  destruct (rawGifsData st); [intros [=]|congruence].
Qed.

Lemma callNekoIntent_consistent options st :
  consistent st -> consistent (snd (callNekoIntent options st)).
Proof.
  intros Hst. destruct (callNekoIntent options st) as [[[]|e] st'] eqn:E.
  - destruct (callNekoIntent_Return_config _ _ _ E)
      as (fields & _ & Hcfg & Hlock & Hraw & Hdata).
    cbn [snd]. unfold consistent. rewrite Hcfg, Hlock. cbn [active metadata type allowedCategories].
    split; [reflexivity|]. split; [apply intentAllowedCategories_NoDup|].
    split; [intros c; apply intentAllowedCategories_valid|].
    split; [exact Hraw|]. intros c Hc. rewrite Hdata.
    destruct (rawGifsData st); [|reflexivity].
    rewrite bool_decide_eq_false_2 by exact Hc. reflexivity.
  - cbn [snd].
    assert (Hc : intentLocked st = true \/ rawGifsData st <> None).
    { destruct Hst as (_ & _ & _ & H).
      destruct (intentLocked st); [left; reflexivity|right].
      destruct H as [-> _]. discriminate. }
    rewrite (callNekoIntent_Throw_state _ _ _ _ Hc E). exact Hst.
Qed.

Lemma initialState_consistent data : consistent (initialState data).
Proof.
  unfold consistent, initialState.
  cbn [active metadata type allowedCategories intentConfig intentLocked
         rawGifsData gifsData].
  split; [reflexivity|]. split; [apply NoDup_VALID_ACTIONS|].
  split; [intros c H; exact H|]. split; reflexivity.
Qed.

Lemma runIntentCalls_consistent calls :
  forall st, consistent st -> consistent (snd (runIntentCalls calls st)).
Proof.
  induction calls as [|o rest IH]; intros st Hst; [exact Hst|].
  cbn [runIntentCalls].
  pose proof (callNekoIntent_consistent o st Hst) as H1.
  destruct (callNekoIntent o st) as [r st1]. cbn [snd] in H1.
  specialize (IH st1 H1). destruct (runIntentCalls rest st1) as [rs st2].
  exact IH.
Qed.

(** X1. Whatever sequence of [callNekoIntent] calls is made on a freshly
    loaded module, the state it is left in is consistent: the active flag
    equals the lock; the allowed categories are pairwise distinct valid
    actions; while unlocked the module still holds the raw dataset, serves
    exactly it and allows every action; once locked the raw dataset is
    dropped and no category outside the allowed ones is left in the served
    data. *)
Theorem reachable_states_are_consistent
    (data : Catalog) (calls : list IntentOptions) :
  consistent (snd (runIntentCalls calls (initialState data))).
Proof. apply runIntentCalls_consistent. apply initialState_consistent. Qed.

(** X2. On a consistent state a [callNekoIntent] call that throws, whatever
    it throws, leaves the module state exactly as it was; in particular a
    rejected configuration leaves an unconfigured gate unconfigured, so the
    call can be made again. *)
Theorem failed_configuration_changes_nothing
    (options : IntentOptions) (st st' : State) (e : Exception) :
  consistent st ->
  callNekoIntent options st = (Throw e, st') ->
  st' = st.
Proof.
  intros (_ & _ & _ & H) E.
  apply (callNekoIntent_Throw_state options st e st'); [|exact E].
  destruct (intentLocked st); [left; reflexivity|right].
  destruct H as [-> _]. discriminate.
Qed.

Lemma failed_configuration_changes_nothing_witness :
  callNekoIntent fieldListWithNumber (initialState sampleCatalog)
  = (Throw TypeError, initialState sampleCatalog)
  /\ fst (callNekoIntent imagesOnlyNoMetadata
            (snd (callNekoIntent fieldListWithNumber
                    (initialState sampleCatalog))))
     = Return tt.
Proof.
  assert (E : exists st',
             callNekoIntent fieldListWithNumber (initialState sampleCatalog)
             = (Throw TypeError, st')) by (eexists; reflexivity).
  destruct E as [st' E].
  pose proof (failed_configuration_changes_nothing _ _ _ _
                (initialState_consistent sampleCatalog) E) as ->.
  split; [exact E|]. rewrite E. reflexivity.
Defined.

(** X3. A [callNekoIntent] call that returns on a module holding the raw
    dataset [raw] prunes the served data to the allowed categories: the raw
    dataset is dropped, the allowed categories are the valid actions of the
    requested content type, and a category reads as its raw records when it
    is allowed and as nothing when it is not. *)
Theorem lock_prunes_catalog_to_allowed
    (options : IntentOptions) (st st' : State) (raw : Catalog) :
  callNekoIntent options st = (Return tt, st') ->
  rawGifsData st = Some raw ->
  rawGifsData st' = None
  /\ type (intentConfig st') = intentType options
  /\ allowedCategories (intentConfig st')
     = intentAllowedCategories (intentType options)
  /\ forall c,
       gifsData st' !! c
       = if bool_decide (c ∈ allowedCategories (intentConfig st'))
         then raw !! c else None.
Proof.
  intros E Hraw.
  destruct (callNekoIntent_Return_config _ _ _ E)
    as (fields & _ & Hcfg & _ & Hr & Hdata).
  rewrite Hcfg. cbn [active metadata type allowedCategories].
  split; [exact Hr|]. split; [reflexivity|].
  split; [reflexivity|]. intros c. rewrite Hdata, Hraw. reflexivity.
Qed.

Lemma lock_prunes_catalog_to_allowed_witness :
  callNekoIntent imagesOnly (initialState sampleCatalog)
  = (Return tt, snd (callNekoIntent imagesOnly (initialState sampleCatalog)))
  /\ gifsData (snd (callNekoIntent imagesOnly (initialState sampleCatalog)))
     !! "hug" = None
  /\ gifsData (snd (callNekoIntent imagesOnly (initialState sampleCatalog)))
     !! "waifu" = sampleCatalog !! "waifu".
Proof.
  assert (E : callNekoIntent imagesOnly (initialState sampleCatalog)
              = (Return tt,
                 snd (callNekoIntent imagesOnly (initialState sampleCatalog))))
    by reflexivity.
  split; [exact E|].
  destruct (lock_prunes_catalog_to_allowed _ _ _ sampleCatalog E eq_refl)
    as (_ & _ & _ & H).
  split; rewrite H; reflexivity.
Defined.

Lemma intentAllowedCategories_IMAGE :
  intentAllowedCategories (TypeNum IMAGE) = IMAGE_CATEGORIES.
Proof. vm_compute. reflexivity. Qed.

Lemma intentAllowedCategories_BOTH :
  intentAllowedCategories (TypeNum BOTH) = VALID_ACTIONS.
Proof. vm_compute. reflexivity. Qed.

Lemma intentAllowedCategories_GIF c :
  c ∈ intentAllowedCategories (TypeNum GIF)
  <-> c ∈ VALID_ACTIONS /\ c ∉ IMAGE_CATEGORIES.
Proof.
  unfold intentAllowedCategories. rewrite elem_of_List_filter.
  rewrite (bool_decide_eq_false_2 (TypeNum GIF = TypeNum BOTH)) by discriminate.
  cbn [orb]. rewrite bool_decide_eq_true. unfold getContentType, arrayIncludes.
  destruct (bool_decide (c ∈ IMAGE_CATEGORIES)) eqn:Hc.
  - apply bool_decide_eq_true in Hc. split; [intros [_ [=]]|tauto].
  - apply bool_decide_eq_false in Hc. tauto.
Qed.

Lemma intentAllowedCategories_proto k :
  intentAllowedCategories (TypeProto k) = [].
Proof.
  unfold intentAllowedCategories.
  rewrite (List.filter_ext _ (fun _ => false)); [|intros a; reflexivity].
  induction VALID_ACTIONS as [|a l IH]; [reflexivity|exact IH].
Qed.

(** X4. [callNekoActions] follows the gate. After a [callNekoIntent] call
    that returned it lists the valid actions of the requested content type,
    in the order of [VALID_ACTIONS]: exactly the four image categories for
    the type IMAGE, exactly the valid actions that are no image category for
    GIF, every valid action for BOTH, and nothing at all when the [type]
    option named a member inherited from [Object.prototype]. *)
Theorem actions_follow_intent
    (options : IntentOptions) (st st' : State) :
  callNekoIntent options st = (Return tt, st') ->
  callNekoActions st' = intentAllowedCategories (intentType options)
  /\ (intentType options = TypeNum IMAGE ->
      callNekoActions st' = ["husbando"; "kitsune"; "neko"; "waifu"])
  /\ (intentType options = TypeNum GIF ->
      forall c, c ∈ callNekoActions st'
                <-> c ∈ VALID_ACTIONS /\ c ∉ IMAGE_CATEGORIES)
  /\ (intentType options = TypeNum BOTH -> callNekoActions st' = VALID_ACTIONS)
  /\ (forall k, intentType options = TypeProto k -> callNekoActions st' = []).
Proof.
  intros E.
  destruct (callNekoIntent_Return_config _ _ _ E) as (fields & _ & Hcfg & _).
  assert (H : callNekoActions st' = intentAllowedCategories (intentType options)).
  { unfold callNekoActions. rewrite Hcfg. reflexivity. }
  rewrite H. split; [reflexivity|]. split; [|split; [|split]].
  - intros ->. apply intentAllowedCategories_IMAGE.
  - intros ->. apply intentAllowedCategories_GIF.
  - intros ->. apply intentAllowedCategories_BOTH.
  - intros k ->. apply intentAllowedCategories_proto.
Qed.

Lemma actions_follow_intent_witness :
  callNekoIntent imagesOnly (initialState sampleCatalog)
  = (Return tt, snd (callNekoIntent imagesOnly (initialState sampleCatalog)))
  /\ callNekoActions (snd (callNekoIntent imagesOnly (initialState sampleCatalog)))
     = ["husbando"; "kitsune"; "neko"; "waifu"].
Proof.
  assert (E : callNekoIntent imagesOnly (initialState sampleCatalog)
              = (Return tt,
                 snd (callNekoIntent imagesOnly (initialState sampleCatalog))))
    by reflexivity.
  split; [exact E|].
  destruct (actions_follow_intent _ _ _ E) as (_ & H & _).
  apply H. reflexivity.
Defined.



Lemma mapM_trimField_not_string elems :
  Exists notAString elems -> mapM trimField elems = Throw TypeError.
Proof.
  induction 1 as [v l Hv|v l _ IH].
  - destruct v; try reflexivity. destruct Hv.
  - cbn [mapM]. rewrite IH. destruct (trimField v) as [s|e] eqn:E;
      [reflexivity|].
    destruct v; try discriminate; injection E as <-; reflexivity.
Qed.

(** X6. A [metadata] list holding an entry that is no string (a number,
    [null], a nested list, ...) makes [callNekoIntent] on an unconfigured
    gate end in a [TypeError], raised by the call of [trim] on that entry,
    instead of the documented metadata errors; the module state is left as
    it was. *)
Theorem field_list_with_non_string_throws_type_error
    (elems : list JSValue) (type : JSValue) (st : State) (raw : Catalog) :
  intentLocked st = false ->
  rawGifsData st = Some raw ->
  Exists notAString elems ->
  callNekoIntent {| io_metadata := JArr elems; io_type := type |} st
  = (Throw TypeError, st).
Proof.
  intros Hl Hr He.
  rewrite (callNekoIntent_unlocked _ st raw Hl Hr). cbn [io_metadata].
  unfold intentMetadataFields. rewrite (mapM_trimField_not_string _ He).
  reflexivity.
Qed.

Lemma field_list_with_non_string_throws_type_error_witness :
  Exists notAString [JStr "anime_name"; JNum (Finite 7)]
  /\ callNekoIntent fieldListWithNumber (initialState sampleCatalog)
     = (Throw TypeError, initialState sampleCatalog).
Proof.
  assert (He : Exists notAString [JStr "anime_name"; JNum (Finite 7)]).
  { apply Exists_cons_tl. apply Exists_cons_hd. exact I. }
  split; [exact He|].
  apply (field_list_with_non_string_throws_type_error _ JUndefined
           (initialState sampleCatalog) sampleCatalog eq_refl eq_refl He).
Defined.

(** X7. With the [metadata] option absent or [null], a call on an
    unconfigured gate locks it with the policy "all": the kind's field set
    under IMAGE or GIF, [null] otherwise; every allowed category then
    projects the whole field set of its kind. *)
Theorem absent_metadata_means_all
    (value type : JSValue) (st : State) (raw : Catalog) :
  intentLocked st = false ->
  rawGifsData st = Some raw ->
  value = JUndefined \/ value = JNull ->
  exists st',
    callNekoIntent {| io_metadata := value; io_type := type |} st
    = (Return tt, st')
    /\ metadata (intentConfig st')
       = allFieldsFor (intentType {| io_metadata := value; io_type := type |})
    /\ forall category,
         category ∈ allowedCategories (intentConfig st') ->
         spec_projectedFields (intentConfig st') (getContentType category)
         = kindFields (getContentType category).
Proof.
  intros Hl Hr Hv.
  rewrite (callNekoIntent_unlocked _ st raw Hl Hr). cbn [io_metadata].
  assert (Hm : forall nt, intentMetadataFields value nt
                          = Return (allFieldsFor nt)).
  { intros nt. destruct Hv as [-> | ->]; apply narrow_all. }
  rewrite Hm. eexists. split; [reflexivity|]. split; [reflexivity|].
  cbn [intentConfig allowedCategories]. intros category Hc.
  apply allowed_projects_whole_kind. exact Hc.
Qed.

Lemma absent_metadata_means_all_witness :
  (intentLocked (initialState sampleCatalog) = false
   /\ (JUndefined = JUndefined \/ JUndefined = JNull))
  /\ exists st',
       callNekoIntent imagesOnly (initialState sampleCatalog) = (Return tt, st')
       /\ metadata (intentConfig st')
          = Some ["artist_href"; "artist_name"; "source_url"].
Proof.
  split; [split; [reflexivity|left; reflexivity]|].
  destruct (absent_metadata_means_all JUndefined (JStr "images")
              (initialState sampleCatalog) sampleCatalog eq_refl eq_refl
              (or_introl eq_refl)) as (st' & E & Hm & _).
  exists st'. split; [exact E|]. rewrite Hm. reflexivity.
Defined.

(* ========================================================================= *)
(** * Properties of the request normaliser                                   *)
(* ========================================================================= *)

Lemma trimEnd_idempotent s : trimEnd (trimEnd s) = trimEnd s.
Proof.
  induction s as [|c s IH]; [reflexivity|]. cbn [trimEnd].
  destruct (trimEnd s) as [|c' t] eqn:Ht.
  - destruct (isWhiteSpace c) eqn:Hc; [reflexivity|].
    cbn [trimEnd]. rewrite Hc. reflexivity.
  - cbn [trimEnd] in *. rewrite IH. reflexivity.
Qed.

Lemma trimEnd_head c t :
  isWhiteSpace c = false -> exists t', trimEnd (String c t) = String c t'.
Proof.
  intros Hc. cbn [trimEnd]. destruct (trimEnd t); [rewrite Hc|]; eauto.
Qed.

(** What [trim] returns has nothing left to trim. *)
Lemma trim_idempotent s : trim (trim s) = trim s.
Proof.
  unfold trim. destruct (trimStart s) as [|c t] eqn:Hs; [reflexivity|].
  pose proof (trimStart_head s c t Hs) as Hc.
  destruct (trimEnd_head c t Hc) as [t' Ht']. rewrite Ht'.
  cbn [trimStart]. rewrite Hc, <- Ht'. apply trimEnd_idempotent.
Qed.

Lemma validActionName_Some a s :
  validActionName a = Some s -> a = JStr s /\ s ∈ VALID_ACTIONS.
Proof.
  destruct a as [| |b|n|s'|l]; try discriminate. cbn [validActionName].
  unfold arrayIncludes. destruct (bool_decide (s' ∈ VALID_ACTIONS)) eqn:H;
    [|discriminate].
  intros [= <-]. apply bool_decide_eq_true in H. auto.
Qed.

Lemma mapM_validateIntentAction cfg names us :
  mapM (validateIntentAction cfg) names = Return us ->
  forall a, a ∈ names -> active cfg = true -> a ∈ allowedCategories cfg.
Proof.
  revert us. induction names as [|n names IH]; intros us H a Ha Hact.
  - inversion Ha.
  - cbn [mapM] in H. unfold validateIntentAction at 1 in H.
    rewrite Hact in H. cbn [andb] in H. unfold arrayIncludes in H.
    destruct (bool_decide (n ∈ allowedCategories cfg)) eqn:Hn;
      [|discriminate H].
    cbn [negb obind] in H.
    destruct (mapM (validateIntentAction cfg) names) as [us'|] eqn:Hm;
      [|discriminate H].
    apply elem_of_cons in Ha as [->|Ha].
    + apply bool_decide_eq_true in Hn. exact Hn.
    + eapply IH; [reflexivity|exact Ha|exact Hact].
Qed.

Lemma normalizeActions_Return cfg actions names :
  normalizeActions cfg actions = Return names ->
  names = requestedActions cfg actions
  /\ (forall a, a ∈ names -> active cfg = true -> a ∈ allowedCategories cfg)
  /\ ((forall c, c ∈ allowedCategories cfg -> c ∈ VALID_ACTIONS) ->
      forall a, a ∈ names -> a ∈ VALID_ACTIONS).
Proof.
  assert (Hdefault :
            (if active cfg then Return (allowedCategories cfg)
             else Return VALID_ACTIONS) = Return names ->
            names = (if active cfg then allowedCategories cfg else VALID_ACTIONS)
            /\ (forall a, a ∈ names -> active cfg = true ->
                          a ∈ allowedCategories cfg)
            /\ ((forall c, c ∈ allowedCategories cfg -> c ∈ VALID_ACTIONS) ->
                forall a, a ∈ names -> a ∈ VALID_ACTIONS)).
  { destruct (active cfg); intros [= <-].
    - split; [reflexivity|]. split; [intros a H _; exact H|].
      intros H a. apply H.
    - split; [reflexivity|]. split; [intros a _ [=]|]. intros _ a H. exact H. }
  assert (Hgiven :
            forall arr,
              (if (0 <? length
                          (List.filter
                             (fun a => negb (bool_decide
                                               (is_Some (validActionName a))))
                             arr))%nat
               then Throw (InvalidActions
                             (List.filter
                                (fun a => negb (bool_decide
                                                  (is_Some (validActionName a))))
                                arr))
               else
                 let! _ := mapM (validateIntentAction cfg)
                             (omap validActionName arr) in
                 Return (omap validActionName arr)) = Return names ->
              names = omap validActionName arr
              /\ (forall a, a ∈ names -> active cfg = true ->
                            a ∈ allowedCategories cfg)
              /\ ((forall c, c ∈ allowedCategories cfg -> c ∈ VALID_ACTIONS) ->
                  forall a, a ∈ names -> a ∈ VALID_ACTIONS)).
  { intros arr. destruct (0 <? _)%nat; [discriminate|].
    destruct (mapM (validateIntentAction cfg) (omap validActionName arr))
      as [us|] eqn:Hm; [|discriminate].
    cbn [obind]. intros [= <-]. split; [reflexivity|].
    split; [exact (mapM_validateIntentAction _ _ _ Hm)|].
    intros _ a Ha. apply list_elem_of_omap in Ha as (v & _ & Hv).
    apply validActionName_Some in Hv. tauto. }
  destruct actions as [| |b|n|s|l]; cbn [normalizeActions requestedActions];
    try exact Hdefault; apply Hgiven.
Qed.

Lemma validateAndFilterCategories_Return names contentType filtered :
  validateAndFilterCategories names contentType = Return filtered ->
  filtered = List.filter (fun cat => matchesContentType cat contentType) names
  /\ filtered <> [].
Proof.
  unfold validateAndFilterCategories.
  destruct (List.filter _ names) as [|x l]; [discriminate|].
  intros [= <-]. split; [reflexivity|discriminate].
Qed.

Lemma normalizeSearch_terms search t :
  t ∈ normalizeSearch search ->
  t <> "" /\ trim t = t
  /\ exists s, JStr s ∈ asArray search /\ t = trim s.
Proof.
  assert (H : forall arr,
             t ∈ List.filter nonEmpty
                   (List.map (fun s => match s with
                                       | JStr str => trim str
                                       | _ => ""
                                       end) arr) ->
             t <> "" /\ trim t = t /\ exists s, JStr s ∈ arr /\ t = trim s).
  { intros arr Ht. apply elem_of_List_filter in Ht as [Ht Hne].
    apply list_elem_of_In, List.in_map_iff in Ht as (v & Hv & Hin).
    assert (Hnonempty : t <> "").
    { intros ->. discriminate Hne. }
    split; [exact Hnonempty|].
    destruct v as [| |b|n|s|l]; try (symmetry in Hv; contradiction).
    subst t. split; [apply trim_idempotent|].
    exists s. split; [apply list_elem_of_In; exact Hin|reflexivity]. }
  destruct search as [| |b|n|s|l]; cbn [normalizeSearch];
    try (intros Hin; inversion Hin; fail); try apply H.
  destruct s; [intros Hin; inversion Hin|apply H].
Qed.

Lemma parseOptions_Return cfg options params :
  parseOptions cfg options = Return params ->
  exists q names,
    validateAmount (amountOrDefault options) = Return q
    /\ normalizeActions cfg (o_actions options) = Return names
    /\ validateAndFilterCategories names (normalizeType (o_type options))
       = Return (p_actions params)
    /\ params
       = {| p_amount := Qfloor q;
            p_actions := p_actions params;
            p_search := normalizeSearch (o_search options);
            p_type := normalizeType (o_type options);
            p_mode := normalizeMode (o_mode options);
            p_dupe := toBoolean match o_dupe options with
                                | JUndefined => JBool false
                                | d => d
                                end |}.
Proof.
  unfold parseOptions.
  destruct (validateAmount (amountOrDefault options)) as [q|] eqn:Hq;
    [|discriminate].
  cbn [obind].
  destruct (normalizeActions cfg (o_actions options)) as [names|] eqn:Hn;
    [|discriminate].
  cbn [obind].
  destruct (validateAndFilterCategories names _) as [valid|] eqn:Hf;
    [|discriminate].
  cbn [obind]. intros [= <-]. exists q, names. cbn [p_actions].
  split; [reflexivity|]. split; [reflexivity|]. split; [exact Hf|reflexivity].
Qed.

(** X8. What [parseOptions] hands to the engine is well formed. On a
    consistent module state, when it returns: the amount is an integer at
    least 1; the actions are a non-empty list, exactly the requested (or,
    without the option, the visible) action names that match the normalised
    type, in their order, each a valid action and, under a locked gate, an
    allowed one; every search term is non-empty and trimmed and comes from a
    string of the [search] option; type, mode and the duplicates flag are
    the normalised options. *)
Theorem parsed_request_is_well_formed
    (st : State) (options : Options) (params : Params) :
  consistent st ->
  parseOptions (intentConfig st) options = Return params ->
  (1 <= p_amount params)%Z
  /\ p_actions params <> []
  /\ p_actions params
     = List.filter (fun cat => matchesContentType cat (p_type params))
         (requestedActions (intentConfig st) (o_actions options))
  /\ (forall a, a ∈ p_actions params ->
        a ∈ VALID_ACTIONS
        /\ a ∈ callNekoActions st
        /\ matchesContentType a (p_type params) = true)
  /\ (forall t, t ∈ p_search params ->
        t <> "" /\ trim t = t
        /\ exists s, JStr s ∈ asArray (o_search options) /\ t = trim s)
  /\ p_type params = normalizeType (o_type options)
  /\ p_mode params = normalizeMode (o_mode options)
  /\ p_dupe params = toBoolean match o_dupe options with
                               | JUndefined => JBool false
                               | d => d
                               end.
Proof.
  intros (Hact & _ & Hvalid & Hlock) Hp.
  destruct (parseOptions_Return _ _ _ Hp) as (q & names & Hq & Hn & Hf & Hparams).
  apply validateAmount_Return in Hq as [_ Hq].
  destruct (Qfloor_truncate q Hq) as [_ Hge].
  apply normalizeActions_Return in Hn as (Hnames & Hallowed & Hv).
  apply validateAndFilterCategories_Return in Hf as [Hfilter Hne].
  rewrite Hparams. cbn [p_amount p_actions p_search p_type p_mode p_dupe].
  split; [exact Hge|]. split; [exact Hne|].
  split; [rewrite Hfilter, Hnames; reflexivity|].
  split; [|split; [intros t; apply normalizeSearch_terms|auto]].
  intros a Ha. rewrite Hfilter in Ha. apply elem_of_List_filter in Ha as [Ha Hm].
  split; [apply (Hv Hvalid); exact Ha|]. split; [|exact Hm].
  unfold callNekoActions. destruct (active (intentConfig st)) eqn:Hactive.
  - apply Hallowed; [exact Ha|reflexivity].
  - apply (Hv Hvalid). exact Ha.
Qed.

Lemma parsed_request_is_well_formed_witness :
  exists params,
    parseOptions (intentConfig lockedSample) noOptions = Return params
    /\ p_actions params = ["husbando"; "kitsune"; "neko"; "waifu"]
    /\ (1 <= p_amount params)%Z.
Proof.
  assert (Hc : consistent lockedSample).
  { unfold lockedSample. apply callNekoIntent_consistent.
    apply initialState_consistent. }
  destruct (parseOptions (intentConfig lockedSample) noOptions)
    as [params|e] eqn:Hp; [|vm_compute in Hp; discriminate Hp].
  destruct (parsed_request_is_well_formed lockedSample noOptions params Hc Hp)
    as (Hge & _).
  exists params. split; [reflexivity|]. split; [|exact Hge].
  vm_compute in Hp. injection Hp as <-. reflexivity.
Defined.

Lemma normalizeActions_given cfg actions :
  given actions ->
  normalizeActions cfg actions
  = match invalidActionsOf (asArray actions) with
    | [] =>
        let! _ := mapM (validateIntentAction cfg)
                    (omap validActionName (asArray actions)) in
        Return (omap validActionName (asArray actions))
    | invalid => Throw (InvalidActions invalid)
    end.
Proof.
  intros [H1 H2]. unfold invalidActionsOf.
  destruct actions as [| |b|n|s|l]; try congruence; cbn [normalizeActions];
    destruct (List.filter _ _); reflexivity.
Qed.

Lemma callNeko_throws_after_amount (argumentLimit : nat) options st r q e :
  amountOrDefault options = JNum (Finite q) ->
  (1 <= q)%Q ->
  normalizeActions (intentConfig st) (o_actions options) = Throw e ->
  callNeko argumentLimit options st r = Throw e.
Proof.
  intros Hq H1 Hn. apply callNeko_parse_throws. unfold parseOptions.
  rewrite Hq, (validateAmount_acceptable q H1). cbn [obind]. rewrite Hn.
  reflexivity.
Qed.

(** X9. An [actions] option holding an entry that is no valid action, a
    string outside [VALID_ACTIONS] or a value that is no string, makes
    [callNeko] with an acceptable amount throw the invalid-actions
    exception, a ValidationError, listing exactly those entries in the
    order given; this happens before the intent is consulted and before any
    selection, whatever the gate, the other options and the random source
    are. *)
Theorem unknown_actions_are_rejected (argumentLimit : nat)
    (options : Options) (st : State) (r : RandomSource) (q : Q) :
  amountOrDefault options = JNum (Finite q) ->
  (1 <= q)%Q ->
  given (o_actions options) ->
  invalidActionsOf (asArray (o_actions options)) <> [] ->
  callNeko argumentLimit options st r
  = Throw (InvalidActions (invalidActionsOf (asArray (o_actions options))))
  /\ errorKind
       (InvalidActions (invalidActionsOf (asArray (o_actions options))))
     = ValidationError
  /\ forall a,
       a ∈ invalidActionsOf (asArray (o_actions options))
       <-> a ∈ asArray (o_actions options)
           /\ forall s, a = JStr s -> s ∉ VALID_ACTIONS.
Proof.
  intros Hq H1 Hg Hinv. split; [|split; [reflexivity|]].
  - apply (callNeko_throws_after_amount _ _ _ _ q); [exact Hq|exact H1|].
    rewrite (normalizeActions_given _ _ Hg).
    destruct (invalidActionsOf _); [congruence|reflexivity].
  - intros a. unfold invalidActionsOf. rewrite elem_of_List_filter.
    rewrite negb_true_iff, bool_decide_eq_false.
    split; intros [Ha Hn]; (split; [exact Ha|]).
    + intros s -> Hs. apply Hn. cbn [validActionName]. unfold arrayIncludes.
      rewrite bool_decide_eq_true_2 by exact Hs. eexists. reflexivity.
    + intros [s Hs]. apply validActionName_Some in Hs as [-> Hs].
      exact (Hn s eq_refl Hs).
Qed.

Lemma unknown_actions_are_rejected_witness :
  (given (o_actions withUnknownActions)
   /\ invalidActionsOf (asArray (o_actions withUnknownActions)) <> [])
  /\ callNeko sampleArgumentLimit withUnknownActions lockedSample zeroSource
     = Throw (InvalidActions [JStr "Hug"; JNum (Finite 3)]).
Proof.
  assert (Hg : given (o_actions withUnknownActions)) by (split; discriminate).
  assert (Hi : invalidActionsOf (asArray (o_actions withUnknownActions)) <> [])
    by discriminate.
  split; [split; [exact Hg|exact Hi]|].
  assert (H1 : (1 <= 2)%Q) by (apply Qle_bool_iff; reflexivity).
  destruct (unknown_actions_are_rejected sampleArgumentLimit withUnknownActions lockedSample
              zeroSource 2 eq_refl H1 Hg Hi) as [H _].
  exact H.
Defined.

Lemma omap_validActionName names :
  Forall (fun a => a ∈ VALID_ACTIONS) names ->
  omap validActionName (List.map JStr names) = names
  /\ invalidActionsOf (List.map JStr names) = [].
Proof.
  unfold invalidActionsOf.
  induction 1 as [|a names Ha _ [IH1 IH2]]; [split; reflexivity|].
  cbn [List.map omap list_omap List.filter validActionName].
  unfold arrayIncludes. rewrite (bool_decide_eq_true_2 _ Ha).
  rewrite (bool_decide_eq_true_2 (is_Some (Some a))) by (eexists; reflexivity).
  cbn [negb]. split; [f_equal; exact IH1|exact IH2].
Qed.

Lemma mapM_validateIntentAction_first cfg pre a post :
  active cfg = true ->
  Forall (fun c => c ∈ allowedCategories cfg) pre ->
  a ∉ allowedCategories cfg ->
  mapM (validateIntentAction cfg) (pre ++ a :: post)
  = Throw (ActionNotInIntent a (getContentType a) (type cfg)
             (allowedCategories cfg)).
Proof.
  intros Hact Hpre Ha. induction Hpre as [|c pre Hc _ IH].
  - cbn [app mapM]. unfold validateIntentAction at 1, arrayIncludes.
    rewrite Hact, (bool_decide_eq_false_2 _ Ha). reflexivity.
  - cbn [app mapM]. unfold validateIntentAction at 1, arrayIncludes.
    rewrite Hact, (bool_decide_eq_true_2 _ Hc). cbn [andb negb obind].
    rewrite IH. reflexivity.
Qed.

(** X10. Under a locked gate, an [actions] option whose entries are all
    valid actions but one of which is not allowed makes [callNeko] with an
    acceptable amount throw the intent exception, an IntentViolationError,
    for the first such entry, carrying that action, its kind, the gate's
    type and the allowed categories; no selection runs. *)
Theorem disallowed_action_is_intent_violation (argumentLimit : nat)
    (options : Options) (st : State) (r : RandomSource) (q : Q)
    (pre post : list string) (a : string) :
  amountOrDefault options = JNum (Finite q) ->
  (1 <= q)%Q ->
  given (o_actions options) ->
  asArray (o_actions options) = List.map JStr (pre ++ a :: post) ->
  Forall (fun c => c ∈ VALID_ACTIONS) (pre ++ a :: post) ->
  active (intentConfig st) = true ->
  Forall (fun c => c ∈ allowedCategories (intentConfig st)) pre ->
  a ∉ allowedCategories (intentConfig st) ->
  callNeko argumentLimit options st r
  = Throw (ActionNotInIntent a (getContentType a) (type (intentConfig st))
             (allowedCategories (intentConfig st)))
  /\ errorKind
       (ActionNotInIntent a (getContentType a) (type (intentConfig st))
          (allowedCategories (intentConfig st)))
     = IntentViolationError.
Proof.
  intros Hq H1 Hg Harr Hvalid Hact Hpre Ha. split; [|reflexivity].
  apply (callNeko_throws_after_amount _ _ _ _ q); [exact Hq|exact H1|].
  rewrite (normalizeActions_given _ _ Hg), Harr.
  destruct (omap_validActionName _ Hvalid) as [-> ->].
  rewrite (mapM_validateIntentAction_first _ _ _ _ Hact Hpre Ha).
  reflexivity.
Qed.

Lemma disallowed_action_is_intent_violation_witness :
  (active (intentConfig lockedSample) = true
   /\ "hug" ∉ allowedCategories (intentConfig lockedSample))
  /\ callNeko sampleArgumentLimit oneHug lockedSample zeroSource
     = Throw (ActionNotInIntent "hug" GIF (TypeNum IMAGE)
                ["husbando"; "kitsune"; "neko"; "waifu"]).
Proof.
  assert (Ha : "hug" ∉ allowedCategories (intentConfig lockedSample)).
  { apply (bool_decide_unpack _). vm_compute. exact I. }
  split; [split; [reflexivity|exact Ha]|].
  assert (H1 : (1 <= 1)%Q) by (apply Qle_bool_iff; reflexivity).
  assert (Hv : Forall (fun c => c ∈ VALID_ACTIONS) ([] ++ "hug" :: [])).
  { constructor; [|constructor]. apply (bool_decide_unpack _). vm_compute.
    exact I. }
  assert (Hg : given (o_actions oneHug)) by (split; discriminate).
  destruct (disallowed_action_is_intent_violation sampleArgumentLimit oneHug lockedSample
              zeroSource 1 [] [] "hug" eq_refl H1 Hg
              eq_refl Hv eq_refl (Forall_nil_2 _) Ha) as [H _].
  exact H.
Defined.

(** X11. When none of the action names a request resolves to matches the
    normalised [type], [callNeko] with an acceptable amount throws the
    no-categories exception, a ValidationError, carrying that type; in
    particular a [type] naming a member inherited from [Object.prototype]
    matches no category at all. *)
Theorem type_without_matching_action_is_rejected (argumentLimit : nat)
    (options : Options) (st : State) (r : RandomSource) (q : Q)
    (names : list string) :
  amountOrDefault options = JNum (Finite q) ->
  (1 <= q)%Q ->
  normalizeActions (intentConfig st) (o_actions options) = Return names ->
  (forall a, a ∈ names ->
     matchesContentType a (normalizeType (o_type options)) = false) ->
  callNeko argumentLimit options st r
  = Throw (NoCategoriesMatch (normalizeType (o_type options)))
  /\ errorKind (NoCategoriesMatch (normalizeType (o_type options)))
     = ValidationError
  /\ forall k c, matchesContentType c (TypeProto k) = false.
Proof.
  intros Hq H1 Hn Hnone. split; [|split; [reflexivity|]].
  - apply callNeko_parse_throws. unfold parseOptions.
    rewrite Hq, (validateAmount_acceptable q H1). cbn [obind]. rewrite Hn.
    cbn [obind]. unfold validateAndFilterCategories.
    assert (Hf : List.filter
                   (fun cat => matchesContentType cat
                                 (normalizeType (o_type options))) names = []).
    { destruct (List.filter _ names) as [|x l] eqn:Hf; [reflexivity|].
      assert (Hx : x ∈ List.filter
                     (fun cat => matchesContentType cat
                                   (normalizeType (o_type options))) names)
        by (rewrite Hf; left).
      apply elem_of_List_filter in Hx as [Hx Hm].
      rewrite (Hnone x Hx) in Hm. discriminate Hm. }
    rewrite Hf. reflexivity.
  - intros k c. reflexivity.
Qed.

Lemma type_without_matching_action_is_rejected_witness :
  normalizeActions (intentConfig (initialState sampleCatalog))
    (o_actions hugAsImage) = Return ["hug"]
  /\ callNeko sampleArgumentLimit hugAsImage (initialState sampleCatalog) zeroSource
     = Throw (NoCategoriesMatch (TypeNum IMAGE)).
Proof.
  split; [reflexivity|].
  assert (H1 : (1 <= 1)%Q) by (apply Qle_bool_iff; reflexivity).
  destruct (type_without_matching_action_is_rejected sampleArgumentLimit hugAsImage
              (initialState sampleCatalog) zeroSource 1 ["hug"] eq_refl H1
              eq_refl) as [H _]; [|exact H].
  intros a Ha. apply list_elem_of_singleton in Ha as ->. reflexivity.
Defined.

(* ========================================================================= *)
(** * Properties of the search filter                                        *)
(* ========================================================================= *)

Lemma prefix_app sub : forall s,
  String.prefix sub s = true <-> exists post, s = sub ++ post.
Proof.
  induction sub as [|c sub IH]; intros s.
  - split; [intros _; exists s; reflexivity|intros _; destruct s; reflexivity].
  - destruct s as [|c' s]; cbn [String.prefix].
    + split; [discriminate|intros [post H]; discriminate H].
    + destruct (Ascii.ascii_dec c c') as [->|Hne].
      * rewrite IH. split; intros [post H]; exists post.
        -- rewrite H. reflexivity.
        -- injection H as H. exact H.
      * split; [discriminate|]. intros [post H]. injection H as H _. congruence.
Qed.

(** [includes] holds exactly when the second string occurs in the first. *)
Lemma includes_occurs sub : forall s,
  includes s sub = true <-> exists pre post, s = pre ++ sub ++ post.
Proof.
  induction s as [|c s IH]; cbn [includes]; rewrite orb_true_iff, prefix_app.
  - split.
    + intros [[post H]|H]; [exists "", post; exact H|discriminate H].
    + intros (pre & post & H). left. destruct pre; [exists post; exact H|].
      discriminate H.
  - rewrite IH. split.
    + intros [[post H]|(pre & post & H)].
      * exists "", post. exact H.
      * exists (String c pre), post. rewrite H. reflexivity.
    + intros (pre & post & H). destruct pre as [|c' pre].
      * left. exists post. exact H.
      * right. injection H as _ H. exists pre, post. exact H.
Qed.

Lemma toLowerCase_empty s : toLowerCase s = "" <-> s = "".
Proof. destruct s; split; try reflexivity; discriminate. Qed.

Lemma matchesSearch_field item category searchTerms :
  matchesSearch item category searchTerms
  = if (length searchTerms =? 0)%nat then true
    else match searchFieldOf item category with
         | None | Some EmptyString => false
         | Some field =>
             existsb (fun term => includes (toLowerCase field) (toLowerCase term))
               searchTerms
         end.
Proof. reflexivity. Qed.

(** X12. The search is case-insensitive on both sides: two records whose
    searched fields (artist name under an image category, anime name
    otherwise) are both absent or equal up to the case of their letters
    match the same lists of terms, and replacing each term by one equal to
    it up to case does not change the answer. *)
Theorem search_is_case_insensitive
    (item item' : CatalogRecord) (category : string)
    (terms terms' : list string) :
  sameFieldUpToCase (searchFieldOf item category) (searchFieldOf item' category) ->
  Forall2 sameUpToCase terms terms' ->
  matchesSearch item category terms = matchesSearch item' category terms'.
Proof.
  intros Hf Ht. rewrite !matchesSearch_field.
  rewrite <- (Forall2_length _ _ _ Ht).
  destruct (length terms =? 0)%nat; [reflexivity|].
  destruct (searchFieldOf item category) as [f|],
    (searchFieldOf item' category) as [f'|]; cbn in Hf; try contradiction;
    [|reflexivity].
  unfold sameUpToCase in Hf.
  assert (He : f = "" <-> f' = "").
  { rewrite <- (toLowerCase_empty f), <- (toLowerCase_empty f'), Hf. tauto. }
  destruct f as [|c f]; destruct f' as [|c' f'];
    [reflexivity|destruct He as [He _]; discriminate (He eq_refl)
     |destruct He as [_ He]; discriminate (He eq_refl)|].
  rewrite Hf. clear He Hf.
  induction Ht as [|t t' l l' Htt _ IH]; [reflexivity|].
  cbn [existsb]. unfold sameUpToCase in Htt. rewrite Htt, IH. reflexivity.
Qed.

Lemma search_is_case_insensitive_witness :
  (sameFieldUpToCase
     (searchFieldOf (mkRecord "/hug/001.gif" None None None (Some "Naruto"))
        "hug")
     (searchFieldOf (mkRecord "/hug/001.gif" None None None (Some "NARUTO"))
        "hug")
   /\ Forall2 sameUpToCase ["naru"] ["NaRu"])
  /\ matchesSearch (mkRecord "/hug/001.gif" None None None (Some "Naruto"))
       "hug" ["naru"]
     = matchesSearch (mkRecord "/hug/001.gif" None None None (Some "NARUTO"))
         "hug" ["NaRu"].
Proof.
  assert (Hf : sameFieldUpToCase
                 (searchFieldOf
                    (mkRecord "/hug/001.gif" None None None (Some "Naruto"))
                    "hug")
                 (searchFieldOf
                    (mkRecord "/hug/001.gif" None None None (Some "NARUTO"))
                    "hug")) by reflexivity.
  assert (Ht : Forall2 sameUpToCase ["naru"] ["NaRu"])
    by (constructor; [reflexivity|constructor]).
  split; [split; [exact Hf|exact Ht]|].
  apply (search_is_case_insensitive _ _ _ _ _ Hf Ht).
Defined.

(** X13. With at least one search term, a record matches exactly when its
    searched field is present and non-empty and the lower-cased form of
    some term occurs in the lower-cased field as a substring (the terms are
    alternatives); with no term every record matches. *)
Theorem search_matches_substring_of_some_term
    (item : CatalogRecord) (category : string) (terms : list string) :
  (terms = [] -> matchesSearch item category terms = true)
  /\ (terms <> [] ->
      (matchesSearch item category terms = true
       <-> exists field term pre post,
             searchFieldOf item category = Some field
             /\ field <> ""
             /\ term ∈ terms
             /\ toLowerCase field = pre ++ toLowerCase term ++ post)).
Proof.
  rewrite matchesSearch_field. split; [intros ->; reflexivity|].
  intros Hne. rewrite (length_zero_eqb terms Hne).
  destruct (searchFieldOf item category) as [[|c f]|].
  - split; [discriminate|]. intros (field & _ & _ & _ & [= <-] & H & _).
    congruence.
  - rewrite List.existsb_exists. split.
    + intros (term & Hin & Hinc). apply includes_occurs in Hinc as (pre & post & H).
      exists (String c f), term, pre, post.
      split; [reflexivity|]. split; [discriminate|].
      split; [apply list_elem_of_In; exact Hin|exact H].
    + intros (field & term & pre & post & [= <-] & _ & Hin & H).
      exists term. split; [apply list_elem_of_In; exact Hin|].
      apply includes_occurs. exists pre, post. exact H.
  - split; [discriminate|]. intros (field & _ & _ & _ & [=] & _).
Qed.

Lemma search_matches_substring_of_some_term_witness :
  ["one piece"; "RUT"] <> []
  /\ matchesSearch (mkRecord "/hug/001.gif" None None None (Some "Naruto"))
       "hug" ["one piece"; "RUT"] = true.
Proof.
  assert (Hne : ["one piece"; "RUT"] <> []) by discriminate.
  split; [exact Hne|].
  destruct (search_matches_substring_of_some_term
              (mkRecord "/hug/001.gif" None None None (Some "Naruto")) "hug"
              ["one piece"; "RUT"]) as [_ H].
  apply (H Hne). exists "Naruto", "RUT", "na", "o".
  split; [reflexivity|]. split; [discriminate|].
  split; [right; left|reflexivity].
Defined.

(* ========================================================================= *)
(** * Further properties of the sampling primitive                           *)
(* ========================================================================= *)

Lemma insert_swap_head (t : list nat) : forall j y h,
  t !! j = Some y -> y :: <[j := h]> t ≡ₚ h :: t.
Proof.
  induction t as [|z t IH]; intros [|j] y h H; try discriminate.
  - injection H as ->. apply perm_swap.
  - cbn [lookup list_lookup] in H. cbn [insert list_insert].
    rewrite (perm_swap z y), (IH j y h H). apply perm_swap.
Qed.

(** Exchanging two entries of a list permutes it. *)
Lemma swap_Permutation (l : list nat) : forall i j x y,
  l !! i = Some x -> l !! j = Some y -> <[j := x]> (<[i := y]> l) ≡ₚ l.
Proof.
  induction l as [|h t IH]; intros [|i] [|j] x y Hi Hj; try discriminate.
  - injection Hi as ->. reflexivity.
  - injection Hi as ->. cbn [lookup list_lookup] in Hj.
    cbn [insert list_insert]. apply insert_swap_head. exact Hj.
  - injection Hj as ->. cbn [lookup list_lookup] in Hi.
    cbn [insert list_insert]. apply insert_swap_head. exact Hi.
  - cbn [insert list_insert]. apply Permutation_skip. apply IH; assumption.
Qed.

(** The partial Fisher-Yates loop picks the pool records at the positions
    it leaves in [indices] from [i] on: it only permutes [indices], never
    touches what lies before [i], and appends the projections of the next
    [n] entries. *)
Lemma partialShuffle_positions cfg items category n :
  forall i indices result r,
    i + n <= length items ->
    length indices = length items ->
    Forall (fun j => j < length items) indices ->
    exists out r' final,
      partialShuffle cfg items category (length items) n i indices result r
      = Return ((result ++ out)%list, r')
      /\ final ≡ₚ indices
      /\ take i final = take i indices
      /\ projectedAt cfg items category (take n (drop i final)) out
      /\ calls r' = calls r + n.
Proof.
  induction n as [|n IH]; intros i indices result r Hin Hlen Hall.
  - exists [], r, indices. cbn [partialShuffle]. rewrite app_nil_r, take_0.
    split; [reflexivity|]. split; [reflexivity|]. split; [reflexivity|].
    split; [constructor|lia].
  - cbn [partialShuffle]. rewrite rbind_randomBelow.
    set (ri := i + indexBelow (length items - i) (nextDraw r)).
    assert (Hri : ri < length items).
    { unfold ri.
      assert (indexBelow (length items - i) (nextDraw r) < length items - i)
        by (apply indexBelow_lt; lia).
      lia. }
    assert (Hle : i <= ri) by (unfold ri; lia).
    assert (Hi : i < length indices) by lia.
    assert (Hri' : ri < length indices) by lia.
    destruct (lookup_lt_is_Some_2 indices _ Hri') as [a Ha].
    destruct (lookup_lt_is_Some_2 indices _ Hi) as [b Hb].
    rewrite Ha, Hb.
    set (indices' := <[ri := b]> (<[i := a]> indices)).
    assert (Hperm : indices' ≡ₚ indices)
      by (apply swap_Permutation; assumption).
    assert (Hlen' : length indices' = length items).
    { unfold indices'. rewrite !length_insert. exact Hlen. }
    assert (Hall' : Forall (fun j => j < length items) indices').
    { rewrite Hperm. exact Hall. }
    assert (Htake : take i indices' = take i indices).
    { unfold indices'. rewrite !take_insert_ge by lia. reflexivity. }
    assert (Hi' : i < length indices') by lia.
    destruct (lookup_lt_is_Some_2 indices' _ Hi') as [j Hj].
    rewrite Hj. cbn [mbind option_bind].
    assert (Hjlt : j < length items).
    { eapply Forall_lookup_1 in Hj; [exact Hj|exact Hall']. }
    destruct (lookup_lt_is_Some_2 items _ Hjlt) as [item Hitem].
    rewrite Hitem. cbn [createResponseObjectAt].
    rewrite rbind_rlift_Return.
    destruct (IH (S i) indices'
                (result ++ [createResponseObject cfg item category])%list
                (advance r))
      as (out & r' & final & Hrun & Hpf & Htf & Hproj & Hc);
      [lia|exact Hlen'|exact Hall'|].
    exists (createResponseObject cfg item category :: out), r', final.
    rewrite Hrun, <- app_assoc.
    split; [reflexivity|]. split; [rewrite Hpf; exact Hperm|].
    assert (Hfi : final !! i = Some j).
    { rewrite <- (lookup_take_lt final (S i) i) by lia.
      rewrite Htf, lookup_take_lt by lia. exact Hj. }
    split; [|split].
    + rewrite <- Htake.
      transitivity (take i (take (S i) final)).
      { rewrite take_take, Nat.min_l by lia. reflexivity. }
      rewrite Htf, take_take, Nat.min_l by lia. reflexivity.
    + rewrite (drop_S final j i Hfi). cbn [take]. constructor; [|exact Hproj].
      exists item. split; [exact Hitem|reflexivity].
    + rewrite Hc. cbn [advance calls]. lia.
Qed.

Lemma NoDup_seq' start len : NoDup (seq start len).
Proof. apply NoDup_ListNoDup. apply List.seq_NoDup. Qed.

Lemma projectedAt_urls cfg items category positions out :
  projectedAt cfg items category positions out ->
  NoDup positions ->
  NoDup (List.map url items) ->
  NoDup (List.map resp_url out).
Proof.
  intros Hproj Hnd Hurls.
  induction Hproj as [|j obj positions out (item & Hitem & ->) Htail IH];
    [apply NoDup_nil_2|].
  apply NoDup_cons in Hnd as [Hj Hnd]. cbn [List.map].
  apply NoDup_cons. split; [|apply IH; exact Hnd].
  intros Hin. apply Hj. clear IH Hnd Hj.
  apply list_elem_of_In, List.in_map_iff in Hin as (obj' & Hurl & Hin').
  apply list_elem_of_In, list_elem_of_lookup in Hin' as [k Hk].
  destruct (Forall2_lookup_r _ _ _ _ _ Htail Hk)
    as (j' & Hj' & item' & Hitem' & ->).
  cbn [createResponseObject resp_url] in Hurl. unfold constructFullUrl in Hurl.
  apply String.app_inj in Hurl.
  assert (j' = j) as ->.
  { apply (NoDup_lookup (List.map url items) j' j (url item)); [exact Hurls| |].
    - rewrite <- Hurl. change (List.map url items) with (url <$> items).
      rewrite list_lookup_fmap, Hitem'. reflexivity.
    - change (List.map url items) with (url <$> items).
      rewrite list_lookup_fmap, Hitem. reflexivity. }
  apply list_elem_of_lookup. exists k. exact Hj'.
Qed.

(** X14. With duplicates disallowed and a count [k] with [0 <= k < |pool|],
    the sampling primitive never throws and returns exactly [k] objects,
    the projections of the pool records at [k] pairwise distinct positions
    (no record is drawn twice), after exactly [k] calls of [Math.random];
    so when the records of the pool have pairwise distinct paths the URLs
    returned are pairwise distinct. *)
Theorem sampling_without_duplicates_draws_distinct_records
    (cfg : IntentConfig) (items : list CatalogRecord) (count : Z)
    (category : string) (r : RandomSource) :
  (0 <= count < Z.of_nat (length items))%Z ->
  exists positions out r',
    getRandomItems cfg items count category false r = Return (out, r')
    /\ length out = Z.to_nat count
    /\ NoDup positions
    /\ Forall (fun j => j < length items) positions
    /\ projectedAt cfg items category positions out
    /\ calls r' = calls r + Z.to_nat count
    /\ (NoDup (List.map url items) -> NoDup (List.map resp_url out)).
Proof.
  intros [H0 Hlt].
  assert (Hne : items <> []) by (destruct items; [simpl in Hlt; lia|discriminate]).
  destruct (partialShuffle_positions cfg items category (Z.to_nat count) 0
              (seq 0 (length items)) [] r)
    as (out & r' & final & Hrun & Hperm & _ & Hproj & Hc).
  { lia. }
  { apply length_seq. }
  { apply List.Forall_forall. intros j Hj. apply in_seq in Hj. lia. }
  rewrite drop_0 in Hproj.
  assert (Hnd : NoDup (take (Z.to_nat count) final)).
  { eapply sublist_NoDup; [|apply sublist_take].
    rewrite Hperm. apply NoDup_seq'. }
  exists (take (Z.to_nat count) final), out, r'.
  split.
  { unfold getRandomItems. rewrite (length_zero_eqb items Hne).
    cbn [negb andb].
    rewrite (proj2 (Z.leb_gt _ _) Hlt).
    rewrite Z.min_l by lia. exact Hrun. }
  split.
  { rewrite <- (Forall2_length _ _ _ Hproj), length_take.
    rewrite (Permutation_length Hperm), length_seq. lia. }
  split; [exact Hnd|]. split.
  { apply Forall_forall. intros j Hj.
    assert (Hjf : j ∈ final) by (eapply subseteq_take; exact Hj).
    rewrite Hperm in Hjf. apply list_elem_of_In, in_seq in Hjf. lia. }
  split; [exact Hproj|]. split; [exact Hc|].
  intros Hurls. eapply projectedAt_urls; eassumption.
Qed.

Lemma sampling_without_duplicates_draws_distinct_records_witness :
  (0 <= 2 < Z.of_nat 3)%Z
  /\ exists out r',
       getRandomItems sampleConfig
         [ mkRecord "/hug/001.gif" None None None (Some "Naruto");
           mkRecord "/hug/002.gif" None None None None;
           mkRecord "/hug/003.gif" None None None (Some "Bleach") ]
         2 "hug" false {| tape := [2; 1]; calls := 0 |}
       = Return (out, r')
       /\ List.map resp_url out
          = [ "https://nekos.best/api/v2/hug/003.gif";
              "https://nekos.best/api/v2/hug/001.gif" ].
Proof.
  assert (H : (0 <= 2 < Z.of_nat 3)%Z) by (split; apply Z.leb_le || apply Z.ltb_lt; reflexivity).
  split; [exact H|].
  destruct (sampling_without_duplicates_draws_distinct_records sampleConfig
              [ mkRecord "/hug/001.gif" None None None (Some "Naruto");
                mkRecord "/hug/002.gif" None None None None;
                mkRecord "/hug/003.gif" None None None (Some "Bleach") ]
              2 "hug" {| tape := [2; 1]; calls := 0 |} H)
    as (positions & out & r' & Hrun & _).
  exists out, r'. split; [exact Hrun|].
  let v := eval vm_compute in
             (getRandomItems sampleConfig
                [ mkRecord "/hug/001.gif" None None None (Some "Naruto");
                  mkRecord "/hug/002.gif" None None None None;
                  mkRecord "/hug/003.gif" None None None (Some "Bleach") ]
                2 "hug" false {| tape := [2; 1]; calls := 0 |}) in
  assert (E : getRandomItems sampleConfig
                [ mkRecord "/hug/001.gif" None None None (Some "Naruto");
                  mkRecord "/hug/002.gif" None None None None;
                  mkRecord "/hug/003.gif" None None None (Some "Bleach") ]
                2 "hug" false {| tape := [2; 1]; calls := 0 |} = v)
    by (vm_compute; reflexivity).
  rewrite E in Hrun. injection Hrun as <- _. reflexivity.
Defined.

(** X15. With duplicates allowed and a non-empty pool, the sampling
    primitive never throws and returns exactly the count requested (none
    for a count below 1), each object projected from a record of the pool,
    after exactly one call of [Math.random] per object; the pool size puts
    no bound on the count. *)
Theorem sampling_with_duplicates_returns_exact_count
    (cfg : IntentConfig) (items : list CatalogRecord) (count : Z)
    (category : string) (r : RandomSource) :
  items <> [] ->
  exists out r',
    getRandomItems cfg items count category true r = Return (out, r')
    /\ length out = Z.to_nat count
    /\ Forall (fromPool cfg items category) out
    /\ calls r' = calls r + Z.to_nat count.
Proof.
  intros Hne. unfold getRandomItems. rewrite (length_zero_eqb items Hne).
  cbn [negb andb].
  destruct (drawWithReplacement_ok cfg items category (Z.to_nat count) Hne [] r)
    as (out & r' & Hrun & Hlen & Hall & Hc).
  exists out, r'. rewrite Hrun. auto.
Qed.

Lemma sampling_with_duplicates_returns_exact_count_witness :
  [mkRecord "/hug/001.gif" None None None (Some "Naruto")] <> []
  /\ exists out r',
       getRandomItems sampleConfig
         [mkRecord "/hug/001.gif" None None None (Some "Naruto")] 3 "hug" true
         zeroSource
       = Return (out, r')
       /\ length out = 3.
Proof.
  assert (Hne : [mkRecord "/hug/001.gif" None None None (Some "Naruto")] <> [])
    by discriminate.
  split; [exact Hne|].
  destruct (sampling_with_duplicates_returns_exact_count sampleConfig
              [mkRecord "/hug/001.gif" None None None (Some "Naruto")] 3 "hug"
              zeroSource Hne) as (out & r' & Hrun & Hlen & _).
  exists out, r'. split; [exact Hrun|exact Hlen].
Defined.

(* ========================================================================= *)
(** * Properties of the three modes together                                 *)
(* ========================================================================= *)

Lemma parseOptions_amount_pos cfg options params :
  parseOptions cfg options = Return params -> (1 <= p_amount params)%Z.
Proof.
  intros Hp. destruct (parseOptions_amount _ _ _ Hp) as (q & _ & H1 & ->).
  apply Qfloor_truncate. exact H1.
Qed.

Lemma shareAt_le_amount amount n j :
  (0 <= amount)%Z -> (0 < n)%Z ->
  (shareAt (amount / n) (Z.rem amount n) j <= amount)%Z.
Proof.
  intros Ha Hn. rewrite Z.rem_mod_nonneg by lia. unfold shareAt.
  pose proof (Z.mod_pos_bound amount n Hn) as Hm.
  pose proof (Z.div_mod amount n ltac:(lia)) as Hd.
  assert (0 <= amount / n)%Z by (apply Z.div_pos; lia).
  destruct (Z.ltb_spec (Z.of_nat j) (amount mod n)); nia.
Qed.

Lemma contribution_le_count pool count allowDuplicates :
  contribution pool count allowDuplicates <= Z.to_nat count.
Proof. unfold contribution. destruct allowDuplicates; lia. Qed.

(** With no surviving category every mode returns the empty sequence at
    once. *)
Lemma runMode_empty (argumentLimit : nat) st params r :
  buildSearchFilteredCategories (gifsData st) (p_actions params)
    (p_search params) = [] ->
  runMode argumentLimit st params r = Return ([], r).
Proof.
  intros Hm. unfold runMode.
  destruct (p_mode params) as [[| |]|k]; [| | |reflexivity].
  - unfold selectRandomMode. rewrite Hm. reflexivity.
  - unfold selectDistributedMode. rewrite Hm. reflexivity.
  - unfold selectEachMode. rewrite Hm. reflexivity.
Qed.

(** Every mode, on every normalised request, either runs to the end, and
    what it returns is projected from the filtered pools of the request; or
    it is Distributed or Each mode with an amount above the argument limit,
    and it throws a [RangeError]. *)
Lemma runMode_run (argumentLimit : nat) st params r :
  (1 <= p_amount params)%Z ->
  (exists result r',
      runMode argumentLimit st params r = Return (result, r')
      /\ Forall (fromMap (intentConfig st)
                   (buildSearchFilteredCategories (gifsData st)
                      (p_actions params) (p_search params))) result)
  \/ (runMode argumentLimit st params r = Throw RangeError
      /\ (p_mode params = ModeStr DISTRIBUTED \/ p_mode params = ModeStr EACH)
      /\ argumentLimit < Z.to_nat (p_amount params)).
Proof.
  intros Ha.
  pose proof (buildSearchFilteredCategories_pools (gifsData st)
                (p_actions params) (p_search params)) as Hpools.
  unfold runMode.
  destruct (p_mode params) as [[| |]|k].
  - left. unfold selectRandomMode.
    destruct (buildSearchFilteredCategories (gifsData st) (p_actions params)
                (p_search params)) as [|[c1 p1] [|e2 m]] eqn:Hm.
    + exists [], r. split; [reflexivity|constructor].
    + destruct (getRandomItemsOf_ok (intentConfig st) _ _ _ c1 (p_amount params)
                  (p_dupe params) r Hpools ltac:(left))
        as (pool & out & r' & _ & Hrun & _ & _ & Hall).
      exists out, r'. split; [exact Hrun|exact Hall].
    + destruct (p_dupe params).
      * destruct (randomLoop_duplicates_ok (intentConfig st) _ _ _ Hpools
                    ltac:(discriminate) (Z.to_nat (p_amount params)) [] ∅ r)
          as (out & r' & Hrun & _ & Hall & _).
        exists out, r'. split; [exact Hrun|exact Hall].
      * destruct (randomLoop_unique_ok (intentConfig st) _ _ _ Hpools
                    ltac:(discriminate) (Z.to_nat (p_amount params)) [] ∅ r)
          as (out & r' & Hrun & _ & _ & _ & Hall & _).
        { intros u. simpl. rewrite elem_of_empty, elem_of_nil. tauto. }
        { apply NoDup_nil_2. }
        exists out, r'. split; [exact Hrun|exact Hall].
  - unfold selectDistributedMode.
    destruct (buildSearchFilteredCategories (gifsData st) (p_actions params)
                (p_search params)) as [|e1 m] eqn:Hm.
    + left. exists [], r. split; [reflexivity|constructor].
    + cbn [mapKeys List.map].
      assert (Hn : (0 < Z.of_nat (length (e1.1 :: List.map fst m)))%Z)
        by (cbn [length]; lia).
      assert (Hbase : (0 <= p_amount params
                            / Z.of_nat (length (e1.1 :: List.map fst m)))%Z)
        by (apply Z.div_pos; lia).
      destruct (distributeLoop_run argumentLimit (intentConfig st) _ _
                  (e1 :: m) _
                  (Z.rem (p_amount params)
                     (Z.of_nat (length (e1.1 :: List.map fst m))))
                  (p_dupe params) Hpools Hbase (e1.1 :: List.map fst m) 0 [] r
                  (fun _ H => H))
        as [(chunks & r' & Hrun & _ & _ & _ & _ & Hall)
           |(Hrun & j & c & p & _ & _ & Hover)].
      * left. exists (concat chunks), r'. split; [exact Hrun|exact Hall].
      * right. split; [exact Hrun|]. split; [left; reflexivity|].
        pose proof (contribution_le_count p
                      (shareAt
                         (p_amount params
                          / Z.of_nat (length (e1.1 :: List.map fst m)))
                         (Z.rem (p_amount params)
                            (Z.of_nat (length (e1.1 :: List.map fst m))))
                         (0 + j)) (p_dupe params)) as Hc.
        pose proof (shareAt_le_amount (p_amount params)
                      (Z.of_nat (length (e1.1 :: List.map fst m))) (0 + j)
                      ltac:(lia) Hn) as Hs.
        lia.
  - unfold selectEachMode.
    destruct (buildSearchFilteredCategories (gifsData st) (p_actions params)
                (p_search params)) as [|e1 m] eqn:Hm.
    + left. exists [], r. split; [reflexivity|constructor].
    + cbn [mapKeys List.map].
      destruct (eachLoop_run argumentLimit (intentConfig st) _ _ (e1 :: m)
                  (p_amount params) (p_dupe params) Hpools
                  (e1.1 :: List.map fst m) [] r (fun _ H => H))
        as [(chunks & r' & Hrun & _ & Hall)|(Hrun & c & p & _ & _ & Hover)].
      * left. exists (concat chunks), r'. split; [exact Hrun|exact Hall].
      * right. split; [exact Hrun|]. split; [right; reflexivity|].
        pose proof (contribution_le_count p (p_amount params) (p_dupe params)).
        lia.
  - left. exists [], r. split; [reflexivity|constructor].
Qed.

Lemma Forall2_entries {B} (F : string * list CatalogRecord -> Prop)
    (G : string -> B -> Prop) (m : CategoryMap) (chunks : list B) :
  Forall F m ->
  Forall2 G (mapKeys m) chunks ->
  Forall2 (fun entry chunk => F entry /\ G entry.1 chunk) m chunks.
Proof.
  revert chunks. induction m as [|e m IH]; intros chunks HF HG.
  - inversion HG. constructor.
  - cbn [mapKeys List.map] in HG. inversion HG as [|c ch cs chs Hg Hgs]; subst.
    apply Forall_cons in HF as [Hf HF]. constructor; [auto|].
    apply IH; assumption.
Qed.

Lemma mapGet_elem (m : CategoryMap) category pool :
  mapGet m category = Some pool -> (category, pool) ∈ m.
Proof.
  induction m as [|[k v] m IH]; [discriminate|].
  cbn [mapGet]. destruct (String.eqb_spec k category) as [->|_].
  - intros [= ->]. left.
  - intros H. right. exact (IH H).
Qed.

(** X16. Each mode draws the whole amount from every surviving category,
    and serves the request exactly when every chunk fits the engine's
    argument limit. The surviving categories are taken in their insertion
    order. When the chunk of every category (the amount when duplicates are
    allowed, the amount capped by the pool size when not) has at most as
    many objects as the engine accepts as arguments, the engine returns the
    concatenation of one chunk per category, each drawn by the sampling
    primitive from that category's filtered pool; the total is [amount * n]
    for [n] surviving categories whenever duplicates are allowed or every
    pool holds at least [amount] records. When some chunk has more objects
    than that, [result.push(...items)] throws and the call ends in a
    [RangeError]. *)
Theorem each_mode_draws_amount_from_every_category (argumentLimit : nat)
    (cfg : IntentConfig) (data : Catalog) (amount : Z)
    (categories searchTerms : list string) (allowDuplicates : bool)
    (r : RandomSource) (filteredMap : CategoryMap) :
  filteredMap = buildSearchFilteredCategories data categories searchTerms ->
  mapKeys filteredMap = survivingCategories data searchTerms categories
  /\ (Forall (fun entry =>
                contribution entry.2 amount allowDuplicates <= argumentLimit)
        filteredMap ->
      exists chunks r',
        selectEachMode argumentLimit cfg data amount categories searchTerms
          allowDuplicates r
        = Return (concat chunks, r')
        /\ Forall2
             (fun entry chunk =>
                filteredPool data searchTerms entry.1 = Some entry.2
                /\ Forall (fromPool cfg entry.2 entry.1) chunk
                /\ length chunk = contribution entry.2 amount allowDuplicates)
             filteredMap chunks
        /\ (allowDuplicates = true
            \/ Forall (fun entry => (amount <= Z.of_nat (length entry.2))%Z)
                 filteredMap ->
            length (concat chunks) = Z.to_nat amount * length filteredMap))
  /\ (Exists (fun entry =>
                argumentLimit < contribution entry.2 amount allowDuplicates)
        filteredMap ->
      selectEachMode argumentLimit cfg data amount categories searchTerms
        allowDuplicates r
      = Throw RangeError).
Proof.
  intros Hfm.
  pose proof (buildSearchFilteredCategories_pools data categories searchTerms)
    as Hpools.
  pose proof (buildSearchFilteredCategories_keys data categories searchTerms)
    as Hkeys.
  rewrite <- Hfm in Hpools, Hkeys.
  assert (Hsel : selectEachMode argumentLimit cfg data amount categories
                   searchTerms allowDuplicates r
                 = eachLoop argumentLimit cfg filteredMap amount
                     allowDuplicates (mapKeys filteredMap) [] r).
  { unfold selectEachMode. rewrite <- Hfm.
    destruct (mapKeys filteredMap) eqn:Hk; reflexivity. }
  split; [exact Hkeys|]. split.
  - intros Hfit.
    destruct (eachLoop_ok argumentLimit cfg data searchTerms filteredMap amount
                allowDuplicates Hpools (mapKeys filteredMap) [] r
                (fun _ H => H))
      as (chunks & r' & Hrun & Hper & _).
    { intros cat pool _ Hget. rewrite Forall_forall in Hfit.
      exact (Hfit (cat, pool) (mapGet_elem _ _ _ Hget)). }
    exists chunks, r'.
    split; [rewrite Hsel; exact Hrun|].
    assert (Hentries :
              Forall2
                (fun entry chunk =>
                   filteredPool data searchTerms entry.1 = Some entry.2
                   /\ Forall (fromPool cfg entry.2 entry.1) chunk
                   /\ length chunk
                      = contribution entry.2 amount allowDuplicates)
                filteredMap chunks).
    { pose proof (Forall2_entries _ _ _ _ (proj2 Hpools) Hper) as H.
      eapply Forall2_impl; [exact H|].
      intros [c p] chunk [Hp (pool & Hfp & Hlen & Hall)]. cbn [fst snd] in *.
      rewrite Hp in Hfp. injection Hfp as <-. auto. }
    split; [exact Hentries|].
    clear Hper Hrun Hpools Hkeys Hfm Hsel Hfit.
    induction Hentries as [|[c p] chunk m chunks (_ & _ & H3) _ IH];
      intros Hfull; [cbn [concat length]; lia|].
    cbn [concat length]. rewrite length_app, H3, IH.
    + unfold contribution. cbn [snd].
      destruct Hfull as [->|Hfull]; [lia|].
      apply Forall_cons in Hfull as [Hfull _]. cbn [snd] in Hfull.
      destruct allowDuplicates; lia.
    + destruct Hfull as [->|Hfull]; [left; reflexivity|right].
      apply Forall_cons in Hfull as [_ Hfull]. exact Hfull.
  - intros Hbig. rewrite Hsel.
    apply (eachLoop_overflow argumentLimit cfg data searchTerms filteredMap
             amount allowDuplicates Hpools (mapKeys filteredMap) [] r
             (fun _ H => H)).
    apply Exists_exists in Hbig as ([cat pool] & Hin & Hover).
    cbn [snd] in Hover. exists cat, pool.
    split; [apply list_elem_of_fmap; exists (cat, pool); auto|].
    split; [apply mapGet_entry; [apply Hpools|exact Hin]|exact Hover].
Qed.

Lemma each_mode_draws_amount_from_every_category_witness :
  (exists chunks r',
      selectEachMode sampleArgumentLimit sampleConfig sampleCatalog 1
        ["hug"; "waifu"; "hug"] [] false zeroSource
      = Return (concat chunks, r')
      /\ List.map resp_action (concat chunks) = ["hug"; "waifu"])
  /\ selectEachMode sampleArgumentLimit sampleConfig sampleCatalog 500000
       ["hug"; "waifu"] [] true zeroSource
     = Throw RangeError.
Proof.
  split.
  - destruct (each_mode_draws_amount_from_every_category sampleArgumentLimit
                sampleConfig sampleCatalog 1 ["hug"; "waifu"; "hug"] [] false
                zeroSource _ eq_refl) as (_ & Hfits & _).
    destruct Hfits as (chunks & r' & Hrun & _).
    { apply Forall_forall. intros entry _.
      pose proof (contribution_le_count entry.2 1 false).
      unfold sampleArgumentLimit. lia. }
    exists chunks, r'. split; [exact Hrun|].
    let v := eval vm_compute in
               (selectEachMode sampleArgumentLimit sampleConfig sampleCatalog 1
                  ["hug"; "waifu"; "hug"] [] false zeroSource) in
    assert (E : selectEachMode sampleArgumentLimit sampleConfig sampleCatalog 1
                  ["hug"; "waifu"; "hug"] [] false zeroSource = v)
      by (vm_compute; reflexivity).
    rewrite E in Hrun. injection Hrun as <- _. reflexivity.
  - destruct (each_mode_draws_amount_from_every_category sampleArgumentLimit
                sampleConfig sampleCatalog 500000 ["hug"; "waifu"] [] true
                zeroSource _ eq_refl) as (_ & _ & Hover).
    apply Hover.
    let m := eval vm_compute in
               (buildSearchFilteredCategories sampleCatalog
                  ["hug"; "waifu"] []) in
    assert (E : buildSearchFilteredCategories sampleCatalog
                  ["hug"; "waifu"] [] = m)
      by (vm_compute; reflexivity);
    rewrite E.
    apply Exists_cons_hd. unfold contribution, sampleArgumentLimit. lia.
Defined.

(** X17. In Random mode with exactly one surviving category the engine
    hands the whole request to the sampling primitive on that category's
    pool: it never throws, every object comes from that pool, and the
    length is the amount when duplicates are allowed and the smaller of the
    amount and the pool size when not. *)
Theorem random_mode_single_category_is_sampled_directly
    (cfg : IntentConfig) (data : Catalog) (amount : Z)
    (categories searchTerms : list string) (allowDuplicates : bool)
    (r : RandomSource) (category : string) (pool : list CatalogRecord) :
  buildSearchFilteredCategories data categories searchTerms
  = [(category, pool)] ->
  selectRandomMode cfg data amount categories searchTerms allowDuplicates r
  = getRandomItems cfg pool amount category allowDuplicates r
  /\ exists out r',
       selectRandomMode cfg data amount categories searchTerms allowDuplicates r
       = Return (out, r')
       /\ Forall (fromPool cfg pool category) out
       /\ length out
          = if allowDuplicates then Z.to_nat amount
            else Nat.min (Z.to_nat amount) (length pool).
Proof.
  intros Hfm.
  pose proof (buildSearchFilteredCategories_pools data categories searchTerms)
    as Hpools.
  rewrite Hfm in Hpools.
  assert (Hne : pool <> []).
  { destruct Hpools as [_ Hall]. apply Forall_cons in Hall as [Hp _].
    eapply filteredPool_nonempty. exact Hp. }
  assert (Hsel : selectRandomMode cfg data amount categories searchTerms
                   allowDuplicates r
                 = getRandomItems cfg pool amount category allowDuplicates r).
  { unfold selectRandomMode. rewrite Hfm. cbn [mapKeys List.map fst].
    unfold getRandomItemsOf. cbn [mapGet]. rewrite String.eqb_refl.
    reflexivity. }
  split; [exact Hsel|]. rewrite Hsel.
  destruct (getRandomItems_ok cfg pool amount category allowDuplicates r Hne)
    as (out & r' & Hrun & Hlen & Hall & _).
  exists out, r'. split; [exact Hrun|]. split; [exact Hall|exact Hlen].
Qed.

Lemma random_mode_single_category_is_sampled_directly_witness :
  buildSearchFilteredCategories sampleCatalog ["hug"; "waifu"] ["naruto"]
  = [("hug", [mkRecord "/hug/001.gif" None None None (Some "Naruto")])]
  /\ exists out r',
       selectRandomMode sampleConfig sampleCatalog 4 ["hug"; "waifu"]
         ["naruto"] false zeroSource
       = Return (out, r')
       /\ length out = 1.
Proof.
  assert (H : buildSearchFilteredCategories sampleCatalog ["hug"; "waifu"]
                ["naruto"]
              = [("hug", [mkRecord "/hug/001.gif" None None None
                            (Some "Naruto")])])
    by (vm_compute; reflexivity).
  split; [exact H|].
  destruct (random_mode_single_category_is_sampled_directly sampleConfig
              sampleCatalog 4 ["hug"; "waifu"] ["naruto"] false zeroSource _ _ H)
    as (_ & out & r' & Hrun & _ & Hlen).
  exists out, r'. split; [exact Hrun|exact Hlen].
Defined.

(** X18. In Random mode with several surviving categories and duplicates
    allowed, the engine never throws and returns exactly the amount
    requested (nothing for an amount below 1), each object projected from
    one of the surviving pools, after two calls of [Math.random] per
    object: one for the category, chosen among the surviving categories
    whatever their sizes, one for the record. *)
Theorem random_mode_with_duplicates_returns_exact_amount
    (cfg : IntentConfig) (data : Catalog) (amount : Z)
    (categories searchTerms : list string) (r : RandomSource)
    (filteredMap : CategoryMap) :
  filteredMap = buildSearchFilteredCategories data categories searchTerms ->
  2 <= length filteredMap ->
  exists out r',
    selectRandomMode cfg data amount categories searchTerms true r
    = Return (out, r')
    /\ length out = Z.to_nat amount
    /\ Forall (fromMap cfg filteredMap) out
    /\ calls r' = calls r + 2 * Z.to_nat amount.
Proof.
  intros Hm Hn.
  pose proof (buildSearchFilteredCategories_pools data categories searchTerms)
    as Hpools.
  rewrite <- Hm in Hpools.
  assert (Hkeys : mapKeys filteredMap <> []).
  { destruct filteredMap; [simpl in Hn; lia|discriminate]. }
  destruct (randomLoop_duplicates_ok cfg data searchTerms filteredMap Hpools
              Hkeys (Z.to_nat amount) [] ∅ r)
    as (out & r' & Hrun & Hlen & Hall & Hc).
  exists out, r'. split; [|auto].
  unfold selectRandomMode. rewrite <- Hm.
  destruct filteredMap as [|e1 [|e2 m]]; [simpl in Hn; lia..|].
  exact Hrun.
Qed.

Lemma random_mode_with_duplicates_returns_exact_amount_witness :
  2 <= length (buildSearchFilteredCategories sampleCatalog ["hug"; "waifu"] [])
  /\ exists out r',
       selectRandomMode sampleConfig sampleCatalog 7 ["hug"; "waifu"] [] true
         zeroSource
       = Return (out, r')
       /\ length out = 7.
Proof.
  assert (H2 : 2 <= length (buildSearchFilteredCategories sampleCatalog
                              ["hug"; "waifu"] []))
    by (vm_compute; repeat constructor).
  split; [exact H2|].
  destruct (random_mode_with_duplicates_returns_exact_amount sampleConfig
              sampleCatalog 7 ["hug"; "waifu"] [] zeroSource _ eq_refl H2)
    as (out & r' & Hrun & Hlen & _).
  exists out, r'. split; [exact Hrun|exact Hlen].
Defined.

(** X19. When no requested category has a record matching the search (or
    any record at all), a well-formed request is no error: [callNeko]
    returns the empty array, also for an amount of 1, and [Math.random] is
    not called. *)
Theorem fetch_without_surviving_category_returns_empty (argumentLimit : nat)
    (options : Options) (st : State) (r : RandomSource) (params : Params) :
  parseOptions (intentConfig st) options = Return params ->
  buildSearchFilteredCategories (gifsData st) (p_actions params)
    (p_search params) = [] ->
  callNeko argumentLimit options st r = Return (Many [], r).
Proof.
  intros Hp Hfm. rewrite (callNeko_parsed _ _ _ _ _ Hp).
  rewrite (runMode_empty argumentLimit st params r Hfm).
  unfold wrapResult. cbn [length]. rewrite andb_false_r. reflexivity.
Qed.

Lemma fetch_without_surviving_category_returns_empty_witness :
  (exists params,
     parseOptions (intentConfig (initialState sampleCatalog)) searchWithoutMatch
     = Return params
     /\ buildSearchFilteredCategories (gifsData (initialState sampleCatalog))
          (p_actions params) (p_search params) = [])
  /\ callNeko sampleArgumentLimit searchWithoutMatch (initialState sampleCatalog)
       {| tape := [4; 2]; calls := 0 |}
     = Return (Many [], {| tape := [4; 2]; calls := 0 |}).
Proof.
  destruct (parseOptions (intentConfig (initialState sampleCatalog))
              searchWithoutMatch) as [params|e] eqn:Hp;
    [|vm_compute in Hp; discriminate Hp].
  assert (Hfm : buildSearchFilteredCategories
                  (gifsData (initialState sampleCatalog)) (p_actions params)
                  (p_search params) = []).
  { vm_compute in Hp. injection Hp as <-. vm_compute. reflexivity. }
  split; [exists params; split; [reflexivity|exact Hfm]|].
  apply (fetch_without_surviving_category_returns_empty _ _ _ _ params Hp Hfm).
Defined.

Lemma mapM_validateIntentAction_Throw cfg names e :
  mapM (validateIntentAction cfg) names = Throw e -> requestError e.
Proof.
  induction names as [|n names IH]; [discriminate|].
  cbn [mapM]. unfold validateIntentAction at 1.
  destruct (active cfg && negb (arrayIncludes (allowedCategories cfg) n)).
  - intros [= <-]. exact I.
  - cbn [obind].
    destruct (mapM (validateIntentAction cfg) names) as [us|e'];
      [discriminate|].
    intros [= <-]. apply IH. reflexivity.
Qed.

Lemma normalizeActions_Throw cfg actions e :
  normalizeActions cfg actions = Throw e -> requestError e.
Proof.
  assert (Hdefault :
            (if active cfg then Return (allowedCategories cfg)
             else Return VALID_ACTIONS) = Throw e -> requestError e).
  { destruct (active cfg); discriminate. }
  assert (Hgiven :
            forall arr,
              (if (0 <? length
                          (List.filter
                             (fun a => negb (bool_decide
                                               (is_Some (validActionName a))))
                             arr))%nat
               then Throw (InvalidActions
                             (List.filter
                                (fun a => negb (bool_decide
                                                  (is_Some (validActionName a))))
                                arr))
               else
                 let! _ := mapM (validateIntentAction cfg)
                             (omap validActionName arr) in
                 Return (omap validActionName arr)) = Throw e ->
              requestError e).
  { intros arr. destruct (0 <? _)%nat; [intros [= <-]; exact I|].
    destruct (mapM (validateIntentAction cfg) (omap validActionName arr))
      as [us|e'] eqn:Hm; [discriminate|].
    intros [= <-]. exact (mapM_validateIntentAction_Throw _ _ _ Hm). }
  destruct actions as [| |b|n|s|l]; cbn [normalizeActions];
    try exact Hdefault; apply Hgiven.
Qed.

Lemma parseOptions_Throw cfg options e :
  parseOptions cfg options = Throw e -> requestError e.
Proof.
  unfold parseOptions.
  destruct (validateAmount (amountOrDefault options)) as [q|e1] eqn:Hq.
  - cbn [obind].
    destruct (normalizeActions cfg (o_actions options)) as [names|e2] eqn:Hn.
    + cbn [obind]. unfold validateAndFilterCategories.
      destruct (length _ =? 0)%nat; [intros [= <-]; exact I|discriminate].
    + intros [= <-]. exact (normalizeActions_Throw _ _ _ Hn).
  - intros [= <-]. revert Hq. unfold validateAmount.
    destruct (amountOrDefault options) as [| |b|n|s|l];
      try (intros [= <-]; exact I).
    destruct (negb (isFinite n) || numberLt n 1); [intros [= <-]; exact I|].
    destruct n; [intros [= <-]; exact I..|discriminate].
Qed.

(** X20. [callNeko] fails in two ways only. Whenever it throws, either the
    exception is the one [parseOptions] raised for the request, that is the
    amount, invalid-actions, intent or no-categories exception (a
    ValidationError or an IntentViolationError); or the request was
    normalised, its mode is Distributed or Each, its amount is above the
    number of arguments the engine accepts in one call, and the exception
    is the [RangeError] of [result.push(...items)]. It is never a
    [TypeError]: Random mode runs to the end on every normalised request,
    and so does every mode when the amount is within the limit. *)
Theorem fetch_throws_request_error_or_range_error (argumentLimit : nat)
    (options : Options) (st : State) (r : RandomSource) (e : Exception) :
  callNeko argumentLimit options st r = Throw e ->
  e <> TypeError
  /\ ((parseOptions (intentConfig st) options = Throw e
       /\ requestError e
       /\ (errorKind e = ValidationError
           \/ errorKind e = IntentViolationError))
      \/ (e = RangeError
          /\ exists params,
               parseOptions (intentConfig st) options = Return params
               /\ (p_mode params = ModeStr DISTRIBUTED
                   \/ p_mode params = ModeStr EACH)
               /\ argumentLimit < Z.to_nat (p_amount params))).
Proof.
  intros H.
  destruct (parseOptions (intentConfig st) options) as [params|e'] eqn:Hp.
  - rewrite (callNeko_parsed _ _ _ _ _ Hp) in H.
    destruct (runMode_run argumentLimit st params r
                (parseOptions_amount_pos _ _ _ Hp))
      as [(result & r' & Hrun & _)|(Hrun & Hmode & Hbig)];
      rewrite Hrun in H; [discriminate H|].
    injection H as <-. split; [discriminate|]. right.
    split; [reflexivity|]. exists params. auto.
  - rewrite (callNeko_parse_throws _ _ _ _ _ Hp) in H. injection H as ->.
    pose proof (parseOptions_Throw _ _ _ Hp) as He.
    destruct e; try destruct He; (split; [discriminate|]); left;
      (split; [reflexivity|]); (split; [exact I|]); cbn; auto.
Qed.

Lemma fetch_throws_request_error_or_range_error_witness :
  callNeko sampleArgumentLimit hugAsImage (initialState sampleCatalog) zeroSource
  = Throw (NoCategoriesMatch (TypeNum IMAGE))
  /\ requestError (NoCategoriesMatch (TypeNum IMAGE)).
Proof.
  assert (H : callNeko sampleArgumentLimit hugAsImage
                (initialState sampleCatalog) zeroSource
              = Throw (NoCategoriesMatch (TypeNum IMAGE))) by reflexivity.
  split; [exact H|].
  destruct (fetch_throws_request_error_or_range_error _ _ _ _ _ H)
    as (_ & [(_ & He & _)|(He & _)]); [exact He|discriminate He].
Defined.

Lemma firstOccurrences_elem l : forall seen x,
  x ∈ firstOccurrences seen l -> x ∈ l.
Proof.
  induction l as [|y l IH]; intros seen x H; [inversion H|].
  cbn [firstOccurrences] in H.
  destruct (bool_decide (y ∈ seen)).
  - right. eapply IH. exact H.
  - apply elem_of_cons in H as [->|H]; [left|right; eapply IH; exact H].
Qed.

Lemma filteredPool_records data searchTerms category pool record :
  filteredPool data searchTerms category = Some pool ->
  record ∈ pool ->
  exists items,
    data !! category = Some items
    /\ record ∈ items
    /\ matchesSearch record category searchTerms = true.
Proof.
  unfold filteredPool. destruct (data !! category) as [items|]; [|discriminate].
  intros H Hin. exists items. split; [reflexivity|].
  assert (Hp : pool = List.filter
                        (fun item => matchesSearch item category searchTerms)
                        items).
  { destruct (List.filter _ items); [discriminate|]. injection H as <-.
    reflexivity. }
  rewrite Hp in Hin. apply elem_of_List_filter in Hin. exact Hin.
Qed.

(** What [callNeko] returns answers the request, item by item. *)
Lemma callNeko_items (argumentLimit : nat) options st r resp r' :
  consistent st ->
  callNeko argumentLimit options st r = Return (resp, r') ->
  Forall (answersRequest st options) (itemsOf resp).
Proof.
  intros (_ & _ & Hvalid & _) H.
  apply callNeko_Return in H as (params & result & Hp & Hm & ->).
  rewrite itemsOf_wrapResult.
  destruct (runMode_run argumentLimit st params r
              (parseOptions_amount_pos _ _ _ Hp))
    as [(result' & r'' & Hrun & Hall)|[Hrun _]];
    rewrite Hm in Hrun; [|discriminate Hrun].
  injection Hrun as <- <-.
  destruct (parseOptions_Return _ _ _ Hp)
    as (q & names & _ & Hn & Hf & Hparams).
  apply normalizeActions_Return in Hn as (Hnames & Hallowed & Hv).
  apply validateAndFilterCategories_Return in Hf as [Hfilter _].
  assert (Hsearch : p_search params = normalizeSearch (o_search options))
    by (rewrite Hparams; reflexivity).
  pose proof (buildSearchFilteredCategories_pools (gifsData st)
                (p_actions params) (p_search params)) as Hpools.
  pose proof (buildSearchFilteredCategories_keys (gifsData st)
                (p_actions params) (p_search params)) as Hkeys.
  eapply Forall_impl; [exact Hall|].
  intros obj (category & pool & Hentry & record & Hrec & ->).
  assert (Hfp : filteredPool (gifsData st) (p_search params) category
                = Some pool).
  { destruct Hpools as [_ Hfa]. rewrite Forall_forall in Hfa.
    exact (Hfa _ Hentry). }
  destruct (filteredPool_records _ _ _ _ _ Hfp Hrec)
    as (items & Hitems & Hin & Hmatch).
  assert (Hcat : category ∈ p_actions params).
  { assert (Hk : category ∈ mapKeys
                   (buildSearchFilteredCategories (gifsData st)
                      (p_actions params) (p_search params))).
    { unfold mapKeys. apply list_elem_of_fmap. exists (category, pool). auto. }
    rewrite Hkeys in Hk. unfold survivingCategories in Hk.
    apply firstOccurrences_elem in Hk.
    apply elem_of_List_filter in Hk as [Hk _]. exact Hk. }
  rewrite Hfilter in Hcat. apply elem_of_List_filter in Hcat as [Hcat Hmt].
  exists category, items, record.
  split; [apply (Hv Hvalid); exact Hcat|].
  split.
  { unfold callNekoActions. destruct (active (intentConfig st)) eqn:Hact.
    - apply Hallowed; [exact Hcat|reflexivity].
    - apply (Hv Hvalid). exact Hcat. }
  split.
  { intros [Hg1 Hg2]. rewrite Hnames in Hcat.
    destruct (o_actions options) as [| |b|n|s|l] eqn:Ha; try congruence;
      cbn [requestedActions] in Hcat;
      apply list_elem_of_omap in Hcat as (v & Hvin & Hvn);
      apply validActionName_Some in Hvn as [-> _]; exact Hvin. }
  split; [exact Hmt|]. split; [exact Hitems|]. split; [exact Hin|].
  split; [rewrite <- Hsearch; exact Hmatch|reflexivity].
Qed.

(** X21. On a consistent module state, every item [callNeko] returns,
    unwrapped or in an array, in any mode, is the projection of a record of
    the served data that answers the request: its category is a valid
    action that [callNekoActions] lists, one of the [actions] given when
    the option is given, and of the requested type; the record belongs to
    that category and matches the search terms; the item carries the
    category as its action, the category's kind as its type, and the fixed
    prefix followed by the record's stored path as its URL. *)
Theorem fetched_items_answer_the_request (argumentLimit : nat)
    (options : Options) (st : State) (r r' : RandomSource) (resp : Response) :
  consistent st ->
  callNeko argumentLimit options st r = Return (resp, r') ->
  Forall (fun obj =>
            answersRequest st options obj
            /\ resp_action obj ∈ callNekoActions st
            /\ resp_type obj = getContentType (resp_action obj)
            /\ matchesContentType (resp_action obj)
                 (normalizeType (o_type options)) = true
            /\ exists items record,
                 gifsData st !! resp_action obj = Some items
                 /\ record ∈ items
                 /\ resp_url obj = BASE_URL ++ url record)
    (itemsOf resp).
Proof.
  intros Hst H. pose proof (callNeko_items _ _ _ _ _ _ Hst H) as Hall.
  eapply Forall_impl; [exact Hall|].
  intros obj Hobj. split; [exact Hobj|].
  destruct Hobj as (category & items & record & _ & Hvis & _ & Hmt & Hitems
                    & Hin & _ & ->).
  cbn [createResponseObject resp_action resp_type resp_url].
  split; [exact Hvis|]. split; [reflexivity|]. split; [exact Hmt|].
  exists items, record. split; [exact Hitems|]. split; [exact Hin|reflexivity].
Qed.

Lemma fetched_items_answer_the_request_witness :
  callNeko sampleArgumentLimit fourOfAlice (initialState sampleCatalog) zeroSource
  = Return
      (Many
         [ {| resp_url := "https://nekos.best/api/v2/waifu/001.png";
              resp_action := "waifu"; resp_type := IMAGE;
              resp_metadata :=
                [ ("artist_href", Some "https://x.example/a");
                  ("artist_name", Some "Alice");
                  ("source_url", Some "https://src.example/1") ] |} ],
       zeroSource)
  /\ Forall (answersRequest (initialState sampleCatalog) fourOfAlice)
       [ {| resp_url := "https://nekos.best/api/v2/waifu/001.png";
            resp_action := "waifu"; resp_type := IMAGE;
            resp_metadata :=
              [ ("artist_href", Some "https://x.example/a");
                ("artist_name", Some "Alice");
                ("source_url", Some "https://src.example/1") ] |} ].
Proof.
  assert (H : callNeko sampleArgumentLimit fourOfAlice (initialState sampleCatalog) zeroSource
              = Return
                  (Many
                     [ {| resp_url := "https://nekos.best/api/v2/waifu/001.png";
                          resp_action := "waifu"; resp_type := IMAGE;
                          resp_metadata :=
                            [ ("artist_href", Some "https://x.example/a");
                              ("artist_name", Some "Alice");
                              ("source_url", Some "https://src.example/1") ] |} ],
                   zeroSource)) by (vm_compute; reflexivity).
  split; [exact H|].
  pose proof (fetched_items_answer_the_request _ _ _ _ _ _
                (initialState_consistent sampleCatalog) H) as Hall.
  cbn [itemsOf] in Hall.
  eapply Forall_impl; [exact Hall|]. intros obj [Hobj _]. exact Hobj.
Defined.

(** X22. After a [callNekoIntent] call that returned on a consistent
    module, whatever [callNeko] returns respects the intent: every item's
    action is among the allowed categories (so it is an image item under
    the type IMAGE and never one under GIF), and its metadata property
    names are exactly the fields the locked policy projects for its kind. *)
Theorem fetch_respects_the_locked_intent (argumentLimit : nat)
    (intent : IntentOptions) (st0 st : State) (options : Options)
    (r r' : RandomSource) (resp : Response) :
  consistent st0 ->
  callNekoIntent intent st0 = (Return tt, st) ->
  callNeko argumentLimit options st r = Return (resp, r') ->
  Forall (fun obj =>
            resp_action obj ∈ intentAllowedCategories (intentType intent)
            /\ (intentType intent = TypeNum IMAGE -> resp_type obj = IMAGE)
            /\ (intentType intent = TypeNum GIF -> resp_type obj = GIF)
            /\ metadataKeys obj
               = spec_projectedFields (intentConfig st) (resp_type obj))
    (itemsOf resp).
Proof.
  intros Hst0 Hlock H.
  assert (Hst : consistent st).
  { pose proof (callNekoIntent_consistent intent st0 Hst0) as Hc.
    rewrite Hlock in Hc. exact Hc. }
  destruct (callNekoIntent_Return_config _ _ _ Hlock)
    as (fields & _ & Hcfg & _).
  assert (Hvisible : callNekoActions st
                     = intentAllowedCategories (intentType intent)).
  { unfold callNekoActions. rewrite Hcfg. reflexivity. }
  pose proof (callNeko_items _ _ _ _ _ _ Hst H) as Hall.
  eapply Forall_impl; [exact Hall|].
  intros obj (category & items & record & _ & Hvis & _ & _ & _ & _ & _ & Hobj).
  rewrite Hvisible in Hvis.
  assert (Ha : resp_action obj = category) by (rewrite Hobj; reflexivity).
  assert (Ht : resp_type obj = getContentType category)
    by (rewrite Hobj; reflexivity).
  rewrite Ha, Ht. split; [exact Hvis|].
  pose proof (intentAllowedCategories_kind _ _ Hvis) as Hkind.
  split; [|split].
  - intros Hi. rewrite Hi in Hkind. destruct Hkind as [Hk|Hk]; [discriminate Hk|].
    injection Hk as Hk. symmetry. exact Hk.
  - intros Hg. rewrite Hg in Hkind. destruct Hkind as [Hk|Hk]; [discriminate Hk|].
    injection Hk as Hk. symmetry. exact Hk.
  - unfold metadataKeys. rewrite Hobj.
    rewrite createResponseObject_metadata, List.map_map.
    cbn [fst]. rewrite List.map_id. apply filter_projected. reflexivity.
Qed.

Lemma fetch_respects_the_locked_intent_witness :
  callNekoIntent imagesOnlyNoMetadata (initialState sampleCatalog)
  = (Return tt, lockedSample)
  /\ callNeko sampleArgumentLimit noOptions lockedSample zeroSource
     = Return
         (Single
            {| resp_url := "https://nekos.best/api/v2/waifu/001.png";
               resp_action := "waifu"; resp_type := IMAGE;
               resp_metadata := [] |},
          {| tape := []; calls := 1 |})
  /\ "waifu" ∈ intentAllowedCategories (intentType imagesOnlyNoMetadata).
Proof.
  assert (Hl : callNekoIntent imagesOnlyNoMetadata (initialState sampleCatalog)
               = (Return tt, lockedSample)) by reflexivity.
  assert (H : callNeko sampleArgumentLimit noOptions lockedSample zeroSource
              = Return
                  (Single
                     {| resp_url := "https://nekos.best/api/v2/waifu/001.png";
                        resp_action := "waifu"; resp_type := IMAGE;
                        resp_metadata := [] |},
                   {| tape := []; calls := 1 |})) by (vm_compute; reflexivity).
  split; [exact Hl|]. split; [exact H|].
  pose proof (fetch_respects_the_locked_intent _ _ _ _ _ _ _ _
                (initialState_consistent sampleCatalog) Hl H) as Hall.
  cbn [itemsOf] in Hall. apply Forall_cons in Hall as [(Ha & _) _].
  exact Ha.
Defined.

(* ========================================================================= *)
(** * Properties of the bulk and introspection operations                    *)
(* ========================================================================= *)

Lemma objectSet_fresh {V} (obj : list (string * V)) key value :
  key ∉ List.map fst obj -> objectSet obj key value = (obj ++ [(key, value)])%list.
Proof.
  induction obj as [|[k v] obj IH]; intros H; [reflexivity|].
  cbn [objectSet List.map fst] in *. apply not_elem_of_cons in H as [Hne H].
  destruct (String.eqb_spec k key) as [->|_]; [congruence|].
  rewrite (IH H). reflexivity.
Qed.

Lemma visibleCategories_NoDup st : consistent st -> NoDup (visibleCategories st).
Proof.
  intros (_ & Hnd & _). unfold visibleCategories.
  destruct (active (intentConfig st)); [exact Hnd|apply NoDup_VALID_ACTIONS].
Qed.

Lemma visibleCategories_actions st : visibleCategories st = callNekoActions st.
Proof. reflexivity. Qed.

(** Assigning, in order, the entries an [omap] keeps of distinct keys just
    appends them. *)
Lemma foldl_assign_distinct {V} (f : string -> option V) (l : list string) :
  NoDup l ->
  forall acc : list (string * V),
    (forall c, c ∈ l -> c ∉ List.map fst acc) ->
    foldl (fun obj c => match f c with
                        | Some v => objectSet obj c v
                        | None => obj
                        end) acc l
    = (acc ++ omap (fun c => (fun v => (c, v)) <$> f c) l)%list.
Proof.
  induction 1 as [|c l Hc Hnd IH]; intros acc Hfresh.
  - cbn. rewrite app_nil_r. reflexivity.
  - cbn [foldl omap list_omap]. destruct (f c) as [v|] eqn:Hf.
    + rewrite (objectSet_fresh acc c v) by (apply Hfresh; left).
      rewrite IH.
      * cbn [fmap option_fmap option_map]. rewrite <- app_assoc. reflexivity.
      * intros x Hx. rewrite List.map_app. cbn [List.map fst].
        rewrite elem_of_app, list_elem_of_singleton.
        intros [H| ->]; [|contradiction].
        exact (Hfresh x ltac:(right; exact Hx) H).
    + cbn [fmap option_fmap option_map]. apply IH.
      intros x Hx. apply Hfresh. right. exact Hx.
Qed.

Lemma omap_keys {V} (f : string -> option V) (l : list string) :
  List.map fst (omap (fun c => (fun v => (c, v)) <$> f c) l)
  = List.filter (fun c => bool_decide (is_Some (f c))) l.
Proof.
  induction l as [|c l IH]; [reflexivity|].
  cbn [omap list_omap List.filter]. destruct (f c) as [v|].
  - rewrite bool_decide_eq_true_2 by (eexists; reflexivity).
    cbn [fmap option_fmap option_map List.map fst]. f_equal. exact IH.
  - rewrite bool_decide_eq_false_2 by (intros [? [=]]).
    cbn [fmap option_fmap option_map]. exact IH.
Qed.

Lemma elem_of_omap_entry {V} (f : string -> option V) (l : list string) c v :
  (c, v) ∈ omap (fun c => (fun v => (c, v)) <$> f c) l <-> c ∈ l /\ f c = Some v.
Proof.
  rewrite list_elem_of_omap. split.
  - intros (x & Hx & Hf). destruct (f x) as [v'|] eqn:E; [|discriminate Hf].
    injection Hf as <- <-. auto.
  - intros [Hc Hf]. exists c. rewrite Hf. auto.
Qed.

Lemma foldl_pointwise {A B} (f g : A -> B -> A) (l : list B) :
  (forall a b, f a b = g a b) -> forall a, foldl f a l = foldl g a l.
Proof.
  intros H. induction l as [|b l IH]; intros a; [reflexivity|].
  cbn [foldl]. rewrite H. apply IH.
Qed.

Lemma callNekoLoad_visibleLoad st :
  consistent st -> callNekoLoad st = visibleLoad st.
Proof.
  intros Hst. unfold callNekoLoad, visibleLoad.
  pose proof (foldl_assign_distinct
                (fun c =>
                   List.map (fun item =>
                               createResponseObject (intentConfig st) item c)
                   <$> gifsData st !! c)
                (visibleCategories st) (visibleCategories_NoDup st Hst) [])
    as H.
  cbn [app] in H.
  transitivity
    (foldl (fun obj c =>
              match List.map (fun item =>
                                createResponseObject (intentConfig st) item c)
                    <$> gifsData st !! c with
              | Some v => objectSet obj c v
              | None => obj
              end) [] (visibleCategories st)).
  - apply foldl_pointwise. intros obj c. unfold loadCategory.
    destruct (gifsData st !! c); reflexivity.
  - rewrite H by (intros c _ Hin; inversion Hin).
    apply list_omap_ext. clear H.
    induction (visibleCategories st) as [|c l IH]; constructor; [|exact IH].
    destruct (gifsData st !! c); reflexivity.
Qed.

Lemma objectGet_omap {V} (f : string -> option V) (l : list string) c :
  objectGet (omap (fun c => (fun v => (c, v)) <$> f c) l) c
  = if bool_decide (c ∈ l) then f c else None.
Proof.
  induction l as [|x l IH].
  - rewrite bool_decide_eq_false_2 by (intros H; inversion H). reflexivity.
  - cbn [omap list_omap]. destruct (f x) as [v|] eqn:Hf.
    + cbn [fmap option_fmap option_map objectGet].
      destruct (String.eqb_spec x c) as [->|Hne].
      * rewrite bool_decide_eq_true_2 by left. symmetry. exact Hf.
      * fold (omap (fun c => (fun v => (c, v)) <$> f c) l). rewrite IH.
        destruct (decide (c ∈ l)) as [Hin|Hin].
        -- rewrite !bool_decide_eq_true_2; [reflexivity|right; exact Hin|exact Hin].
        -- rewrite !bool_decide_eq_false_2; [reflexivity| |exact Hin].
           intros [H|H]%elem_of_cons; [congruence|contradiction].
    + cbn [fmap option_fmap option_map].
      fold (omap (fun c => (fun v => (c, v)) <$> f c) l). rewrite IH.
      destruct (decide (c = x)) as [->|Hne].
      * rewrite (bool_decide_eq_true_2 (x ∈ x :: l)) by left. rewrite Hf.
        destruct (bool_decide (x ∈ l)); reflexivity.
      * destruct (decide (c ∈ l)) as [Hin|Hin].
        -- rewrite !bool_decide_eq_true_2; [reflexivity|right; exact Hin|exact Hin].
        -- rewrite !bool_decide_eq_false_2; [reflexivity| |exact Hin].
           intros [H|H]%elem_of_cons; [congruence|contradiction].
Qed.

(** X23. On a consistent module state, the object [callNekoLoad] returns
    has one property for each visible category (those [callNekoActions]
    lists) that the served data has, in that order and no other; the
    property holds that category's records, each projected by
    [createResponseObject] under the category's name, in catalog order. *)
Theorem load_returns_projected_visible_categories (st : State) :
  consistent st ->
  List.map fst (callNekoLoad st)
  = List.filter (fun c => bool_decide (is_Some (gifsData st !! c)))
      (callNekoActions st)
  /\ forall c,
      objectGet (callNekoLoad st) c
      = if bool_decide (c ∈ callNekoActions st)
        then List.map (fun item =>
                         createResponseObject (intentConfig st) item c)
             <$> gifsData st !! c
        else None.
Proof.
  intros Hst. rewrite (callNekoLoad_visibleLoad st Hst).
  rewrite <- visibleCategories_actions. unfold visibleLoad.
  generalize (visibleCategories st). intros l. split.
  - transitivity
      (List.map fst
         (omap (fun c =>
                  (fun v => (c, v))
                  <$> (List.map (fun item =>
                                   createResponseObject (intentConfig st) item c)
                       <$> gifsData st !! c)) l)).
    + f_equal. apply list_omap_ext.
      induction l as [|c l IH]; constructor; [|exact IH].
      destruct (gifsData st !! c); reflexivity.
    + rewrite (omap_keys
                 (fun c =>
                    List.map (fun item =>
                                createResponseObject (intentConfig st) item c)
                    <$> gifsData st !! c) l).
      induction l as [|c l IH]; [reflexivity|].
      cbn [List.filter]. rewrite IH.
      destruct (gifsData st !! c); reflexivity.
  - intros c.
    rewrite <- (objectGet_omap
                  (fun c =>
                     List.map (fun item =>
                                 createResponseObject (intentConfig st) item c)
                     <$> gifsData st !! c) l c).
    f_equal. apply list_omap_ext.
    induction l as [|x l IH]; constructor; [|exact IH].
    destruct (gifsData st !! x); reflexivity.
Qed.

Lemma load_returns_projected_visible_categories_witness :
  consistent lockedSample
  /\ List.map fst (callNekoLoad lockedSample)
     = List.filter (fun c => bool_decide (is_Some (gifsData lockedSample !! c)))
         (callNekoActions lockedSample)
  /\ forall c,
      objectGet (callNekoLoad lockedSample) c
      = if bool_decide (c ∈ callNekoActions lockedSample)
        then List.map (fun item =>
                         createResponseObject (intentConfig lockedSample) item c)
             <$> gifsData lockedSample !! c
        else None.
Proof.
  assert (Hc : consistent lockedSample).
  { unfold lockedSample. apply callNekoIntent_consistent.
    apply initialState_consistent. }
  split; [exact Hc|].
  exact (load_returns_projected_visible_categories lockedSample Hc).
Defined.

Lemma foldl_countCategory st (l : list string) :
  forall acc,
    total (foldl (countCategory st) acc l)
    = total acc
      + sum_list_with snd
          (omap (fun c => (fun v => (c, v)) <$> (length <$> gifsData st !! c)) l)
    /\ categories (foldl (countCategory st) acc l)
       = foldl (fun obj c => match length <$> gifsData st !! c with
                             | Some v => objectSet obj c v
                             | None => obj
                             end) (categories acc) l.
Proof.
  induction l as [|c l IH]; intros acc.
  - cbn. split; [lia|reflexivity].
  - cbn [foldl omap list_omap]. destruct (IH (countCategory st acc c)) as [Ht Hc].
    fold (omap (fun c => (fun v => (c, v)) <$> (length <$> gifsData st !! c)) l).
    rewrite Ht, Hc. unfold countCategory.
    destruct (gifsData st !! c) as [items|];
      cbn [fmap option_fmap option_map total categories sum_list_with snd];
      split; solve [lia|reflexivity].
Qed.

Lemma visibleCounts_omap st :
  visibleCounts st
  = omap (fun c => (fun v => (c, v)) <$> (length <$> gifsData st !! c))
      (visibleCategories st).
Proof.
  unfold visibleCounts. apply list_omap_ext.
  induction (visibleCategories st) as [|c l IH]; constructor; [|exact IH].
  destruct (gifsData st !! c); reflexivity.
Qed.

Lemma NoDup_visibleCounts_keys st :
  consistent st -> NoDup (List.map fst (visibleCounts st)).
Proof.
  intros Hst. rewrite visibleCounts_omap, omap_keys.
  apply NoDup_List_filter. apply visibleCategories_NoDup. exact Hst.
Qed.

Lemma insertByCount_Permutation e l : insertByCount e l ≡ₚ e :: l.
Proof.
  induction l as [|x l IH]; [reflexivity|].
  cbn [insertByCount]. destruct (snd e <? snd x)%nat; [|reflexivity].
  rewrite IH. apply Permutation_swap.
Qed.

Lemma sortByCountDescending_Permutation l : sortByCountDescending l ≡ₚ l.
Proof.
  induction l as [|e l IH]; [reflexivity|].
  cbn [sortByCountDescending]. rewrite insertByCount_Permutation, IH.
  reflexivity.
Qed.

Lemma insertByCount_descending e l :
  descending l -> descending (insertByCount e l).
Proof.
  induction l as [|x l IH]; intros Hd.
  - cbn. split; [constructor|exact I].
  - cbn [insertByCount]. destruct Hd as [Hx Hd].
    destruct (Nat.ltb_spec (snd e) (snd x)) as [Hlt|Hge].
    + cbn [descending]. split; [|exact (IH Hd)].
      rewrite insertByCount_Permutation. constructor; [lia|exact Hx].
    + cbn [descending]. repeat split; [|exact Hx|exact Hd].
      constructor; [exact Hge|].
      eapply Forall_impl; [exact Hx|]. cbn. intros; lia.
Qed.

Lemma sortByCountDescending_descending l :
  descending (sortByCountDescending l).
Proof.
  induction l as [|e l IH]; [exact I|].
  cbn [sortByCountDescending]. apply insertByCount_descending. exact IH.
Qed.

Lemma insertByCount_withCount k e l :
  withCount k (insertByCount e l) = withCount k (e :: l).
Proof.
  unfold withCount. induction l as [|x l IH]; [reflexivity|].
  cbn [insertByCount]. destruct (Nat.ltb_spec (snd e) (snd x)) as [Hlt|Hge];
    [|reflexivity].
  cbn [List.filter] in *. rewrite IH.
  destruct (Nat.eqb_spec (snd e) k) as [He|He]; [|reflexivity].
  destruct (Nat.eqb_spec (snd x) k) as [Hx|Hx]; [lia|reflexivity].
Qed.

Lemma sortByCountDescending_withCount k l :
  withCount k (sortByCountDescending l) = withCount k l.
Proof.
  induction l as [|e l IH]; [reflexivity|].
  cbn [sortByCountDescending]. rewrite insertByCount_withCount.
  unfold withCount in *. cbn [List.filter]. rewrite IH. reflexivity.
Qed.

Lemma foldl_objectSet_entries {V} (l : list (string * V)) :
  NoDup (List.map fst l) ->
  forall acc : list (string * V),
    (forall c, c ∈ List.map fst l -> c ∉ List.map fst acc) ->
    foldl (fun obj entry => objectSet obj (fst entry) (snd entry)) acc l
    = (acc ++ l)%list.
Proof.
  induction l as [|[k v] l IH]; intros Hnd acc Hfresh.
  - cbn. rewrite app_nil_r. reflexivity.
  - cbn [List.map fst] in Hnd, Hfresh. apply NoDup_cons in Hnd as [Hk Hnd].
    cbn [foldl fst snd].
    rewrite (objectSet_fresh acc k v) by (apply Hfresh; left).
    rewrite (IH Hnd).
    + rewrite <- app_assoc. reflexivity.
    + intros x Hx. rewrite List.map_app. cbn [List.map fst].
      rewrite elem_of_app, list_elem_of_singleton.
      intros [H| ->]; [|contradiction].
      exact (Hfresh x ltac:(right; exact Hx) H).
Qed.

Lemma callNekoCount_sorted st :
  consistent st ->
  total (callNekoCount st) = sum_list_with snd (visibleCounts st)
  /\ categories (callNekoCount st) = sortByCountDescending (visibleCounts st).
Proof.
  intros Hst. unfold callNekoCount. cbn [total categories].
  destruct (foldl_countCategory st (visibleCategories st)
              {| total := 0; categories := [] |}) as [Ht Hc].
  rewrite Ht, Hc. cbn [total categories]. rewrite <- visibleCounts_omap.
  split; [reflexivity|].
  rewrite (foldl_assign_distinct (fun c => length <$> gifsData st !! c)
             (visibleCategories st) (visibleCategories_NoDup st Hst) [])
    by (intros c _ Hin; inversion Hin).
  cbn [app]. rewrite <- visibleCounts_omap.
  rewrite foldl_objectSet_entries; [reflexivity| |intros c _ Hin; inversion Hin].
  rewrite sortByCountDescending_Permutation.
  apply NoDup_visibleCounts_keys. exact Hst.
Qed.

(** X24. On a consistent module state, [callNekoCount] reports exactly the
    visible categories (those [callNekoActions] lists) that the served data
    has, each once with the number of its records; the entries are ordered
    by descending count, categories with equal counts keeping the order of
    the visible categories; and the total is the sum of the reported
    counts. *)
Theorem count_reports_visible_categories_by_descending_count (st : State) :
  consistent st ->
  (forall c n,
      (c, n) ∈ categories (callNekoCount st)
      <-> c ∈ callNekoActions st
          /\ exists items, gifsData st !! c = Some items /\ n = length items)
  /\ NoDup (List.map fst (categories (callNekoCount st)))
  /\ descending (categories (callNekoCount st))
  /\ (forall k,
        withCount k (categories (callNekoCount st))
        = withCount k (visibleCounts st))
  /\ total (callNekoCount st)
     = sum_list_with snd (categories (callNekoCount st)).
Proof.
  intros Hst. destruct (callNekoCount_sorted st Hst) as [Ht Hc].
  rewrite Ht, Hc. split; [|split; [|split; [|split]]].
  - intros c n.
    rewrite sortByCountDescending_Permutation, visibleCounts_omap.
    change (callNekoActions st) with (visibleCategories st).
    split.
    + intros [Hin Hf]%elem_of_omap_entry. split; [exact Hin|].
      destruct (gifsData st !! c) as [items|]; [|discriminate Hf].
      injection Hf as <-. eauto.
    + intros [Hin (items & Hf & ->)]. apply elem_of_omap_entry.
      split; [exact Hin|]. rewrite Hf. reflexivity.
  - rewrite sortByCountDescending_Permutation.
    apply NoDup_visibleCounts_keys. exact Hst.
  - apply sortByCountDescending_descending.
  - intros k. apply sortByCountDescending_withCount.
  - rewrite sortByCountDescending_Permutation. reflexivity.
Qed.

Lemma count_reports_visible_categories_by_descending_count_witness :
  consistent lockedSample
  /\ (forall c n,
        (c, n) ∈ categories (callNekoCount lockedSample)
        <-> c ∈ callNekoActions lockedSample
            /\ exists items,
                gifsData lockedSample !! c = Some items /\ n = length items)
  /\ NoDup (List.map fst (categories (callNekoCount lockedSample)))
  /\ descending (categories (callNekoCount lockedSample))
  /\ (forall k,
        withCount k (categories (callNekoCount lockedSample))
        = withCount k (visibleCounts lockedSample))
  /\ total (callNekoCount lockedSample)
     = sum_list_with snd (categories (callNekoCount lockedSample)).
Proof.
  assert (Hc : consistent lockedSample).
  { unfold lockedSample. apply callNekoIntent_consistent.
    apply initialState_consistent. }
  split; [exact Hc|].
  exact (count_reports_visible_categories_by_descending_count lockedSample Hc).
Defined.

(* ========================================================================= *)
(** * Properties of the type and mode normalisers                            *)
(* ========================================================================= *)

Lemma normalizeType_lookup v :
  normalizeType v
  = match TYPE_ALIASES v with
    | Own t => TypeNum t
    | Inherited k => TypeProto k
    | Missing => TypeNum BOTH
    end.
Proof.
  destruct v as [| |b|n|s|l]; try reflexivity.
  unfold normalizeType, TYPE_ALIASES. cbn [toPropertyKey].
  destruct (numberIs n 1); [reflexivity|].
  destruct (numberIs n 2); [reflexivity|].
  destruct (numberIs n 3); reflexivity.
Qed.

Lemma normalizeMode_lookup v :
  normalizeMode v
  = match MODE_ALIASES v with
    | Own m => ModeStr m
    | Inherited k => ModeProto k
    | Missing => ModeStr RANDOM
    end.
Proof.
  destruct v as [| |b|n|s|l]; try reflexivity.
  unfold normalizeMode, MODE_ALIASES. cbn [toPropertyKey].
  destruct (String.eqb s "1"); [reflexivity|].
  destruct (String.eqb s "2"); [reflexivity|].
  destruct (String.eqb s "3"); [reflexivity|].
  destruct (String.eqb_spec s "random") as [->|_]; [reflexivity|].
  destruct (String.eqb_spec s "distributed") as [->|_]; [reflexivity|].
  destruct (String.eqb_spec s "each") as [->|_]; [reflexivity|].
  destruct (arrayIncludes OBJECT_PROTOTYPE_KEYS s); reflexivity.
Qed.

(** X25. [normalizeType] and [normalizeMode] depend on their argument only
    through the property key it is converted to when it indexes the alias
    table: two values with the same key (the number 2 and the string "2",
    a string and the one-element array holding it) normalise alike. *)
Theorem type_and_mode_depend_only_on_property_key (v w : JSValue) :
  toPropertyKey v = toPropertyKey w ->
  normalizeType v = normalizeType w /\ normalizeMode v = normalizeMode w.
Proof.
  intros H. rewrite !normalizeType_lookup, !normalizeMode_lookup.
  unfold TYPE_ALIASES, MODE_ALIASES. rewrite H. split; reflexivity.
Qed.

Lemma type_and_mode_depend_only_on_property_key_witness :
  toPropertyKey (JNum (Finite 2)) = toPropertyKey (JArr [JStr "2"])
  /\ normalizeType (JNum (Finite 2)) = normalizeType (JArr [JStr "2"])
  /\ normalizeMode (JNum (Finite 2)) = normalizeMode (JArr [JStr "2"]).
Proof.
  split; [reflexivity|].
  apply (type_and_mode_depend_only_on_property_key
           (JNum (Finite 2)) (JArr [JStr "2"])).
  reflexivity.
Defined.

(** X26. A type the alias table does not know, own or inherited, is
    normalised to BOTH, and a mode it does not know to RANDOM: the
    membership tests that follow the alias lookup in [normalizeType] and
    [normalizeMode] never change the result. *)
Theorem unknown_type_is_both_and_unknown_mode_is_random (type mode : JSValue) :
  TYPE_ALIASES type = Missing ->
  MODE_ALIASES mode = Missing ->
  normalizeType type = TypeNum BOTH /\ normalizeMode mode = ModeStr RANDOM.
Proof.
  intros Ht Hm. rewrite normalizeType_lookup, Ht, normalizeMode_lookup, Hm.
  split; reflexivity.
Qed.

Lemma unknown_type_is_both_and_unknown_mode_is_random_witness :
  TYPE_ALIASES (JStr "video") = Missing
  /\ MODE_ALIASES (JNum (Finite 7)) = Missing
  /\ normalizeType (JStr "video") = TypeNum BOTH
  /\ normalizeMode (JNum (Finite 7)) = ModeStr RANDOM.
Proof.
  assert (Ht : TYPE_ALIASES (JStr "video") = Missing) by (vm_compute; reflexivity).
  assert (Hm : MODE_ALIASES (JNum (Finite 7)) = Missing) by (vm_compute; reflexivity).
  split; [exact Ht|]. split; [exact Hm|].
  exact (unknown_type_is_both_and_unknown_mode_is_random
           (JStr "video") (JNum (Finite 7)) Ht Hm).
Defined.

(** X27. A request whose mode names an inherited member of
    [Object.prototype] matches no [case] of the [switch] in [callNeko]:
    when its options parse, the call returns the empty array without
    calling [Math.random], whatever the amount and the actions. *)
Theorem mode_naming_prototype_member_returns_empty (argumentLimit : nat)
    (options : Options) (st : State) (k : string) (params : Params)
    (r : RandomSource) :
  toPropertyKey (o_mode options) = Key k ->
  arrayIncludes OBJECT_PROTOTYPE_KEYS k = true ->
  parseOptions (intentConfig st) options = Return params ->
  callNeko argumentLimit options st r = Return (Many [], r).
Proof.
  intros Hk Hproto Hparse.
  rewrite (callNeko_parsed _ options st params r Hparse).
  destruct (parseOptions_Return _ _ _ Hparse) as (q & names & _ & _ & _ & ->).
  unfold runMode. cbn [p_mode]. rewrite normalizeMode_lookup.
  unfold MODE_ALIASES. rewrite Hk.
  assert (Hne : forall s, arrayIncludes OBJECT_PROTOTYPE_KEYS s = false ->
                          String.eqb k s = false).
  { intros s Hs. destruct (String.eqb_spec k s) as [->|_]; [|reflexivity].
    rewrite Hs in Hproto. discriminate Hproto. }
  rewrite !Hne by (vm_compute; reflexivity).
  rewrite Hproto. unfold rret, wrapResult. cbn [length].
  rewrite andb_false_r. reflexivity.
Qed.

Lemma mode_naming_prototype_member_returns_empty_witness :
  exists params,
    toPropertyKey (o_mode modeNamedConstructor) = Key "constructor"
    /\ arrayIncludes OBJECT_PROTOTYPE_KEYS "constructor" = true
    /\ parseOptions (intentConfig (initialState sampleCatalog))
         modeNamedConstructor = Return params
    /\ callNeko sampleArgumentLimit modeNamedConstructor (initialState sampleCatalog) zeroSource
       = Return (Many [], zeroSource).
Proof.
  eexists.
  assert (Hparse : parseOptions (intentConfig (initialState sampleCatalog))
                     modeNamedConstructor
                   = Return {| p_amount := 2; p_actions := ["hug"];
                               p_search := []; p_type := TypeNum BOTH;
                               p_mode := ModeProto "constructor";
                               p_dupe := false |})
    by (vm_compute; reflexivity).
  split; [reflexivity|]. split; [vm_compute; reflexivity|].
  split; [exact Hparse|].
  exact (mode_naming_prototype_member_returns_empty sampleArgumentLimit
           modeNamedConstructor
           (initialState sampleCatalog) "constructor" _ zeroSource
           eq_refl ltac:(vm_compute; reflexivity) Hparse).
Defined.
